(** * Interpreters/ExpressionActions.h: ActionsDAG, ExpressionActions and
      ExpressionActionsChain

    A shallow embedding of the header.  Pointers to nodes are addresses in the
    node arena of a DAG ([std::list<Node>], whose elements never move), list
    iterators of the [Index] are positions in its list, a [shared_ptr] to a
    DAG is a nullable location of a store of DAGs, and a call either returns,
    throws a [DB::Exception], or has undefined behaviour. *)

From stdpp Require Import gmap strings list fin_maps.

(** ** Outcomes of a call *)

(** [ErrorCodes::LOGICAL_ERROR] is the only code the header names.  The other
    codes are the error kinds of the parts of the repository that the header
    only declares. *)
Inductive ErrorCode : Set :=
| LOGICAL_ERROR
| UNKNOWN_IDENTIFIER
| TYPE_MISMATCH
| DUPLICATE_INPUT
| TOO_MANY_TEMPORARY_COLUMNS
| TOO_MANY_TEMPORARY_NON_CONST_COLUMNS
| ARRAY_JOIN_TYPE_MISMATCH.

Record Exception : Set := mkException { message : string; code : ErrorCode }.

Inductive outcome (A : Type) : Type :=
| Returns (a : A)
| Throws (e : Exception)
| Undefined.
Arguments Returns {A} a.
Arguments Throws {A} e.
Arguments Undefined {A}.

#[export] Instance outcome_ret : MRet outcome := fun A a => Returns a.
#[export] Instance outcome_bind : MBind outcome := fun A B f m =>
  match m with
  | Returns a => f a
  | Throws e => Throws e
  | Undefined => Undefined
  end.

(** ** Values, columns and types *)

(** Modelled from the spec: [IDataType] (DataTypes/) is not part of the header.
    The spec needs a datatype per column and, for ARRAY_JOIN, an array type
    with its nested element type. *)
Inductive DataType : Set :=
| DataTypeInt64
| DataTypeString
| DataTypeArray (nested : DataType).

#[export] Instance DataType_eq_dec : EqDecision DataType.
Proof. solve_decision. Defined.

(** A [shared_ptr<const IDataType>]; [None] is the null pointer. *)
Abbreviation DataTypePtr := (option DataType) (only parsing).

(** Modelled from the spec: [Field] and [IColumn] (Core/, Columns/) are not part
    of the header.  Glossary: a column is "a typed vector of values; may be
    constant (one value, logical length N) or full (N distinct values)". *)
#[warnings="-register-all"]
Inductive Value : Set :=
| VInt (z : Z)
| VString (s : string)
| VArray (elements : list Value).

Inductive Column : Set :=
| ColumnFull (data : list Value)
| ColumnConst (value : Value) (rows : nat).

Abbreviation ColumnPtr := (option Column) (only parsing).

Definition isColumnConst (c : Column) : bool :=
  match c with ColumnConst _ _ => true | ColumnFull _ => false end.

Record ColumnWithTypeAndName : Set := mkColumnWithTypeAndName {
  cwtn_column : ColumnPtr;
  cwtn_type : DataTypePtr;
  cwtn_name : string }.

Abbreviation ColumnsWithTypeAndName := (list ColumnWithTypeAndName) (only parsing).
Abbreviation Block := (list ColumnWithTypeAndName) (only parsing).

Record NameAndTypePair : Set := mkNameAndTypePair {
  nt_name : string;
  nt_type : DataTypePtr }.

Abbreviation NamesAndTypesList := (list NameAndTypePair) (only parsing).
Abbreviation Names := (list string) (only parsing).

(** Modelled from the spec: the function interfaces (Functions/) are not part of
    the header.  §6: an [ExecutableFunction] "invokes on a set of argument
    columns and a row count, returns a result column"; a function base carries
    the bound signature, and the mark of §4.2: "functions marked row-sensitive
    stay on the post-array-join side". *)
Record ExecutableFunction : Type := mkExecutableFunction {
  fn_execute : list Column -> nat -> Column }.

Record FunctionBase : Type := mkFunctionBase {
  fn_name : string;
  fn_return_type : DataTypePtr;
  fn_row_sensitive : bool }.

Abbreviation ExecutableFunctionPtr := (option ExecutableFunction) (only parsing).
Abbreviation FunctionBasePtr := (option FunctionBase) (only parsing).
Abbreviation FunctionOverloadResolverPtr := (option string) (only parsing).

(** ** ActionsDAG::Node *)

Inductive ActionType : Set :=
| INPUT        (* Column which must be in input. *)
| COLUMN       (* Constant column with known value. *)
| ALIAS        (* Another one name for column. *)
| ARRAY_JOIN   (* Function arrayJoin: changes the number of rows. *)
| FUNCTION.

#[export] Instance ActionType_eq_dec : EqDecision ActionType.
Proof. solve_decision. Defined.

(** A [Node *]: the address of a node of the arena. *)
Abbreviation NodePtr := (nat) (only parsing).

Record Node : Type := mkNode {
  children : list NodePtr;
  type : ActionType;
  result_name : string;
  result_type : DataTypePtr;
  function_builder : FunctionOverloadResolverPtr;
  function_base : FunctionBasePtr;
  function : ExecutableFunctionPtr;
  is_function_compiled : bool;
  column : ColumnPtr;
  allow_constant_folding : bool }.

(** [using Nodes = std::list<Node>]: the arena; the address of a node is its
    position. *)
Abbreviation Nodes := (list Node) (only parsing).

(** ** ActionsDAG::Index *)

Module Index.

(** A [std::list<Node *>::iterator] is a position of [idx_list];
    [list.end()] is the length of the list. *)
Abbreviation iterator := (nat) (only parsing).

Record t : Type := mk {
  idx_list : list NodePtr;
  idx_map : gmap string iterator }.

Definition empty : t := {| idx_list := []; idx_map := ∅ |}.

Definition size (i : t) : nat := length (idx_list i).

Definition contains (key : string) (i : t) : bool :=
  bool_decide (is_Some (idx_map i !! key)).

Definition begin_ (i : t) : iterator := 0.
Definition end_ (i : t) : iterator := length (idx_list i).

Definition find (key : string) (i : t) : iterator :=
  match idx_map i !! key with
  | None => end_ i
  | Some it => it
  end.

(** [*it] for an iterator of the list. *)
Definition deref (it : iterator) (i : t) : option NodePtr := idx_list i !! it.

(** [map[node->result_name] = list.emplace(list.end(), node)].  Reading
    [node->result_name] through a pointer that is not in the arena is
    undefined. *)
Definition insert (nodes : Nodes) (node : NodePtr) (i : t) : outcome t :=
  match nodes !! node with
  | None => Undefined
  | Some n =>
      Returns {| idx_list := idx_list i ++ [node];
                 idx_map := <[result_name n := length (idx_list i)]> (idx_map i) |}
  end.

(** [map.extract] takes the entry of the name out of the map; the handle's
    key is pointed at the new node's name (the same string), the list cell
    it maps to is overwritten, and the entry is put back.  Writing through
    an iterator that is not a cell of the list is undefined. *)
Definition replace (nodes : Nodes) (node : NodePtr) (i : t) : outcome t :=
  match nodes !! node with
  | None => Undefined
  | Some n =>
      match idx_map i !! result_name n with
      | Some it =>
          if decide (it < length (idx_list i)) then
            Returns {| idx_list := <[it := node]> (idx_list i);
                       idx_map := <[result_name n := it]> (delete (result_name n) (idx_map i)) |}
          else Undefined
      | None => insert nodes node i
      end
  end.

(** [if (it != map.end()) return;] leaves the index as it is when the name is
    present.  Otherwise [it] is [map.end()], and [it->second] dereferences
    the end iterator of the map. *)
Definition remove (nodes : Nodes) (node : NodePtr) (i : t) : outcome t :=
  match nodes !! node with
  | None => Undefined
  | Some n =>
      match idx_map i !! result_name n with
      | Some _ => Returns i
      | None => Undefined
      end
  end.

Definition swap (i other : t) : t * t := (other, i).

(** "Map always point to existing node": every entry of the map is a cell of
    the list, and the node in that cell carries the key as its name. *)
Definition wf (nodes : Nodes) (i : t) : Prop :=
  forall key it, idx_map i !! key = Some it ->
    exists node n, idx_list i !! it = Some node /\ nodes !! node = Some n
                   /\ result_name n = key.

(** The names of the columns of the result, in order. *)
Definition names (nodes : Nodes) (i : t) : list string :=
  omap (fun node => result_name <$> nodes !! node) (idx_list i).

End Index.

(** ** ActionsDAG *)

Record ActionsSettings : Set := mkActionsSettings {
  max_temporary_columns : nat;
  max_temporary_non_const_columns : nat;
  min_count_to_compile_expression : nat;
  compile_expressions : bool;
  project_input : bool;
  projected_output : bool }.

Definition default_settings : ActionsSettings :=
  {| max_temporary_columns := 0;
     max_temporary_non_const_columns := 0;
     min_count_to_compile_expression := 0;
     compile_expressions := false;
     project_input := false;
     projected_output := false |}.

Record ActionsDAG : Type := mkActionsDAG {
  nodes : Nodes;
  index : Index.t;
  settings : ActionsSettings }.

(** [ActionsDAG() = default]. *)
Definition ActionsDAG_default : ActionsDAG :=
  {| nodes := []; index := Index.empty; settings := default_settings |}.

Definition getNodes (d : ActionsDAG) : Nodes := nodes d.
Definition getIndex (d : ActionsDAG) : Index.t := index d.
Definition getSettings (d : ActionsDAG) : ActionsSettings := settings d.

Definition set_project_input (b : bool) (s : ActionsSettings) : ActionsSettings :=
  {| max_temporary_columns := max_temporary_columns s;
     max_temporary_non_const_columns := max_temporary_non_const_columns s;
     min_count_to_compile_expression := min_count_to_compile_expression s;
     compile_expressions := compile_expressions s;
     project_input := b;
     projected_output := projected_output s |}.

(** [void projectInput() { settings.project_input = true; }] *)
Definition projectInput (d : ActionsDAG) : ActionsDAG :=
  {| nodes := nodes d; index := index d;
     settings := set_project_input true (settings d) |}.

(** [cloneEmpty]: a fresh DAG carrying the settings. *)
Definition cloneEmpty (d : ActionsDAG) : ActionsDAG :=
  {| nodes := []; index := Index.empty; settings := settings d |}.

(** ** Building a DAG *)

(** Modelled from the spec: [ActionsDAG::getNode] is declared in the header and
    defined elsewhere.  §4.1: "Named column lookups use the Index"; a missing
    name is the error UnknownIdentifier. *)
Definition getNode (name : string) (d : ActionsDAG) : outcome NodePtr :=
  match Index.idx_map (index d) !! name with
  | None => Throws (mkException "Unknown identifier" UNKNOWN_IDENTIFIER)
  | Some it =>
      match Index.deref it (index d) with
      | Some node => Returns node
      | None => Undefined
      end
  end.

(** Modelled from the spec: [ActionsDAG::addNode] is declared in the header and
    defined elsewhere.  §4.1: the builders "return a stable reference to the
    newly inserted node"; the node is put in the Index: "If [can_replace] is
    true and [alias] already exists, replace the Index entry; otherwise
    append".  The Index is changed through [Index::replace] and
    [Index::insert] of the header. *)
Definition addNode (node : Node) (can_replace : bool) (d : ActionsDAG)
  : outcome (ActionsDAG * NodePtr) :=
  let res := length (nodes d) in
  let nodes' := nodes d ++ [node] in
  i ← (if can_replace && Index.contains (result_name node) (index d)
       then Index.replace nodes' res (index d)
       else Index.insert nodes' res (index d));
  Returns ({| nodes := nodes'; index := i; settings := settings d |}, res).

(** Modelled from the spec: [ActionsDAG::addInput] is declared in the header and
    defined elsewhere.  §4.1: "insert an INPUT.  Fails with DuplicateInput if
    [name] is already present in the Index". *)
Definition addInput (name : string) (ty : DataTypePtr) (d : ActionsDAG)
  : outcome (ActionsDAG * NodePtr) :=
  if Index.contains name (index d)
  then Throws (mkException "Duplicate input" DUPLICATE_INPUT)
  else
    addNode {| children := []; type := INPUT; result_name := name;
               result_type := ty; function_builder := None;
               function_base := None; function := None;
               is_function_compiled := false; column := None;
               allow_constant_folding := true |} false d.

(** Modelled from the spec: [ActionsDAG::addAlias] is declared in the header and
    defined elsewhere.  §4.1: "look up [source_name] in the Index (error
    UnknownIdentifier if missing); create an ALIAS whose child is that node;
    insert into Index"; §3: the type of an ALIAS "equals the child's"; §9:
    [allow_constant_folding] "is preserved through aliases". *)
Definition addAlias (name alias : string) (can_replace : bool) (d : ActionsDAG)
  : outcome (ActionsDAG * NodePtr) :=
  child ← getNode name d;
  match nodes d !! child with
  | None => Undefined
  | Some c =>
      addNode {| children := [child]; type := ALIAS; result_name := alias;
                 result_type := result_type c; function_builder := None;
                 function_base := None; function := None;
                 is_function_compiled := false; column := column c;
                 allow_constant_folding := allow_constant_folding c |}
              can_replace d
  end.

(** Modelled from the spec: the constructor [ActionsDAG(const NamesAndTypesList &)]
    is declared in the header and defined elsewhere.  §6: the "input column
    schema is presented as a typed name list"; each entry becomes an INPUT of
    the DAG, which is "built as an input-typed source" (§4.1). *)
Fixpoint addInputs (inputs : NamesAndTypesList) (d : ActionsDAG) : outcome ActionsDAG :=
  match inputs with
  | [] => Returns d
  | input :: rest =>
      r ← addInput (nt_name input) (nt_type input) d;
      addInputs rest r.1
  end.

Definition ActionsDAG_from_inputs (inputs : NamesAndTypesList) : outcome ActionsDAG :=
  addInputs inputs ActionsDAG_default.

(** ** ExpressionActionsChain *)

(** The store of the DAGs that shared pointers own: [make_shared] adds a cell,
    and every copy of the pointer names the same cell. *)
Abbreviation Store := (list ActionsDAG) (only parsing).
Abbreviation ActionsDAGPtr := (option nat) (only parsing).

Definition make_shared (d : ActionsDAG) (σ : Store) : Store * ActionsDAGPtr :=
  (σ ++ [d], Some (length σ)).

Definition get (p : ActionsDAGPtr) (σ : Store) : option ActionsDAG :=
  l ← p; σ !! l.

(** Pointers to objects of classes the header only names. *)
Abbreviation ArrayJoinActionPtr := (option nat) (only parsing).
Abbreviation TableJoinPtr := (option nat) (only parsing).
Abbreviation JoinPtr := (option nat) (only parsing).
Abbreviation ContextRef := (nat) (only parsing).

(** The members of [Step]. *)
Record StepBase : Type := mkStepBase {
  additional_input : gset string;
  required_output : Names;
  can_remove_required_output : list bool }.

(** [explicit Step(Names required_output_)] *)
Definition Step_new (required_output_ : Names) : StepBase :=
  {| additional_input := ∅; required_output := required_output_;
     can_remove_required_output := [] |}.

(** The three classes derived from [Step]; the constructor is the dynamic type
    of the object. *)
Inductive Step : Type :=
| ExpressionActionsStep (base : StepBase) (actions_dag : ActionsDAGPtr)
| ArrayJoinStep (base : StepBase) (array_join : ArrayJoinActionPtr)
    (required_columns : NamesAndTypesList) (result_columns : ColumnsWithTypeAndName)
| JoinStep (base : StepBase) (analyzed_join : TableJoinPtr) (join : JoinPtr)
    (required_columns : NamesAndTypesList) (result_columns : ColumnsWithTypeAndName).

(** [ExpressionActionsStep(ActionsDAGPtr actions_dag_, Names required_output_ = Names())] *)
Definition ExpressionActionsStep_new (actions_dag_ : ActionsDAGPtr) : Step :=
  ExpressionActionsStep (Step_new []) actions_dag_.

(** Modelled from the spec: [typeid_cast] (Common/) is not part of the header.
    §9: the steps are "a tagged variant"; the cast to
    [ExpressionActionsStep *] gives the object when that is its dynamic type
    and the null pointer otherwise. *)
Definition typeid_cast_ExpressionActionsStep (s : Step) : option (StepBase * ActionsDAGPtr) :=
  match s with
  | ExpressionActionsStep base dag => Some (base, dag)
  | _ => None
  end.

(** The calls a step makes on its DAG. *)
Inductive Call : Set :=
| Call_removeUnusedActions (dag : nat) (required_names : Names).

Section Finalize.

(** [ActionsDAG::removeUnusedActions(const Names &)] is declared in the
    header and defined elsewhere: it is a parameter here. *)
Variable removeUnusedActions : Names -> ActionsDAG -> outcome ActionsDAG.

(** [ExpressionActionsStep::finalize]: the new store and the calls made. *)
Definition ExpressionActionsStep_finalize (actions_dag : ActionsDAGPtr)
    (required_output_ : Names) (σ : Store) : outcome (Store * list Call) :=
  match actions_dag with
  | None => Undefined
  | Some l =>
      match σ !! l with
      | None => Undefined
      | Some d =>
          if negb (projected_output (getSettings d)) then
            d' ← removeUnusedActions required_output_ d;
            Returns (<[l := d']> σ, [Call_removeUnusedActions l required_output_])
          else Returns (σ, [])
      end
  end.

End Finalize.

(** [ExpressionActionsStep::prependProjectInput] *)
Definition ExpressionActionsStep_prependProjectInput (actions_dag : ActionsDAGPtr)
    (σ : Store) : outcome Store :=
  match actions_dag with
  | None => Undefined
  | Some l =>
      match σ !! l with
      | None => Undefined
      | Some d => Returns (<[l := projectInput d]> σ)
      end
  end.

(** [Step::prependProjectInput], by the dynamic type of the step: the
    override of ExpressionActionsStep, and the empty bodies of ArrayJoinStep
    and JoinStep. *)
Definition Step_prependProjectInput (s : Step) (σ : Store) : outcome Store :=
  match s with
  | ExpressionActionsStep _ actions_dag =>
      ExpressionActionsStep_prependProjectInput actions_dag σ
  | ArrayJoinStep _ _ _ _ => Returns σ
  | JoinStep _ _ _ _ _ => Returns σ
  end.

Record ExpressionActionsChain : Type := mkChain {
  context : ContextRef;
  steps : list Step }.

(** A [Step &] into [steps]: the position of the element. *)
Abbreviation StepRef := (nat) (only parsing).

Definition at_ (r : StepRef) (c : ExpressionActionsChain) : option Step := steps c !! r.

Definition vector_empty {A : Type} (v : list A) : bool :=
  match v with [] => true | _ :: _ => false end.

(** [steps.clear()] *)
Definition clear (c : ExpressionActionsChain) : ExpressionActionsChain :=
  {| context := context c; steps := [] |}.

(** The exception of the accessors on an empty chain (the spec's EmptyChain). *)
Definition EmptyChain : Exception :=
  mkException "Empty ExpressionActionsChain" LOGICAL_ERROR.

(** [getLastActions(bool allow_empty = false)]: the chain after the call and
    the pointer returned.  Dereferencing the null pointer that the cast gives
    for another kind of step is undefined. *)
Definition getLastActions (allow_empty : bool) (c : ExpressionActionsChain)
  : outcome (ExpressionActionsChain * ActionsDAGPtr) :=
  if vector_empty (steps c) then
    if allow_empty then Returns (c, None) else Throws EmptyChain
  else
    match last (steps c) with
    | None => Undefined
    | Some s =>
        match typeid_cast_ExpressionActionsStep s with
        | Some (_, dag) => Returns (c, dag)
        | None => Undefined
        end
    end.

(** [*steps.back()] *)
Definition back_ref (c : ExpressionActionsChain) : outcome StepRef :=
  match steps c with
  | [] => Undefined
  | _ :: _ => Returns (length (steps c) - 1)
  end.

(** [getLastStep()]: the chain after the call and the reference returned. *)
Definition getLastStep (c : ExpressionActionsChain)
  : outcome (ExpressionActionsChain * StepRef) :=
  if vector_empty (steps c) then Throws EmptyChain
  else r ← back_ref c; Returns (c, r).

(** [lastStep(const NamesAndTypesList & columns)]: the store, the chain and
    the reference returned. *)
Definition lastStep (columns : NamesAndTypesList) (σ : Store) (c : ExpressionActionsChain)
  : outcome (Store * ExpressionActionsChain * StepRef) :=
  if vector_empty (steps c) then
    d ← ActionsDAG_from_inputs columns;
    let '(σ', p) := make_shared d σ in
    let c' := {| context := context c;
                 steps := steps c ++ [ExpressionActionsStep_new p] |} in
    r ← back_ref c';
    Returns (σ', c', r)
  else
    r ← back_ref c;
    Returns (σ, c, r).

(** ** ExpressionActions *)

Record Argument : Set := mkArgument {
  pos : nat;             (* Position in ExecutionContext::columns *)
  needed_later : bool }. (* Otherwise the column is removed after the action. *)

Record Action : Set := mkAction {
  node : NodePtr;
  arguments : list Argument;
  result_position : nat }.

Abbreviation Actions := (list Action) (only parsing).
Abbreviation ColumnNumbers := (list nat) (only parsing).

(** The members of the class.  Modelled from the spec: the header has no member
    for the slots of the nodes that get no [Action]; §4.3 (2) says "each node
    is assigned a [result_position]" and execute starts by "placing INPUTs at
    their assigned slots", so [initial_positions] keeps the slot of every
    INPUT and COLUMN node. *)
Record ExpressionActions : Type := mkExpressionActions {
  ea_dag : ActionsDAG;
  actions : Actions;
  num_columns : nat;
  required_columns : NamesAndTypesList;
  result_positions : ColumnNumbers;
  sample_block : Block;
  initial_positions : list (NodePtr * nat) }.

Definition getActions (ea : ExpressionActions) : Actions := actions ea.
Definition getRequiredColumnsWithTypes (ea : ExpressionActions) : NamesAndTypesList :=
  required_columns ea.
Definition getSampleBlock (ea : ExpressionActions) : Block := sample_block ea.

(** Modelled from the spec: [ExpressionActions::getRequiredColumns] is declared
    in the header and defined elsewhere; it is the "list of input columns",
    the names of [required_columns]. *)
Definition getRequiredColumns (ea : ExpressionActions) : Names :=
  nt_name <$> required_columns ea.

(** Modelled from the spec: the working state of one call of execute. *)
Record ExecutionContext : Set := mkExecutionContext {
  inputs : Block;
  columns : ColumnsWithTypeAndName;
  num_rows : nat }.

(** Modelled from the spec: a slot of the working array that holds no column. *)
Definition empty_slot : ColumnWithTypeAndName :=
  {| cwtn_column := None; cwtn_type := None; cwtn_name := EmptyString |}.

(** Modelled from the spec: a slot is live when it holds a column (§8: "the number of live
    columns"). *)
Definition is_live (c : ColumnWithTypeAndName) : bool :=
  match cwtn_column c with
  | Some _ => true
  | None => false
  end.

(** Modelled from the spec: a live slot whose column is not constant. *)
Definition is_non_const (c : ColumnWithTypeAndName) : bool :=
  match cwtn_column c with
  | Some col => negb (isColumnConst col)
  | None => false
  end.

(** Modelled from the spec: the number of live columns of the working array, and
    of those that are not constant. *)
Definition live_columns (cs : ColumnsWithTypeAndName) : nat :=
  length (filter (fun c => is_live c = true) cs).

(** Modelled from the spec: the number of live columns that are not constant. *)
Definition non_const_columns (cs : ColumnsWithTypeAndName) : nat :=
  length (filter (fun c => is_non_const c = true) cs).

(** Modelled from the spec: the LogicalError of §7, "invariant violated". *)
Definition logical_error (what : string) : Exception := mkException what LOGICAL_ERROR.

(** Modelled from the spec: the exceptions of the error kinds of §7 that execute
    raises. *)
Definition TooManyTemporaryColumns : Exception :=
  mkException "Too many temporary columns" TOO_MANY_TEMPORARY_COLUMNS.
Definition TooManyTemporaryNonConstColumns : Exception :=
  mkException "Too many temporary non-const columns" TOO_MANY_TEMPORARY_NON_CONST_COLUMNS.
Definition ArrayJoinTypeMismatch : Exception :=
  mkException "ARRAY JOIN of not array" ARRAY_JOIN_TYPE_MISMATCH.

(** Modelled from the spec: [ExpressionActions::checkLimits] is declared in the
    header and defined elsewhere.  §4.3: "TooManyTemporaryColumns /
    TooManyTemporaryNonConstColumns"; §3: the two limits of the settings; a
    limit of 0 is not set. *)
Definition checkLimits (max max_non_const : nat) (cs : ColumnsWithTypeAndName)
  : outcome unit :=
  if decide (max ≠ 0 ∧ max < live_columns cs) then Throws TooManyTemporaryColumns
  else if decide (max_non_const ≠ 0 ∧ max_non_const < non_const_columns cs)
       then Throws TooManyTemporaryNonConstColumns
       else Returns ().

(** Modelled from the spec: [Block] (Core/) is not part of the header; a column of a
    block is found by its name. *)
Definition findByName (name : string) (block : Block) : option ColumnWithTypeAndName :=
  List.find (fun c => bool_decide (cwtn_name c = name)) block.

(** Modelled from the spec: a block carries a required column: it has a column
    of that name, with that type and with data. *)
Definition carries (block : Block) (nt : NameAndTypePair) : bool :=
  match findByName (nt_name nt) block with
  | Some c => bool_decide (cwtn_type c = nt_type nt) && is_live c
  | None => false
  end.

(** Modelled from the spec: the schema of a block (§4.3: "names + types"), in order. *)
Definition schema (block : Block) : list (string * DataTypePtr) :=
  (fun c => (cwtn_name c, cwtn_type c)) <$> block.

(** Modelled from the spec: writing a slot of the working array; a slot that is not in
    the array is a broken invariant of the plan (§7, LogicalError). *)
Definition write_slot (p : nat) (c : ColumnWithTypeAndName) (cs : ColumnsWithTypeAndName)
  : outcome ColumnsWithTypeAndName :=
  if decide (p < length cs) then Returns (<[p := c]> cs)
  else Throws (logical_error "Slot out of range").

(** Modelled from the spec: reading the column of a slot; an empty slot, or one that is
    not in the array, is a broken invariant of the plan (§7, LogicalError). *)
Definition read_slot (p : nat) (cs : ColumnsWithTypeAndName)
  : outcome (ColumnWithTypeAndName * Column) :=
  match cs !! p with
  | Some c =>
      match cwtn_column c with
      | Some col => Returns (c, col)
      | None => Throws (logical_error "Argument is not computed")
      end
  | None => Throws (logical_error "Slot out of range")
  end.

(** Modelled from the spec: "a view of the argument slots" (§4.3), in order. *)
Fixpoint read_arguments (args : list Argument) (cs : ColumnsWithTypeAndName)
  : outcome (list (ColumnWithTypeAndName * Column)) :=
  match args with
  | [] => Returns []
  | a :: rest =>
      c ← read_slot (pos a) cs;
      r ← read_arguments rest cs;
      Returns (c :: r)
  end.

(** Modelled from the spec: "free slots whose children are [!needed_later]" *)
Definition free_arguments (args : list Argument) (cs : ColumnsWithTypeAndName)
  : ColumnsWithTypeAndName :=
  foldl (fun cs a => if needed_later a then cs else <[pos a := empty_slot]> cs) cs args.

(** Modelled from the spec: the value that fills the "placeholder column of the right
    type" of a dry run. *)
Definition default_value (ty : DataTypePtr) : Value :=
  match ty with
  | Some DataTypeString => VString EmptyString
  | Some (DataTypeArray _) => VArray []
  | _ => VInt 0
  end.

(** Modelled from the spec: the elements of an array value. *)
Definition array_elements (v : Value) : list Value :=
  match v with VArray xs => xs | _ => [] end.

(** Modelled from the spec: the values of a column, row by row (Glossary: a constant
    column is "one value, logical length N"). *)
Definition column_values (c : Column) : list Value :=
  match c with
  | ColumnFull vs => vs
  | ColumnConst v n => replicate n v
  end.

(** Modelled from the spec: a constant column of a COLUMN node is given the
    length of the block. *)
Definition resize (c : Column) (n : nat) : Column :=
  match c with
  | ColumnConst v _ => ColumnConst v n
  | ColumnFull vs => ColumnFull vs
  end.

(** Modelled from the spec: row [i] of a column is repeated [lens !! i] times. *)
Definition replicate_rows (lens : list nat) (c : Column) : Column :=
  match c with
  | ColumnFull vs => ColumnFull (concat (zip_with replicate lens vs))
  | ColumnConst v _ => ColumnConst v (sum_list lens)
  end.

(** Modelled from the spec: a slot with the rows of its column repeated. *)
Definition replicate_slot (lens : list nat) (c : ColumnWithTypeAndName)
  : ColumnWithTypeAndName :=
  {| cwtn_column := replicate_rows lens <$> cwtn_column c;
     cwtn_type := cwtn_type c;
     cwtn_name := cwtn_name c |}.

(** Modelled from the spec: the slot of a node: its column, with the type and the name of
    the node (§3). *)
Definition result_slot (n : Node) (col : Column) : ColumnWithTypeAndName :=
  {| cwtn_column := Some col; cwtn_type := result_type n; cwtn_name := result_name n |}.

(** Modelled from the spec: the execution of one [Action] is defined outside the
    header.  §4.3: "ALIAS: copy the child slot's column reference to
    [result_position]"; "ARRAY_JOIN: replicate rows per array lengths in the
    child column; overwrite [num_rows]; all other live slots in the working
    array are replicated in lockstep.  Fails with ArrayJoinTypeMismatch if the
    child is not array-typed"; "FUNCTION: if [dry_run], produce a placeholder
    column of the right type; else invoke [executable] on a view of the
    argument slots"; "After each Action, free slots whose children are
    [!needed_later]".  A broken invariant of the plan is a LogicalError
    (§7). *)
Definition computeAction (n : Node) (dry_run : bool)
    (args : list (ColumnWithTypeAndName * Column)) (ctx : ExecutionContext)
  : outcome (ColumnsWithTypeAndName * Column * nat) :=
  match type n, args with
  | ALIAS, [(_, col)] => Returns (columns ctx, col, num_rows ctx)
  | ARRAY_JOIN, [(c, col)] =>
      match cwtn_type c with
      | Some (DataTypeArray _) =>
          let arrays := array_elements <$> column_values col in
          let lens := length <$> arrays in
          Returns (replicate_slot lens <$> columns ctx,
                   ColumnFull (concat arrays), sum_list lens)
      | _ => Throws ArrayJoinTypeMismatch
      end
  | FUNCTION, _ =>
      match function n with
      | Some f =>
          Returns (columns ctx,
                   if dry_run
                   then ColumnConst (default_value (result_type n)) (num_rows ctx)
                   else fn_execute f (snd <$> args) (num_rows ctx),
                   num_rows ctx)
      | None => Throws (logical_error "Function is not prepared")
      end
  | _, _ => Throws (logical_error "Unexpected action")
  end.

(** Modelled from the spec: one action: read the arguments, compute the column
    of the node, put it at [result_position], free the arguments that are not
    needed later. *)
Definition executeAction (dag : ActionsDAG) (dry_run : bool) (a : Action)
    (ctx : ExecutionContext) : outcome ExecutionContext :=
  match nodes dag !! node a with
  | None => Undefined
  | Some n =>
      args ← read_arguments (arguments a) (columns ctx);
      r ← computeAction n dry_run args ctx;
      cs' ← write_slot (result_position a) (result_slot n r.1.2) r.1.1;
      Returns {| inputs := inputs ctx;
                 columns := free_arguments (arguments a) cs';
                 num_rows := r.2 |}
  end.

(** Modelled from the spec: the loop of execute.  §4.3: "For each Action in
    order", and "[checkLimits(current_columns)] after every Action". *)
Fixpoint executeActions (dag : ActionsDAG) (max max_non_const : nat) (dry_run : bool)
    (acts : list Action) (ctx : ExecutionContext) : outcome ExecutionContext :=
  match acts with
  | [] => Returns ctx
  | a :: rest =>
      ctx' ← executeAction dag dry_run a ctx;
      _ ← checkLimits max max_non_const (columns ctx');
      executeActions dag max max_non_const dry_run rest ctx'
  end.

(** Modelled from the spec: the states of the working array after each action,
    as far as the loop gets: the last one is the final state, or the state whose
    check fails. *)
Fixpoint visited (dag : ActionsDAG) (max max_non_const : nat) (dry_run : bool)
    (acts : list Action) (ctx : ExecutionContext) : list ExecutionContext :=
  match acts with
  | [] => []
  | a :: rest =>
      match executeAction dag dry_run a ctx with
      | Returns ctx' =>
          ctx' :: match checkLimits max max_non_const (columns ctx') with
                  | Returns _ => visited dag max max_non_const dry_run rest ctx'
                  | _ => []
                  end
      | _ => []
      end
  end.

(** Modelled from the spec: §4.3, "Allocate a working array of length
    [num_columns], placing INPUTs at their assigned slots".  A COLUMN node has
    no Action either, and its column is put in its slot here. *)
Definition place (dag : ActionsDAG) (block : Block) (rows : nat)
    (cs : ColumnsWithTypeAndName) (p : NodePtr * nat) : outcome ColumnsWithTypeAndName :=
  match nodes dag !! p.1 with
  | None => Undefined
  | Some n =>
      match type n with
      | INPUT =>
          match findByName (result_name n) block with
          | Some c => write_slot p.2 c cs
          | None => Throws (logical_error "Input is not in the block")
          end
      | COLUMN =>
          match column n with
          | Some col => write_slot p.2 (result_slot n (resize col rows)) cs
          | None => Throws (logical_error "Constant without a column")
          end
      | _ => Throws (logical_error "Node needs an action")
      end
  end.

(** Modelled from the spec: all the INPUT and COLUMN nodes are placed, in order. *)
Fixpoint place_all (dag : ActionsDAG) (block : Block) (rows : nat)
    (ps : list (NodePtr * nat)) (cs : ColumnsWithTypeAndName)
  : outcome ColumnsWithTypeAndName :=
  match ps with
  | [] => Returns cs
  | p :: rest =>
      cs' ← place dag block rows cs p;
      place_all dag block rows rest cs'
  end.

(** Modelled from the spec: "Rebuild [block] from [result_positions] in Index order." *)
Fixpoint rebuild (ps : ColumnNumbers) (cs : ColumnsWithTypeAndName) : outcome Block :=
  match ps with
  | [] => Returns []
  | p :: rest =>
      c ← read_slot p cs;
      r ← rebuild rest cs;
      Returns (c.1 :: r)
  end.

(** Modelled from the spec: "If [project_input] is set, drop unreferenced
    columns from [block]." *)
Definition dropUnreferenced (ea : ExpressionActions) (block : Block) : Block :=
  if project_input (getSettings (ea_dag ea))
  then filter (fun c => cwtn_name c ∈ getRequiredColumns ea) block
  else block.

(** Modelled from the spec: the plan run on a block under the given limits:
    allocate, run the actions, rebuild. *)
Definition run (ea : ExpressionActions) (max max_non_const : nat)
    (block : Block) (rows : nat) (dry_run : bool) : outcome (Block * nat) :=
  let block := dropUnreferenced ea block in
  cs ← place_all (ea_dag ea) block rows (initial_positions ea)
       (replicate (num_columns ea) empty_slot);
  ctx ← executeActions (ea_dag ea) max max_non_const dry_run (actions ea)
        {| inputs := block; columns := cs; num_rows := rows |};
  res ← rebuild (result_positions ea) (columns ctx);
  Returns (res, num_rows ctx).

(** Modelled from the spec: [ExpressionActions::execute(Block &, size_t &, bool)]
    is declared in the header and defined elsewhere.  §4.3: "Validate that
    [block] carries every [required_columns] entry by name and type", then the
    plan is run under the limits of the settings; §7 names TypeMismatch for
    the "execute-time block type mismatch". *)
Definition execute (ea : ExpressionActions) (block : Block) (rows : nat) (dry_run : bool)
  : outcome (Block * nat) :=
  if forallb (carries block) (required_columns ea) then
    run ea (max_temporary_columns (getSettings (ea_dag ea)))
           (max_temporary_non_const_columns (getSettings (ea_dag ea)))
           block rows dry_run
  else Throws (mkException "Block does not carry a required column" TYPE_MISMATCH).

(** Modelled from the spec: the number of rows of a column. *)
Definition column_size (c : Column) : nat := length (column_values c).

(** Modelled from the spec: [Block::rows] (Core/) is not part of the header.
    §4.3: the wrapper "derives [num_rows] from the block (using the smallest
    column"; a block without a column has no rows. *)
Definition Block_rows (block : Block) : nat :=
  match omap (fun c => column_size <$> cwtn_column c) block with
  | [] => 0
  | n :: ns => foldr Nat.min n ns
  end.

(** Modelled from the spec: the [_dummy] column, §9: "a single sentinel column
    whose sole purpose is carrying the row count".  The spec gives its name
    and its purpose; its type and its value are parameters. *)
Definition dummy_column (dummy_type : DataTypePtr) (dummy_value : Value) (rows : nat)
  : ColumnWithTypeAndName :=
  {| cwtn_column := Some (ColumnConst dummy_value rows);
     cwtn_type := dummy_type;
     cwtn_name := "_dummy" |}.

(** Modelled from the spec: [ExpressionActions::execute(Block &, bool)] is
    declared in the header and defined elsewhere.  The header: "The same, but
    without [num_rows].  If result block is empty, adds [_dummy] column to
    keep block size"; §4.3: the "wrapper that derives [num_rows] from the
    block". *)
Definition execute_block (dummy_type : DataTypePtr) (dummy_value : Value)
    (ea : ExpressionActions) (block : Block) (dry_run : bool) : outcome Block :=
  r ← execute ea block (Block_rows block) dry_run;
  Returns (if vector_empty r.1 then [dummy_column dummy_type dummy_value r.2] else r.1).

(** Modelled from the spec: the states after each action of a call of execute. *)
Definition execute_visited (ea : ExpressionActions) (block : Block) (rows : nat)
    (dry_run : bool) : list ExecutionContext :=
  if forallb (carries block) (required_columns ea) then
    let block := dropUnreferenced ea block in
    match place_all (ea_dag ea) block rows (initial_positions ea)
            (replicate (num_columns ea) empty_slot) with
    | Returns cs =>
        visited (ea_dag ea) (max_temporary_columns (getSettings (ea_dag ea)))
                (max_temporary_non_const_columns (getSettings (ea_dag ea)))
                dry_run (actions ea)
                {| inputs := block; columns := cs; num_rows := rows |}
    | _ => []
    end
  else [].

(** Modelled from the spec: the block of the required columns with no rows. *)
Definition header (cols : NamesAndTypesList) : Block :=
  (fun nt => {| cwtn_column := Some (ColumnFull []);
                cwtn_type := nt_type nt; cwtn_name := nt_name nt |}) <$> cols.

(** Modelled from the spec: §4.3 (5), "Build a [sample_block]: execute the plan
    on an empty block to compute the output schema (names + types)".  The
    limits are bounds "enforced per-execute" (§5) and are not in force
    here. *)
Definition buildSampleBlock (ea : ExpressionActions) : outcome Block :=
  r ← run ea 0 0 (header (required_columns ea)) 0 true;
  Returns r.1.

(** Modelled from the spec: the DAG was wrapped in [ea]: the sample block of
    [ea] is the one built from its plan. *)
Definition wrapped (ea : ExpressionActions) : Prop :=
  buildSampleBlock ea = Returns (sample_block ea).

(** ** Nodes and sequences of calls used below *)

Definition input_node (name : string) (ty : DataTypePtr) : Node :=
  {| children := []; type := INPUT; result_name := name; result_type := ty;
     function_builder := None; function_base := None; function := None;
     is_function_compiled := false; column := None;
     allow_constant_folding := true |}.

Definition alias_node (child : NodePtr) (c : Node) (alias : string) : Node :=
  {| children := [child]; type := ALIAS; result_name := alias;
     result_type := result_type c; function_builder := None;
     function_base := None; function := None;
     is_function_compiled := false; column := column c;
     allow_constant_folding := allow_constant_folding c |}.

Definition input_of (nt : NameAndTypePair) : Node := input_node (nt_name nt) (nt_type nt).

(** The sequence of calls [insert(n1); insert(n2); ...]. *)
Fixpoint Index_insert_all (arena : Nodes) (ns : list NodePtr) (i : Index.t)
  : outcome Index.t :=
  match ns with
  | [] => Returns i
  | node :: rest => i' ← Index.insert arena node i; Index_insert_all arena rest i'
  end.

(** A call of one of the methods of [Index] that change it. *)
Inductive IndexCall : Set :=
| IndexInsert (node : NodePtr)
| IndexReplace (node : NodePtr)
| IndexRemove (node : NodePtr).

Definition Index_call (arena : Nodes) (c : IndexCall) (i : Index.t) : outcome Index.t :=
  match c with
  | IndexInsert node => Index.insert arena node i
  | IndexReplace node => Index.replace arena node i
  | IndexRemove node => Index.remove arena node i
  end.

(** A sequence of such calls, one after the other. *)
Fixpoint Index_calls (arena : Nodes) (cs : list IndexCall) (i : Index.t)
  : outcome Index.t :=
  match cs with
  | [] => Returns i
  | c :: rest => i' ← Index_call arena c i; Index_calls arena rest i'
  end.

(** Modelled from the spec: the index over the given nodes, in order; of two
    nodes of one name the map keeps the later. *)
Definition Index_of (arena : Nodes) (ps : list NodePtr) : Index.t :=
  {| Index.idx_list := ps;
     Index.idx_map :=
       foldl (fun m ip => match arena !! ip.2 with
                          | Some n => <[result_name n := ip.1]> m
                          | None => m
                          end) ∅ (imap pair ps) |}.

(** ** What a DAG computes, node by node *)

(** Modelled from the spec: the columns that the execution of a DAG computes,
    without the slots of a plan.  §3 gives the meaning of each kind of node
    and §4.3 that of ARRAY_JOIN ("replicate rows per array lengths in the
    child column; overwrite [num_rows]; all other live slots ... are
    replicated in lockstep").  The nodes are computed in the order of the
    arena, which has every child before its parents (§8, acyclicity); an INPUT
    is read from the block by name and type (§4.3: "validate that [block]
    carries all [required_columns] by name and type"); the result is made of
    the columns of the Index, in its order.  [evaluate_linearized] below
    relates it to [execute] on the plans of the DAG. *)
Record EvalState : Set := mkEvalState {
  ev_block : Block;
  ev_env : ColumnsWithTypeAndName;
  ev_rows : nat }.

(** Modelled from the spec: the columns of the children of a node, in order; a
    child without a column is a broken invariant (§7, LogicalError). *)
Fixpoint lookup_all (lk : NodePtr -> option ColumnWithTypeAndName) (ps : list NodePtr)
  : outcome (list (ColumnWithTypeAndName * Column)) :=
  match ps with
  | [] => Returns []
  | p :: rest =>
      match lk p with
      | Some c =>
          match cwtn_column c with
          | Some col => r ← lookup_all lk rest; Returns ((c, col) :: r)
          | None => Throws (logical_error "Argument is not computed")
          end
      | None => Throws (logical_error "Argument is not computed")
      end
  end.

(** Modelled from the spec: for each row of an array column, the length of its
    array. *)
Definition array_lengths (col : Column) : list nat :=
  (fun v => length (array_elements v)) <$> column_values col.

(** Modelled from the spec: the column of the elements of the arrays of a
    column, row after row ("the array unfolded", Glossary). *)
Definition unfold_arrays (col : Column) : Column :=
  ColumnFull (concat (array_elements <$> column_values col)).

(** Modelled from the spec: the exception of [execute] for a block that does
    not carry a required column. *)
Definition BlockTypeMismatch : Exception :=
  mkException "Block does not carry a required column" TYPE_MISMATCH.

(** Modelled from the spec: the column of a node, and for ARRAY_JOIN the number
    of times each row is to be repeated. *)
Definition node_result (n : Node) (block : Block)
    (lk : NodePtr -> option ColumnWithTypeAndName) (rows : nat)
  : outcome (ColumnWithTypeAndName * option (list nat)) :=
  match type n with
  | INPUT =>
      if carries block (mkNameAndTypePair (result_name n) (result_type n))
      then match findByName (result_name n) block with
           | Some c => Returns (c, None)
           | None => Throws BlockTypeMismatch
           end
      else Throws BlockTypeMismatch
  | COLUMN =>
      match column n with
      | Some col => Returns (result_slot n (resize col rows), None)
      | None => Throws (logical_error "Constant without a column")
      end
  | ALIAS =>
      args ← lookup_all lk (children n);
      match args with
      | [(_, col)] => Returns (result_slot n col, None)
      | _ => Throws (logical_error "Unexpected action")
      end
  | FUNCTION =>
      args ← lookup_all lk (children n);
      match function n with
      | Some f => Returns (result_slot n (fn_execute f (snd <$> args) rows), None)
      | None => Throws (logical_error "Function is not prepared")
      end
  | ARRAY_JOIN =>
      args ← lookup_all lk (children n);
      match args with
      | [(c, col)] =>
          match cwtn_type c with
          | Some (DataTypeArray _) =>
              Returns (result_slot n (unfold_arrays col), Some (array_lengths col))
          | _ => Throws ArrayJoinTypeMismatch
          end
      | _ => Throws (logical_error "Unexpected action")
      end
  end.

(** Modelled from the spec: the state after a node: its column is added, after
    the rows of the block and of the columns computed so far were repeated for
    an ARRAY_JOIN. *)
Definition advance (r : ColumnWithTypeAndName * option (list nat)) (st : EvalState)
  : EvalState :=
  match r.2 with
  | None =>
      {| ev_block := ev_block st; ev_env := ev_env st ++ [r.1]; ev_rows := ev_rows st |}
  | Some lens =>
      {| ev_block := replicate_slot lens <$> ev_block st;
         ev_env := (replicate_slot lens <$> ev_env st) ++ [r.1];
         ev_rows := sum_list lens |}
  end.

(** Modelled from the spec: one node is computed. *)
Definition eval_node (n : Node) (st : EvalState) : outcome EvalState :=
  r ← node_result n (ev_block st) (fun p => ev_env st !! p) (ev_rows st);
  Returns (advance r st).

(** Modelled from the spec: the nodes are computed one after the other. *)
Fixpoint eval_nodes (ns : list Node) (st : EvalState) : outcome EvalState :=
  match ns with
  | [] => Returns st
  | n :: rest => st' ← eval_node n st; eval_nodes rest st'
  end.

(** Modelled from the spec: the columns of the nodes of the Index, in its order
    (§3: the Index "defines the DAG's output interface ... and their
    order"). *)
Fixpoint result_columns_of (env : ColumnsWithTypeAndName) (ps : list NodePtr)
  : outcome Block :=
  match ps with
  | [] => Returns []
  | p :: rest =>
      match env !! p with
      | Some c => r ← result_columns_of env rest; Returns (c :: r)
      | None => Throws (logical_error "Result is not computed")
      end
  end.

(** Modelled from the spec: the result: its columns and the number of rows. *)
Definition finish (ps : list NodePtr) (st : EvalState) : outcome (Block * nat) :=
  res ← result_columns_of (ev_env st) ps;
  Returns (res, ev_rows st).

(** Modelled from the spec: what a DAG computes on a block of a number of
    rows. *)
Definition evaluate (d : ActionsDAG) (input : Block * nat) : outcome (Block * nat) :=
  st ← eval_nodes (nodes d) {| ev_block := input.1; ev_env := []; ev_rows := input.2 |};
  finish (Index.idx_list (index d)) st.

(** ** The plan of a DAG *)

(** Modelled from the spec: a node with an Action (§4.3 (3): "For each
    FUNCTION/ALIAS/ARRAY_JOIN node, record an Action"). *)
Definition is_action (n : Node) : bool :=
  match type n with
  | ALIAS | ARRAY_JOIN | FUNCTION => true
  | INPUT | COLUMN => false
  end.

(** Modelled from the spec: the node at [c] is still needed when the nodes from
    [t] on are to be computed: it "has at least one later consumer or is in
    the final Index" (§4.3 (3)). *)
Definition needed_from (d : ActionsDAG) (t : nat) (c : NodePtr) : bool :=
  bool_decide (c ∈ Index.idx_list (index d))
  || existsb (fun qn => bool_decide (t <= qn.1) && bool_decide (c ∈ children qn.2))
             (imap pair (nodes d)).

(** Modelled from the spec: what [f] gives for the nodes of an arena, in the
    order of the arena; [p] is the address of the first node. *)
Fixpoint collect {A : Type} (f : NodePtr -> Node -> option A) (p : NodePtr) (ns : list Node)
  : list A :=
  match ns with
  | [] => []
  | n :: rest =>
      match f p n with
      | Some a => a :: collect f (S p) rest
      | None => collect f (S p) rest
      end
  end.

(** Modelled from the spec: the slot that an assignment of slots gives to a
    node. *)
Definition slot (slots : list nat) (p : NodePtr) : nat := default 0 (slots !! p).

(** Modelled from the spec: §4.3 (3), the Action of a node: "the node pointer,
    an ordered list of [Argument{pos, needed_later}] (one per child), and a
    [result_position]". *)
Definition action_of (slots : list nat) (d : ActionsDAG) (p : NodePtr) (n : Node)
  : option Action :=
  if is_action n then
    Some {| node := p;
            arguments := (fun c => mkArgument (slot slots c) (needed_from d (S p) c))
                           <$> children n;
            result_position := slot slots p |}
  else None.

(** Modelled from the spec: the slot of a node without an Action. *)
Definition initial_of (slots : list nat) (p : NodePtr) (n : Node) : option (NodePtr * nat) :=
  if is_action n then None else Some (p, slot slots p).

(** Modelled from the spec: §4.3 (4), "[required_columns] (from INPUT nodes)". *)
Definition required_of (n : Node) : option NameAndTypePair :=
  match type n with
  | INPUT => Some (mkNameAndTypePair (result_name n) (result_type n))
  | _ => None
  end.

(** Modelled from the spec: [ExpressionActions::linearizeActions] and the
    constructor are declared in the header and defined elsewhere.  §4.3: the
    nodes are taken in a topological order, which the order of the arena is;
    "each node is assigned a [result_position]"; an Action is recorded for
    each node that has one; [required_columns] come from the INPUT nodes and
    [result_positions] from the Index; [num_columns] is the high-water mark of
    the slots.  The assignment of the slots is a parameter: the spec reuses a
    slot "when a node's last consumer has executed", and [slots_ok] below
    admits every assignment that reuses slots in this way only. *)
Definition linearized (slots : list nat) (d : ActionsDAG) (sample : Block)
  : ExpressionActions :=
  {| ea_dag := d;
     actions := collect (action_of slots d) 0 (nodes d);
     num_columns := S (max_list slots);
     required_columns := omap required_of (nodes d);
     result_positions := slot slots <$> Index.idx_list (index d);
     sample_block := sample;
     initial_positions := collect (initial_of slots) 0 (nodes d) |}.

(** Modelled from the spec: §4.3 (5), the sample block is built by executing
    the plan on an empty block. *)
Definition linearizeActions (slots : list nat) (d : ActionsDAG) : ExpressionActions :=
  linearized slots d
    (match buildSampleBlock (linearized slots d []) with
     | Returns sample => sample
     | _ => []
     end).

(** Modelled from the spec: the node at [q] has its column in a slot when the
    Action of the node at [p] runs: it has no Action and was placed before the
    first Action, or it is an earlier node. *)
Definition occupies (n : Node) (q p : NodePtr) : bool :=
  negb (is_action n) || bool_decide (q < p).

(** Modelled from the spec: an assignment of slots that the allocation of
    §4.3 (2) can give ("reused when a node's last consumer has executed"):
    every node has a slot; the nodes without an Action have slots of their
    own; the slot that an Action writes, and the slots that it frees, hold no
    other node that is still needed after it. *)
Definition slots_ok (slots : list nat) (d : ActionsDAG) : bool :=
  bool_decide (length slots = length (nodes d))
  && forallb (fun pn =>
       if is_action pn.2 then
         forallb (fun qm =>
             implb (negb (bool_decide (qm.1 = pn.1))
                    && occupies qm.2 qm.1 pn.1 && needed_from d (S pn.1) qm.1)
                   (negb (bool_decide (slot slots qm.1 = slot slots pn.1))))
           (imap pair (nodes d))
         && forallb (fun c =>
              needed_from d (S pn.1) c
              || forallb (fun qm =>
                     implb (negb (bool_decide (qm.1 = c))
                            && occupies qm.2 qm.1 (S pn.1) && needed_from d (S pn.1) qm.1)
                           (negb (bool_decide (slot slots qm.1 = slot slots c))))
                   (imap pair (nodes d)))
              (children pn.2)
       else
         forallb (fun qm =>
             implb (negb (is_action qm.2) && negb (bool_decide (qm.1 = pn.1)))
                   (negb (bool_decide (slot slots qm.1 = slot slots pn.1))))
           (imap pair (nodes d)))
     (imap pair (nodes d)).

(** ** ARRAY JOIN *)

(** Modelled from the spec: the ARRAY JOIN between the two halves
    ([ArrayJoinAction] is only named in the header).  Glossary: "for a row
    with an array column of length k, emits k rows with the array unfolded and
    all other columns replicated"; §6: it "specifies which columns to unfold".
    The columns to unfold must be arrays of the same lengths, row by row. *)
Definition element_type (ty : DataTypePtr) : DataTypePtr :=
  match ty with
  | Some (DataTypeArray t) => Some t
  | t => t
  end.

(** Modelled from the spec: a column with "the array unfolded". *)
Definition unfold_slot (c : ColumnWithTypeAndName) : ColumnWithTypeAndName :=
  {| cwtn_column := unfold_arrays <$> cwtn_column c;
     cwtn_type := element_type (cwtn_type c);
     cwtn_name := cwtn_name c |}.

(** Modelled from the spec: a column to unfold holds arrays of the given lengths. *)
Definition joinable (lens : list nat) (c : ColumnWithTypeAndName) : bool :=
  match cwtn_column c, cwtn_type c with
  | Some col, Some (DataTypeArray _) => bool_decide (array_lengths col = lens)
  | _, _ => false
  end.

(** Modelled from the spec: the number of times each row is repeated: the
    lengths of the arrays of the columns to unfold; [None] when the block has no
    such column. *)
Definition join_lengths (joined : gset string) (block : Block)
  : outcome (option (list nat)) :=
  match filter (fun c => cwtn_name c ∈ joined) block with
  | [] => Returns None
  | c :: rest =>
      match cwtn_column c with
      | Some col =>
          if forallb (joinable (array_lengths col)) (c :: rest)
          then Returns (Some (array_lengths col))
          else Throws ArrayJoinTypeMismatch
      | None => Throws ArrayJoinTypeMismatch
      end
  end.

(** Modelled from the spec: the columns to unfold are unfolded, "all other columns
    replicated" (Glossary). *)
Definition join_slot (joined : gset string) (lens : option (list nat))
    (c : ColumnWithTypeAndName) : ColumnWithTypeAndName :=
  match lens with
  | None => c
  | Some l => if decide (cwtn_name c ∈ joined) then unfold_slot c else replicate_slot l c
  end.

(** Modelled from the spec: the number of rows after the ARRAY JOIN. *)
Definition join_rows (lens : option (list nat)) (rows : nat) : nat :=
  match lens with
  | None => rows
  | Some l => sum_list l
  end.

(** Modelled from the spec: the ARRAY JOIN on a block of a number of rows. *)
Definition arrayJoin (joined : gset string) (input : Block * nat) : outcome (Block * nat) :=
  lens ← join_lengths joined input.1;
  Returns (join_slot joined lens <$> input.1, join_rows lens input.2).

(** ** Splitting a DAG around ARRAY JOIN *)

(** Modelled from the spec: [ActionsDAG::splitActionsBeforeArrayJoin] is
    declared in the header and defined elsewhere.  §4.2: it "returns a new DAG
    containing all computations that do not depend (transitively) on any node
    in [array_joined_columns], leaving the remainder in [self]"; "functions
    marked row-sensitive stay on the post-array-join side", and so does
    ARRAY_JOIN, the kind that changes the number of rows; "Returns null if
    nothing may be pulled out".  §8 (5): the new DAG produces what the
    remainder reads "alongside" the array-joined inputs, and the remainder
    "computes only" what depends on them. *)
Definition row_sensitive (n : Node) : bool :=
  match function_base n with
  | Some b => fn_row_sensitive b
  | None => false
  end.

(** Modelled from the spec: a node depends on the array-joined set when it is
    one of its columns, when it is an ARRAY_JOIN or a function marked
    row-sensitive, or when one of its children depends on it. *)
Definition node_depends (joined : gset string) (deps : list bool) (n : Node) : bool :=
  bool_decide (result_name n ∈ joined)
  || bool_decide (type n = ARRAY_JOIN)
  || (bool_decide (type n = FUNCTION) && row_sensitive n)
  || existsb (fun c => default true (deps !! c)) (children n).

(** Modelled from the spec: the nodes are visited in the order of the arena,
    children first. *)
Fixpoint depends_from (joined : gset string) (deps : list bool) (ns : list Node)
  : list bool :=
  match ns with
  | [] => deps
  | n :: rest => depends_from joined (deps ++ [node_depends joined deps n]) rest
  end.

(** Modelled from the spec: for each node of the arena: does it depend on the
    array-joined set? *)
Definition depends (joined : gset string) (d : ActionsDAG) : list bool :=
  depends_from joined [] (nodes d).

(** Modelled from the spec: does the node at [p] depend on the array-joined set? *)
Definition depends_at (deps : list bool) (p : NodePtr) : bool := default true (deps !! p).

(** Modelled from the spec: an INPUT that is one of the array-joined columns. *)
Definition is_joined_input (joined : gset string) (n : Node) : bool :=
  bool_decide (type n = INPUT) && bool_decide (result_name n ∈ joined).

(** Modelled from the spec: a node that does not depend on the set and is read
    after the ARRAY JOIN: it is a column of the result, or a child of a node
    that depends. *)
Definition needed (d : ActionsDAG) (deps : list bool) (p : NodePtr) : bool :=
  negb (depends_at deps p)
  && (bool_decide (p ∈ Index.idx_list (index d))
      || existsb (fun bn => bn.1 && bool_decide (p ∈ children bn.2)) (zip deps (nodes d))).

(** Modelled from the spec: the nodes of the returned DAG: those that do not
    depend on the set, and the array-joined inputs, which it passes on (§8
    (5): it produces what is computed "alongside [arr]"). *)
Definition in_pre (joined : gset string) (d : ActionsDAG) (deps : list bool) (p : NodePtr)
  : bool :=
  match nodes d !! p with
  | Some n => negb (depends_at deps p) || is_joined_input joined n
  | None => false
  end.

(** Modelled from the spec: the nodes of the remaining DAG: those that depend
    on the set, and an INPUT for each node that is read after the ARRAY
    JOIN. *)
Definition in_post (d : ActionsDAG) (deps : list bool) (p : NodePtr) : bool :=
  bool_decide (p < length (nodes d)) && (depends_at deps p || needed d deps p).

(** Modelled from the spec: the address, in the arena of the selected nodes, of
    the copy of the node at [p]. *)
Definition rank (sel : NodePtr -> bool) (p : NodePtr) : NodePtr :=
  length (filter (fun q => sel q = true) (seq 0 p)).

(** Modelled from the spec: a copy of a node with other children. *)
Definition with_children (n : Node) (cs : list NodePtr) : Node :=
  {| children := cs; type := type n; result_name := result_name n;
     result_type := result_type n; function_builder := function_builder n;
     function_base := function_base n; function := function n;
     is_function_compiled := is_function_compiled n; column := column n;
     allow_constant_folding := allow_constant_folding n |}.

(** Modelled from the spec: the copy of a node in the arena of the selected nodes. *)
Definition remap (sel : NodePtr -> bool) (n : Node) : Node :=
  with_children n (rank sel <$> children n).

(** Modelled from the spec: the copy of a node in the returned DAG, if it has one. *)
Definition pre_node (joined : gset string) (d : ActionsDAG) (deps : list bool)
    (p : NodePtr) (n : Node) : option Node :=
  if in_pre joined d deps p then Some (remap (in_pre joined d deps) n) else None.

(** Modelled from the spec: an ARRAY_JOIN node whose child is an array-joined
    input. *)
Definition unfolds_joined_input (joined : gset string) (d : ActionsDAG) (n : Node) : bool :=
  bool_decide (type n = ARRAY_JOIN)
  && match children n with
     | [c] => match nodes d !! c with
              | Some m => is_joined_input joined m
              | None => false
              end
     | _ => false
     end.

(** Modelled from the spec: a node that gives its child another name. *)
Definition as_alias (n : Node) : Node :=
  {| children := children n; type := ALIAS; result_name := result_name n;
     result_type := result_type n; function_builder := None;
     function_base := None; function := None;
     is_function_compiled := false; column := None;
     allow_constant_folding := allow_constant_folding n |}.

(** Modelled from the spec: the copy of a node in the remaining DAG, if it has
    one.  A node that does not depend on the set and is read after the ARRAY
    JOIN is an INPUT of its name and type.  The ARRAY JOIN between the halves
    has unfolded the array-joined inputs (Glossary): such an input is an INPUT
    of the element type, and an ARRAY_JOIN node over it has nothing left to
    compute, so that the remainder "computes only" what comes after it (§8
    (5)): it is another name for the unfolded input.  Every other node that
    depends on the set is kept. *)
Definition post_node (joined : gset string) (d : ActionsDAG) (deps : list bool)
    (p : NodePtr) (n : Node) : option Node :=
  if depends_at deps p then
    if is_joined_input joined n
    then Some (input_node (result_name n) (element_type (result_type n)))
    else if unfolds_joined_input joined d n
         then Some (as_alias (remap (in_post d deps) n))
         else Some (remap (in_post d deps) n)
  else if needed d deps p then Some (input_node (result_name n) (result_type n))
  else None.

(** Modelled from the spec: the nodes whose columns the first half produces: the
    array-joined inputs and the nodes that are read after the ARRAY JOIN. *)
Definition pre_outputs (joined : gset string) (d : ActionsDAG) : list NodePtr :=
  filter (fun p => in_pre joined d (depends joined d) p = true
                   /\ (depends_at (depends joined d) p = true
                       \/ needed d (depends joined d) p = true))
         (seq 0 (length (nodes d))).

(** Modelled from the spec: the DAG that is returned; as the header has it in
    [cloneEmpty], it carries the settings. *)
Definition pre_dag (joined : gset string) (d : ActionsDAG) : ActionsDAG :=
  let deps := depends joined d in
  let arena := collect (pre_node joined d deps) 0 (nodes d) in
  {| nodes := arena;
     index := Index_of arena (rank (in_pre joined d deps) <$> pre_outputs joined d);
     settings := settings (cloneEmpty d) |}.

(** Modelled from the spec: the DAG that [self] becomes; its Index is the Index
    of the original DAG. *)
Definition post_dag (joined : gset string) (d : ActionsDAG) : ActionsDAG :=
  let deps := depends joined d in
  let arena := collect (post_node joined d deps) 0 (nodes d) in
  {| nodes := arena;
     index := Index_of arena (rank (in_post d deps) <$> Index.idx_list (index d));
     settings := settings d |}.

(** Modelled from the spec: [splitActionsBeforeArrayJoin]: the DAG returned and
    the DAG that [self] becomes, or [None] for the null pointer (and [self] is
    unchanged). *)
Definition splitActionsBeforeArrayJoin (joined : gset string) (d : ActionsDAG)
  : option (ActionsDAG * ActionsDAG) :=
  if existsb (fun bn => negb bn.1 && is_action bn.2) (zip (depends joined d) (nodes d))
  then Some (pre_dag joined d, post_dag joined d)
  else None.

(** * Vocabulary of the statements *)

(** Two slots agree on what does not depend on the data: the name, the type,
    and whether a column is there. *)
Definition slot_sim (a b : ColumnWithTypeAndName) : Prop :=
  cwtn_name a = cwtn_name b /\ cwtn_type a = cwtn_type b /\ is_live a = is_live b.

Definition slots_sim (cs1 cs2 : ColumnsWithTypeAndName) : Prop := Forall2 slot_sim cs1 cs2.

(** Whenever the run on the sample returns, the run on the data returns a
    related result. *)
Definition follows {A B} (R : A -> B -> Prop) (real : outcome A) (sample : outcome B) : Prop :=
  forall b, sample = Returns b -> exists a, real = Returns a /\ R a b.

Definition ctx_sim (c1 c2 : ExecutionContext) : Prop := slots_sim (columns c1) (columns c2).

(** What the block of the data has for every column of the sample. *)
Definition block_sim (block sample : Block) : Prop :=
  forall name h, findByName name sample = Some h ->
    exists c, findByName name block = Some c /\ slot_sim c h.

(** ** Plans and the split *)

(** The invariants of §3 that the execution relies on: the children of a
    node are earlier nodes (I1), an INPUT or COLUMN has none, a COLUMN holds a
    column, an ALIAS or ARRAY_JOIN has one child, a FUNCTION is prepared (I5),
    and the Index names nodes of the arena (I2). *)
Definition node_ok (p : NodePtr) (n : Node) : bool :=
  forallb (fun c => bool_decide (c < p)) (children n)
  && match type n with
     | INPUT => bool_decide (children n = [])
     | COLUMN =>
         bool_decide (children n = [])
         && match column n with
            | Some _ => true
            | None => false
            end
     | ALIAS | ARRAY_JOIN => bool_decide (length (children n) = 1)
     | FUNCTION => match function n with Some _ => true | None => false end
     end.

(** The invariants hold of every node of the arena, and of the Index. *)
Definition dag_ok (d : ActionsDAG) : bool :=
  forallb (fun pn => node_ok pn.1 pn.2) (imap pair (nodes d))
  && forallb (fun p => bool_decide (p < length (nodes d))) (Index.idx_list (index d)).

(** The columns of the COLUMN nodes are constants (§3: "a true constant
    column"), none is "a materialized source column". *)
Definition constant_columns (d : ActionsDAG) : bool :=
  forallb (fun n => match type n, column n with
                    | COLUMN, Some col => isColumnConst col
                    | _, _ => true
                    end) (nodes d).

(** The block has a column of the name and the type of every INPUT, with
    data. *)
Definition inputs_carried (d : ActionsDAG) (block : Block) : bool :=
  forallb (carries block) (omap required_of (nodes d)).

(** No limit on the number of columns is set. *)
Definition limits_unset (d : ActionsDAG) : bool :=
  bool_decide (max_temporary_columns (getSettings d) = 0)
  && bool_decide (max_temporary_non_const_columns (getSettings d) = 0).

(** The column that a node without an Action has on a block of a number of
    rows. *)
Definition initial_value (block : Block) (rows : nat) (n : Node) : ColumnWithTypeAndName :=
  match type n with
  | INPUT => default empty_slot (findByName (result_name n) block)
  | _ => result_slot n (resize (default (ColumnFull []) (column n)) rows)
  end.

(** The column of the node at [q] in a state: the one computed, or the one it
    will have if it has no Action and is computed next. *)
Definition value (st : EvalState) (q : NodePtr) (n : Node) : ColumnWithTypeAndName :=
  match ev_env st !! q with
  | Some v => v
  | None => initial_value (ev_block st) (ev_rows st) n
  end.

(** The working array holds the column of every node that is in a slot and is
    still needed when the nodes from [p] on are to be computed. *)
Definition slots_hold (slots : list nat) (d : ActionsDAG) (p : nat) (st : EvalState)
    (cs : ColumnsWithTypeAndName) : Prop :=
  length cs = S (max_list slots)
  /\ forall q m, nodes d !! q = Some m -> occupies m q p = true ->
       needed_from d p q = true -> cs !! slot slots q = Some (value st q m).

(** A function that computes each row from the same row of its arguments
    gives, on columns whose rows were repeated, its column with the rows
    repeated; the arguments have one row for each of [lens]. *)
Definition commutes_with_replication (f : ExecutableFunction) : Prop :=
  forall lens cols,
    Forall (fun c => column_size c = length lens) cols ->
    fn_execute f (replicate_rows lens <$> cols) (sum_list lens)
    = replicate_rows lens (fn_execute f cols (length lens)).

(** A function gives a column of as many rows as its arguments have (§6: it
    is invoked "on a set of argument columns and a row count"). *)
Definition keeps_rows (f : ExecutableFunction) : Prop :=
  forall cols rows,
    Forall (fun c => column_size c = rows) cols ->
    column_size (fn_execute f cols rows) = rows.

(** The functions that are moved before the ARRAY JOIN are row-independent
    (§4.2: "side-effect-free, row-independent computations"). *)
Definition row_independent (joined : gset string) (d : ActionsDAG) : Prop :=
  forall p n f, nodes d !! p = Some n -> type n = FUNCTION ->
    depends_at (depends joined d) p = false -> function n = Some f ->
    commutes_with_replication f /\ keeps_rows f.

(** The DAG has one ARRAY_JOIN node, at [pe]; its child, at [pa], is an INPUT
    of an array type and the only node that is named in the array-joined set;
    no other node reads that input, and it is not a column of the result;
    the functions marked row-sensitive come after the ARRAY_JOIN node. *)
Definition single_array_join (joined : gset string) (d : ActionsDAG) (pa pe : NodePtr)
  : bool :=
  match nodes d !! pa, nodes d !! pe with
  | Some na, Some ne =>
      is_joined_input joined na
      && match result_type na with
         | Some (DataTypeArray _) => true
         | _ => false
         end
      && bool_decide (type ne = ARRAY_JOIN)
      && bool_decide (children ne = [pa])
      && negb (bool_decide (pa ∈ Index.idx_list (index d)))
      && forallb (fun qm =>
           implb (bool_decide (result_name qm.2 ∈ joined)) (bool_decide (qm.1 = pa))
           && implb (bool_decide (type qm.2 = ARRAY_JOIN)) (bool_decide (qm.1 = pe))
           && implb (bool_decide (pa ∈ children qm.2)) (bool_decide (qm.1 = pe))
           && implb (bool_decide (type qm.2 = FUNCTION) && row_sensitive qm.2)
                    (bool_decide (pe < qm.1)))
         (imap pair (nodes d))
  | _, _ => false
  end.

(** Every column of the block has the given number of rows. *)
Definition block_rows (block : Block) (rows : nat) : bool :=
  forallb (fun c => match cwtn_column c with
                    | Some col => bool_decide (column_size col = rows)
                    | None => true
                    end) block.

(** The copy of node [q] in the first half has been computed: its column is in
    [env], at the address of the copy; it has the name and the type of the
    node and the rows of the block, and is what the node gives on the columns
    of its children in [env]. *)
Definition computed_in_pre (joined : gset string) (d : ActionsDAG) (block : Block)
    (rows : nat) (env : ColumnsWithTypeAndName) (q : NodePtr) (n : Node) : Prop :=
  exists v col,
    env !! rank (in_pre joined d (depends joined d)) q = Some v
    /\ cwtn_column v = Some col
    /\ column_size col = rows
    /\ cwtn_name v = result_name n
    /\ cwtn_type v = result_type n
    /\ node_result n block
         (fun c => env !! rank (in_pre joined d (depends joined d)) c) rows
       = Returns (v, None).

(** The column of the copy of node [q] in the first half. *)
Definition pre_value (joined : gset string) (d : ActionsDAG)
    (env : ColumnsWithTypeAndName) (q : NodePtr) : ColumnWithTypeAndName :=
  default empty_slot (env !! rank (in_pre joined d (depends joined d)) q).

(** The number of times that the ARRAY JOIN between the halves repeats each
    row: the lengths of the arrays of the array-joined input, at [pa]. *)
Definition join_lens (joined : gset string) (d : ActionsDAG)
    (env : ColumnsWithTypeAndName) (pa : NodePtr) : list nat :=
  default [] (array_lengths <$> cwtn_column (pre_value joined d env pa)).

(** The block that the ARRAY JOIN makes of the columns of the first half. *)
Definition joined_block (joined : gset string) (d : ActionsDAG)
    (env : ColumnsWithTypeAndName) (pa : NodePtr) : Block :=
  join_slot joined (Some (join_lens joined d env pa))
    <$> (pre_value joined d env <$> pre_outputs joined d).

(** The original DAG and the second half, both before the node at [p]; [env]
    holds the columns of the first half.  Up to the ARRAY_JOIN node, at [pe],
    the original DAG has computed what the first half computes, and after it
    the same columns with their rows repeated; the second half has read these
    as inputs, and the array-joined input unfolded; what depends on the
    array-joined set is the same in both. *)
Definition split_related (joined : gset string) (d : ActionsDAG) (block : Block)
    (rows : nat) (env : ColumnsWithTypeAndName) (pa pe : NodePtr) (p : nat)
    (st_o st_p : EvalState) : Prop :=
  length (ev_env st_o) = p
  /\ length (ev_env st_p) = rank (in_post d (depends joined d)) p
  /\ ev_block st_p = joined_block joined d env pa
  /\ ev_rows st_p = sum_list (join_lens joined d env pa)
  /\ ev_block st_o = (if decide (p <= pe) then block
                      else replicate_slot (join_lens joined d env pa) <$> block)
  /\ ev_rows st_o = (if decide (p <= pe) then rows
                     else sum_list (join_lens joined d env pa))
  /\ Forall (fun v => is_live v = true) (ev_env st_o)
  /\ (forall q, q < p -> in_pre joined d (depends joined d) q = true ->
        ev_env st_o !! q
        = Some (if decide (p <= pe) then pre_value joined d env q
                else replicate_slot (join_lens joined d env pa) (pre_value joined d env q)))
  /\ (forall q, q < p -> in_post d (depends joined d) q = true ->
        ev_env st_p !! rank (in_post d (depends joined d)) q
        = if decide (q = pa) then Some (unfold_slot (pre_value joined d env pa))
          else if depends_at (depends joined d) q then ev_env st_o !! q
               else Some (replicate_slot (join_lens joined d env pa)
                            (pre_value joined d env q))).

(** The node at [p] depends on the array-joined set: it is named in it, it is
    an ARRAY_JOIN or a function marked row-sensitive, or it has a child that
    depends on the set. *)
Inductive Depends (joined : gset string) (d : ActionsDAG) : NodePtr -> Prop :=
| Depends_named p n :
    nodes d !! p = Some n -> result_name n ∈ joined -> Depends joined d p
| Depends_array_join p n :
    nodes d !! p = Some n -> type n = ARRAY_JOIN -> Depends joined d p
| Depends_row_sensitive p n :
    nodes d !! p = Some n -> type n = FUNCTION -> row_sensitive n = true ->
    Depends joined d p
| Depends_child p n c :
    nodes d !! p = Some n -> c ∈ children n -> Depends joined d c ->
    Depends joined d p.

(** * Examples *)

Definition dag_x : ActionsDAG :=
  {| nodes := [input_node "x" (Some DataTypeInt64)];
     index := {| Index.idx_list := [0]; Index.idx_map := {[ "x" := 0 ]} |};
     settings := default_settings |}.

(** A pruning pass for the examples: it keeps the requested names in the
    index. *)
Definition keep_names (required : Names) (d : ActionsDAG) : outcome ActionsDAG :=
  Returns {| nodes := nodes d;
             index := {| Index.idx_list := Index.idx_list (index d);
                         Index.idx_map := filter (fun kv => kv.1 ∈ required)
                                            (Index.idx_map (index d)) |};
             settings := settings d |}.

Definition set_projected_output (b : bool) (d : ActionsDAG) : ActionsDAG :=
  {| nodes := nodes d; index := index d;
     settings := {| max_temporary_columns := max_temporary_columns (settings d);
                    max_temporary_non_const_columns :=
                      max_temporary_non_const_columns (settings d);
                    min_count_to_compile_expression :=
                      min_count_to_compile_expression (settings d);
                    compile_expressions := compile_expressions (settings d);
                    project_input := project_input (settings d);
                    projected_output := b |} |}.

Definition plus_values (x y : Value) : Value :=
  match x, y with
  | VInt a, VInt b => VInt (a + b)
  | _, _ => VInt 0
  end.

Definition plus_fn : ExecutableFunction :=
  {| fn_execute := fun args rows =>
       match args with
       | [a; b] => ColumnFull (zip_with plus_values (column_values a) (column_values b))
       | _ => ColumnConst (VInt 0) rows
       end |}.

Definition function_node (name : string) (ty : DataTypePtr) (args : list NodePtr)
    (f : ExecutableFunction) : Node :=
  {| children := args; type := FUNCTION; result_name := name; result_type := ty;
     function_builder := Some "plus";
     function_base := Some {| fn_name := "plus"; fn_return_type := ty;
                              fn_row_sensitive := false |};
     function := Some f; is_function_compiled := false; column := None;
     allow_constant_folding := true |}.

Definition limits (max max_non_const : nat) : ActionsSettings :=
  {| max_temporary_columns := max;
     max_temporary_non_const_columns := max_non_const;
     min_count_to_compile_expression := 0;
     compile_expressions := false;
     project_input := false;
     projected_output := false |}.

(** Inputs [a] and [b], and [s = plus(a, b)]; all three are columns of the
    result. *)
Definition dag_sum (max : nat) : ActionsDAG :=
  {| nodes := [input_node "a" (Some DataTypeInt64); input_node "b" (Some DataTypeInt64);
               function_node "s" (Some DataTypeInt64) [0; 1] plus_fn];
     index := {| Index.idx_list := [0; 1; 2];
                 Index.idx_map := {[ "a" := 0; "b" := 1; "s" := 2 ]} |};
     settings := limits max 0 |}.

Definition plan_sum (max : nat) : ExpressionActions :=
  {| ea_dag := dag_sum max;
     actions := [mkAction 2 [mkArgument 0 true; mkArgument 1 true] 2];
     num_columns := 3;
     required_columns := [mkNameAndTypePair "a" (Some DataTypeInt64);
                          mkNameAndTypePair "b" (Some DataTypeInt64)];
     result_positions := [0; 1; 2];
     sample_block :=
       [mkColumnWithTypeAndName (Some (ColumnFull [])) (Some DataTypeInt64) "a";
        mkColumnWithTypeAndName (Some (ColumnFull [])) (Some DataTypeInt64) "b";
        mkColumnWithTypeAndName (Some (ColumnConst (VInt 0) 0)) (Some DataTypeInt64) "s"];
     initial_positions := [(0, 0); (1, 1)] |}.

(** The plan of a DAG without nodes: nothing is required, nothing is
    computed. *)
Definition plan_nothing : ExpressionActions :=
  {| ea_dag := ActionsDAG_default;
     actions := [];
     num_columns := 0;
     required_columns := [];
     result_positions := [];
     sample_block := [];
     initial_positions := [] |}.

Definition block_ab : Block :=
  [mkColumnWithTypeAndName (Some (ColumnFull [VInt 1; VInt 2; VInt 3])) (Some DataTypeInt64) "a";
   mkColumnWithTypeAndName (Some (ColumnFull [VInt 10; VInt 20; VInt 30])) (Some DataTypeInt64) "b"].

Definition state_sum : ExecutionContext :=
  {| inputs := block_ab;
     columns := block_ab ++
       [mkColumnWithTypeAndName (Some (ColumnFull [VInt 11; VInt 22; VInt 33]))
          (Some DataTypeInt64) "s"];
     num_rows := 3 |}.

(** The product of two integers. *)
Definition times_values (x y : Value) : Value :=
  match x, y with
  | VInt a, VInt b => VInt (a * b)
  | _, _ => VInt 0
  end.

(** A function of two arguments that computes each row from the same row of
    its arguments. *)
Definition binary_fn (op : Value -> Value -> Value) : ExecutableFunction :=
  {| fn_execute := fun args rows =>
       match args with
       | [a; b] => ColumnFull (zip_with op (column_values a) (column_values b))
       | _ => ColumnConst (VInt 0) rows
       end |}.

(** A FUNCTION node for the product of its two children. *)
Definition multiply_node (name : string) (ty : DataTypePtr) (args : list NodePtr) : Node :=
  {| children := args; type := FUNCTION; result_name := name; result_type := ty;
     function_builder := Some "multiply";
     function_base := Some {| fn_name := "multiply"; fn_return_type := ty;
                              fn_row_sensitive := false |};
     function := Some (binary_fn times_values); is_function_compiled := false;
     column := None; allow_constant_folding := true |}.

(** A COLUMN node. *)
Definition column_node (name : string) (ty : DataTypePtr) (col : Column) : Node :=
  {| children := []; type := COLUMN; result_name := name; result_type := ty;
     function_builder := None; function_base := None; function := None;
     is_function_compiled := false; column := Some col;
     allow_constant_folding := true |}.

(** An ARRAY_JOIN node over a child. *)
Definition array_join_node (name : string) (ty : DataTypePtr) (child : NodePtr) : Node :=
  {| children := [child]; type := ARRAY_JOIN; result_name := name; result_type := ty;
     function_builder := None; function_base := None; function := None;
     is_function_compiled := false; column := None;
     allow_constant_folding := true |}.

(** The nodes of scenario 5 of §8, with the integers of the model for Int32:
    inputs [arr : Array(Int)] and [k : Int]; [k2 = k * 2]; [e = arrayJoin(arr)];
    [r = e + k2]. *)
Definition nodes_s5 : Nodes :=
  [input_node "arr" (Some (DataTypeArray DataTypeInt64));
   input_node "k" (Some DataTypeInt64);
   column_node "2" (Some DataTypeInt64) (ColumnConst (VInt 2) 1);
   multiply_node "k2" (Some DataTypeInt64) [1; 2];
   array_join_node "e" (Some DataTypeInt64) 0;
   function_node "r" (Some DataTypeInt64) [4; 3] plus_fn].

(** Scenario 5 with [r] as its result. *)
Definition dag_s5 : ActionsDAG :=
  {| nodes := nodes_s5; index := Index_of nodes_s5 [5]; settings := default_settings |}.

(** Scenario 5 as its calls build it: each of them adds its node to the Index
    (§4.1), so that the array-joined input [arr] is a column of the result. *)
Definition dag_s5_built : ActionsDAG :=
  {| nodes := nodes_s5; index := Index_of nodes_s5 [0; 1; 2; 3; 4; 5];
     settings := default_settings |}.

(** The block of scenario 5: [arr = [[1, 2], [3]]], [k = [10, 20]]. *)
Definition block_arr : Block :=
  [mkColumnWithTypeAndName
     (Some (ColumnFull [VArray [VInt 1; VInt 2]; VArray [VInt 3]]))
     (Some (DataTypeArray DataTypeInt64)) "arr";
   mkColumnWithTypeAndName (Some (ColumnFull [VInt 10; VInt 20])) (Some DataTypeInt64) "k"].

(** Inputs [arr] and [k], and [k2], another name for [k]; the result is made
    of [arr] and [k2]. *)
Definition nodes_k2 : Nodes :=
  [input_node "arr" (Some (DataTypeArray DataTypeInt64));
   input_node "k" (Some DataTypeInt64);
   alias_node 1 (input_node "k" (Some DataTypeInt64)) "k2"].

Definition dag_k2 : ActionsDAG :=
  {| nodes := nodes_k2; index := Index_of nodes_k2 [0; 2]; settings := default_settings |}.

(** An arena with two nodes of one name. *)
Definition arena_xxy : Nodes :=
  [input_node "x" (Some DataTypeInt64); input_node "x" (Some DataTypeString);
   input_node "y" None].

(** * Properties *)

(** ** The Index *)

Section IndexFacts.

Variable arena : Nodes.

Lemma Index_contains_spec key i :
  Index.contains key i = true <-> is_Some (Index.idx_map i !! key).
Proof. unfold Index.contains. by rewrite bool_decide_eq_true. Qed.

Lemma Index_contains_false key i :
  Index.contains key i = false <-> Index.idx_map i !! key = None.
Proof.
  unfold Index.contains. rewrite bool_decide_eq_false, eq_None_not_Some. done.
Qed.

Lemma Index_insert_returns node n i :
  arena !! node = Some n ->
  Index.insert arena node i =
    Returns {| Index.idx_list := Index.idx_list i ++ [node];
               Index.idx_map := <[result_name n := length (Index.idx_list i)]>
                                  (Index.idx_map i) |}.
Proof. intros Hn. unfold Index.insert. by rewrite Hn. Qed.

Lemma Index_find_insert node n i i' :
  arena !! node = Some n ->
  Index.insert arena node i = Returns i' ->
  Index.find (result_name n) i' = length (Index.idx_list i)
  /\ Index.deref (Index.find (result_name n) i') i' = Some node.
Proof.
  intros Hn Hi. rewrite (Index_insert_returns _ _ _ Hn) in Hi.
  injection Hi as <-. unfold Index.find, Index.deref. cbn.
  rewrite lookup_insert_eq. split; [done|].
  by rewrite lookup_app_r, Nat.sub_diag.
Qed.

Lemma Index_find_insert_other node n key i i' :
  arena !! node = Some n -> key <> result_name n ->
  Index.insert arena node i = Returns i' ->
  Index.idx_map i' !! key = Index.idx_map i !! key.
Proof.
  intros Hn Hne Hi. rewrite (Index_insert_returns _ _ _ Hn) in Hi.
  injection Hi as <-. cbn. by rewrite lookup_insert_ne.
Qed.

Lemma Index_remove_present node n i :
  arena !! node = Some n ->
  Index.contains (result_name n) i = true ->
  Index.remove arena node i = Returns i.
Proof.
  intros Hn [it Hit]%Index_contains_spec. unfold Index.remove.
  by rewrite Hn, Hit.
Qed.

Lemma Index_remove_absent node n i :
  arena !! node = Some n ->
  Index.contains (result_name n) i = false ->
  Index.remove arena node i = Undefined.
Proof.
  intros Hn Hc%Index_contains_false. unfold Index.remove. by rewrite Hn, Hc.
Qed.

Lemma Index_replace_present node n it i :
  arena !! node = Some n ->
  Index.idx_map i !! result_name n = Some it ->
  it < length (Index.idx_list i) ->
  Index.replace arena node i =
    Returns {| Index.idx_list := <[it := node]> (Index.idx_list i);
               Index.idx_map := Index.idx_map i |}.
Proof.
  intros Hn Hit Hlt. unfold Index.replace. rewrite Hn, Hit.
  rewrite decide_True by done. do 2 f_equal.
  rewrite insert_delete_eq. by apply insert_id.
Qed.

Lemma Index_replace_absent node n i :
  arena !! node = Some n ->
  Index.idx_map i !! result_name n = None ->
  Index.replace arena node i = Index.insert arena node i.
Proof.
  intros Hn Hit. unfold Index.replace. rewrite Hn. cbn.
  by rewrite Hit.
Qed.

End IndexFacts.

Lemma Index_insert_all_list arena ns : forall i i',
  Index_insert_all arena ns i = Returns i' ->
  Index.idx_list i' = Index.idx_list i ++ ns.
Proof.
  induction ns as [|node rest IH]; intros i i' H; cbn in H.
  - injection H as <-. by rewrite app_nil_r.
  - destruct (arena !! node) as [n|] eqn:Hn.
    + rewrite (Index_insert_returns _ _ _ _ Hn) in H. cbn in H.
      apply IH in H. rewrite H. cbn. by rewrite <- app_assoc.
    + unfold Index.insert in H. by rewrite Hn in H.
Qed.

Lemma Index_insert_all_returns arena ns : forall i,
  Forall (fun node => is_Some (arena !! node)) ns ->
  exists i', Index_insert_all arena ns i = Returns i'.
Proof.
  induction ns as [|node rest IH]; intros i Hall; cbn.
  - eauto.
  - apply Forall_cons in Hall as [[n Hn] Hrest].
    rewrite (Index_insert_returns _ _ _ _ Hn). cbn. by apply IH.
Qed.

Lemma Index_insert_all_map_other arena key ns : forall i i',
  Index_insert_all arena ns i = Returns i' ->
  Forall (fun node => forall n, arena !! node = Some n -> result_name n <> key) ns ->
  Index.idx_map i' !! key = Index.idx_map i !! key.
Proof.
  induction ns as [|node rest IH]; intros i i' H Hall; cbn in H.
  - by injection H as <-.
  - apply Forall_cons in Hall as [Hnode Hrest].
    destruct (arena !! node) as [n|] eqn:Hn.
    + rewrite (Index_insert_returns _ _ _ _ Hn) in H. cbn in H.
      rewrite (IH _ _ H Hrest). cbn. rewrite lookup_insert_ne; [done|].
      by apply Hnode.
    + unfold Index.insert in H. by rewrite Hn in H.
Qed.

(** C7.  After any sequence of [insert] calls the list of the index is the old
    list followed by every inserted node, in order, whatever their names (so
    nodes of one name are all kept), and [find] of a name resolves to the
    node of that name that was inserted last. *)
Theorem Index_insert_resolves_newest
    (arena : Nodes) (before after : list NodePtr) (node : NodePtr) (n : Node) (i : Index.t) :
  Forall (fun p => is_Some (arena !! p)) (before ++ node :: after) ->
  arena !! node = Some n ->
  Forall (fun p => forall m, arena !! p = Some m -> result_name m <> result_name n) after ->
  exists i',
    Index_insert_all arena (before ++ node :: after) i = Returns i'
    /\ Index.idx_list i' = Index.idx_list i ++ before ++ node :: after
    /\ Index.contains (result_name n) i' = true
    /\ Index.find (result_name n) i' = length (Index.idx_list i ++ before)
    /\ Index.deref (Index.find (result_name n) i') i' = Some node.
Proof.
  intros Hall Hn Hafter.
  destruct (Index_insert_all_returns arena _ i Hall) as [i' Hi'].
  exists i'. split; [done|].
  pose proof (Index_insert_all_list _ _ _ _ Hi') as Hlist.
  split; [done|].
  assert (Index.idx_map i' !! result_name n = Some (length (Index.idx_list i ++ before)))
    as Hmap.
  { clear Hlist. revert i Hi' Hall.
    induction before as [|b before IH]; intros i Hi' Hall; cbn in Hi'.
    - rewrite (Index_insert_returns _ _ _ _ Hn) in Hi'. cbn in Hi'.
      rewrite (Index_insert_all_map_other _ _ _ _ _ Hi' Hafter). cbn.
      by rewrite lookup_insert_eq, app_nil_r.
    - apply Forall_cons in Hall as [[m Hm] Hall].
      rewrite (Index_insert_returns _ _ _ _ Hm) in Hi'. cbn in Hi'.
      rewrite (IH _ Hi' Hall). cbn. by rewrite <- app_assoc. }
  split; [apply Index_contains_spec; eauto|].
  unfold Index.find, Index.deref. rewrite Hmap. split; [done|].
  rewrite Hlist, app_assoc.
  by rewrite lookup_app_r, Nat.sub_diag.
Qed.

Lemma Index_insert_resolves_newest_witness :
  exists i',
    Index_insert_all [input_node "x" (Some DataTypeInt64); input_node "x" (Some DataTypeString);
                      input_node "y" None] [0; 1; 2] Index.empty = Returns i'
    /\ Index.idx_list i' = [0; 1; 2]
    /\ Index.contains "x" i' = true
    /\ Index.find "x" i' = 1
    /\ Index.deref (Index.find "x" i') i' = Some 1.
Proof.
  apply (Index_insert_resolves_newest
           [input_node "x" (Some DataTypeInt64); input_node "x" (Some DataTypeString);
            input_node "y" None] [0] [2] 1 (input_node "x" (Some DataTypeString))
           Index.empty).
  - repeat constructor; cbn; eauto.
  - reflexivity.
  - constructor; [|constructor]. intros m [= <-]. cbn. discriminate.
Defined.

(** C1.  The code at an index that maps the name "a" to a node: [remove] of
    that node returns with the index as it was, so the name is still
    contained and the node is still in the list of the result columns. *)
Theorem Index_remove_leaves_present_name :
  exists i,
    Index.insert [input_node "a" (Some DataTypeInt64)] 0 Index.empty = Returns i
    /\ Index.contains "a" i = true
    /\ Index.remove [input_node "a" (Some DataTypeInt64)] 0 i = Returns i
    /\ Index.idx_list i = [0]
    /\ Index.names [input_node "a" (Some DataTypeInt64)] i = ["a"].
Proof.
  eexists. split; [reflexivity|].
  split; [by apply Index_contains_spec; eexists; apply lookup_insert_eq|].
  split; [|done].
  apply (Index_remove_present _ _ (input_node "a" (Some DataTypeInt64))); [done|].
  apply Index_contains_spec. eexists. apply lookup_insert_eq.
Qed.

(** ** Building: addAlias *)

Lemma Index_wf_insert arena n i :
  Index.wf arena i ->
  Index.wf (arena ++ [n])
    {| Index.idx_list := Index.idx_list i ++ [length arena];
       Index.idx_map := <[result_name n := length (Index.idx_list i)]> (Index.idx_map i) |}.
Proof.
  intros Hwf key it. cbn. destruct (decide (key = result_name n)) as [->|Hne].
  - rewrite lookup_insert_eq. intros [= <-]. exists (length arena), n.
    rewrite !lookup_app_r, !Nat.sub_diag by lia. done.
  - rewrite lookup_insert_ne by done. intros Hit.
    destruct (Hwf _ _ Hit) as (p & m & Hp & Hm & Hname).
    exists p, m. split; [by apply lookup_app_l_Some|].
    split; [by apply lookup_app_l_Some|done].
Qed.

Lemma Index_wf_replace arena n it i :
  Index.wf arena i ->
  Index.idx_map i !! result_name n = Some it ->
  Index.wf (arena ++ [n])
    {| Index.idx_list := <[it := length arena]> (Index.idx_list i);
       Index.idx_map := Index.idx_map i |}.
Proof.
  intros Hwf Hit key it'. cbn. intros Hit'.
  destruct (Hwf _ _ Hit) as (p & m & Hp & Hm & Hname).
  destruct (Hwf _ _ Hit') as (p' & m' & Hp' & Hm' & Hname').
  destruct (decide (it' = it)) as [->|Hne].
  - exists (length arena), n. split.
    + apply list_lookup_insert_eq. by eapply lookup_lt_Some.
    + rewrite lookup_app_r, Nat.sub_diag by lia. split; [done|].
      congruence.
  - exists p', m'. rewrite list_lookup_insert_ne by done.
    split; [done|]. split; [by apply lookup_app_l_Some|done].
Qed.

(** C6.  [addAlias] on a well-formed index where [name] resolves: the ALIAS
    node is put at the end of the arena; if [can_replace] is set and the
    alias is in the index, the cell of the list that the map gives for the
    alias is overwritten in place (same length, same map); otherwise the node
    is appended to the list; in both cases the lookup of the alias resolves to
    the new node, and the index stays well-formed. *)
Theorem addAlias_index_entry
    (name alias : string) (can_replace : bool) (d : ActionsDAG) (child : NodePtr) (c : Node) :
  Index.wf (nodes d) (index d) ->
  getNode name d = Returns child ->
  nodes d !! child = Some c ->
  exists d',
    addAlias name alias can_replace d = Returns (d', length (nodes d))
    /\ nodes d' = nodes d ++ [alias_node child c alias]
    /\ (forall it, can_replace = true -> Index.idx_map (index d) !! alias = Some it ->
          Index.idx_list (index d') = <[it := length (nodes d)]> (Index.idx_list (index d))
          /\ length (Index.idx_list (index d')) = length (Index.idx_list (index d))
          /\ Index.idx_map (index d') = Index.idx_map (index d))
    /\ (can_replace = false \/ Index.contains alias (index d) = false ->
          Index.idx_list (index d') = Index.idx_list (index d) ++ [length (nodes d)])
    /\ Index.contains alias (index d') = true
    /\ Index.deref (Index.find alias (index d')) (index d') = Some (length (nodes d))
    /\ Index.wf (nodes d') (index d').
Proof.
  intros Hwf Hget Hc. unfold addAlias. rewrite Hget. cbn. rewrite Hc.
  fold (alias_node child c alias). unfold addNode.
  set (n := alias_node child c alias).
  assert ((nodes d ++ [n]) !! length (nodes d) = Some n) as Hnew.
  { by rewrite lookup_app_r, Nat.sub_diag. }
  destruct (can_replace && Index.contains (result_name n) (index d)) eqn:Hcase.
  - apply andb_true_iff in Hcase as [-> [it Hit]%Index_contains_spec].
    destruct (Hwf _ _ Hit) as (p & m & Hp & _).
    apply lookup_lt_Some in Hp as Hlt.
    rewrite (Index_replace_present _ _ _ _ _ Hnew Hit Hlt). cbn.
    eexists. split; [reflexivity|]. cbn. split; [done|].
    split. { intros it' _ Hit'. cbn in Hit. rewrite Hit in Hit'. injection Hit' as <-.
             by rewrite length_insert. }
    split. { intros [?|Hno]; [done|]. apply Index_contains_false in Hno.
             cbn in Hit. congruence. }
    split. { apply Index_contains_spec. cbn. eauto. }
    split. { unfold Index.find, Index.deref. cbn in *. rewrite Hit.
             by apply list_lookup_insert_eq. }
    by apply Index_wf_replace.
  - rewrite (Index_insert_returns _ _ _ _ Hnew). cbn.
    eexists. split; [reflexivity|]. cbn. split; [done|].
    split. { intros it -> Hit. cbn in Hcase.
             apply Index_contains_false in Hcase. congruence. }
    split; [done|].
    split. { apply Index_contains_spec. cbn. rewrite lookup_insert_eq. eauto. }
    split. { unfold Index.find, Index.deref. cbn. rewrite lookup_insert_eq.
             by rewrite lookup_app_r, Nat.sub_diag. }
    by apply Index_wf_insert.
Qed.

Lemma dag_x_wf : Index.wf (nodes dag_x) (index dag_x).
Proof.
  intros key it. cbn. intros [<- <-]%lookup_singleton_Some.
  by exists 0, (input_node "x" (Some DataTypeInt64)).
Qed.

Lemma addAlias_index_entry_witness :
  exists d',
    addAlias "x" "x" true dag_x = Returns (d', 1)
    /\ nodes d' = nodes dag_x ++ [alias_node 0 (input_node "x" (Some DataTypeInt64)) "x"]
    /\ (forall it, true = true -> Index.idx_map (index dag_x) !! "x" = Some it ->
          Index.idx_list (index d') = <[it := 1]> (Index.idx_list (index dag_x))
          /\ length (Index.idx_list (index d')) = length (Index.idx_list (index dag_x))
          /\ Index.idx_map (index d') = Index.idx_map (index dag_x))
    /\ (true = false \/ Index.contains "x" (index dag_x) = false ->
          Index.idx_list (index d') = Index.idx_list (index dag_x) ++ [1])
    /\ Index.contains "x" (index d') = true
    /\ Index.deref (Index.find "x" (index d')) (index d') = Some 1
    /\ Index.wf (nodes d') (index d').
Proof.
  apply (addAlias_index_entry "x" "x" true dag_x 0 (input_node "x" (Some DataTypeInt64))).
  - exact dag_x_wf.
  - reflexivity.
  - reflexivity.
Defined.

(** ** The steps of a chain *)

(** C5.  [finalize] of an ExpressionActionsStep whose DAG is [d]: if
    [projected_output] is not set, [removeUnusedActions(required_output)] is
    called on the DAG, and its result is the DAG of the step afterwards; if
    [projected_output] is set, no call is made and the store (hence the DAG
    and its actions) is unchanged. *)
Theorem finalize_calls_removeUnusedActions_unless_projected
    (removeUnusedActions : Names -> ActionsDAG -> outcome ActionsDAG)
    (l : nat) (d : ActionsDAG) (required_output_ : Names) (σ : Store) :
  σ !! l = Some d ->
  (projected_output (getSettings d) = false ->
     ExpressionActionsStep_finalize removeUnusedActions (Some l) required_output_ σ
     = (d' ← removeUnusedActions required_output_ d;
        Returns (<[l := d']> σ, [Call_removeUnusedActions l required_output_])))
  /\ (projected_output (getSettings d) = true ->
        ExpressionActionsStep_finalize removeUnusedActions (Some l) required_output_ σ
        = Returns (σ, []))
  /\ (forall σ' calls,
        ExpressionActionsStep_finalize removeUnusedActions (Some l) required_output_ σ
        = Returns (σ', calls) ->
        (calls = [Call_removeUnusedActions l required_output_]
         <-> projected_output (getSettings d) = false)
        /\ (calls = [] <-> projected_output (getSettings d) = true)).
Proof.
  intros Hd. unfold ExpressionActionsStep_finalize. rewrite Hd.
  destruct (projected_output (getSettings d)); cbn.
  - split; [done|]. split; [done|]. intros σ' calls [= <- <-]. done.
  - split; [done|]. split; [done|]. intros σ' calls.
    destruct (removeUnusedActions required_output_ d); cbn; [|done..].
    intros [= <- <-]. done.
Qed.

Lemma finalize_calls_removeUnusedActions_unless_projected_witness :
  ExpressionActionsStep_finalize keep_names (Some 0) ["y"] [set_projected_output true dag_x]
  = Returns ([set_projected_output true dag_x], [])
  /\ ExpressionActionsStep_finalize keep_names (Some 0) ["y"] [dag_x]
     = (d' ← keep_names ["y"] dag_x;
        Returns ([d'], [Call_removeUnusedActions 0 ["y"]])).
Proof.
  split.
  - apply (finalize_calls_removeUnusedActions_unless_projected
             keep_names 0 (set_projected_output true dag_x) ["y"]
             [set_projected_output true dag_x]); reflexivity.
  - apply (finalize_calls_removeUnusedActions_unless_projected
             keep_names 0 dag_x ["y"] [dag_x]); reflexivity.
Defined.

(** ** The accessors of a chain *)

Lemma back_ref_snoc ctx (ss : list Step) (s : Step) :
  back_ref (mkChain ctx (ss ++ [s])) = Returns (length ss)
  /\ at_ (length ss) (mkChain ctx (ss ++ [s])) = Some s.
Proof.
  unfold back_ref, at_. cbn. split.
  - destruct (ss ++ [s]) eqn:E; [by destruct ss|].
    rewrite <- E, length_app. cbn. f_equal. lia.
  - by rewrite lookup_app_r, Nat.sub_diag.
Qed.

Lemma vector_empty_snoc {A} (ss : list A) (s : A) : vector_empty (ss ++ [s]) = false.
Proof. by destruct ss. Qed.

(** C8, as the code has it.  On a chain without steps [getLastActions()]
    (with the default [allow_empty = false]) and [getLastStep()] throw the
    exception "Empty ExpressionActionsChain" with code LOGICAL_ERROR.  On a
    chain with steps [getLastStep()] returns a reference to the last step and
    leaves the chain as it is, and [getLastActions] returns the DAG pointer of
    the last step when that step is an ExpressionActionsStep.  When the last
    step is an ArrayJoinStep or a JoinStep, the cast gives the null pointer,
    the member is read through it, and the call has undefined behaviour: it
    returns nothing and throws nothing, whatever [allow_empty] is. *)
Theorem chain_accessors_on_empty_and_nonempty
    (ctx : ContextRef) (ss : list Step) (s : Step) (base : StepBase)
    (dag : ActionsDAGPtr) (allow_empty : bool)
    (array_join : ArrayJoinActionPtr) (analyzed_join : TableJoinPtr) (join : JoinPtr)
    (required : NamesAndTypesList) (result : ColumnsWithTypeAndName) :
  getLastActions false (mkChain ctx []) = Throws EmptyChain
  /\ getLastStep (mkChain ctx []) = Throws EmptyChain
  /\ code EmptyChain = LOGICAL_ERROR
  /\ getLastStep (mkChain ctx (ss ++ [s])) = Returns (mkChain ctx (ss ++ [s]), length ss)
  /\ at_ (length ss) (mkChain ctx (ss ++ [s])) = Some s
  /\ getLastActions allow_empty (mkChain ctx (ss ++ [ExpressionActionsStep base dag]))
     = Returns (mkChain ctx (ss ++ [ExpressionActionsStep base dag]), dag)
  /\ getLastActions allow_empty
       (mkChain ctx (ss ++ [ArrayJoinStep base array_join required result]))
     = Undefined
  /\ getLastActions allow_empty
       (mkChain ctx (ss ++ [JoinStep base analyzed_join join required result]))
     = Undefined.
Proof.
  split; [done|]. split; [done|]. split; [done|].
  destruct (back_ref_snoc ctx ss s) as [Hback Hat].
  split. { unfold getLastStep. cbn [steps]. rewrite vector_empty_snoc.
           rewrite Hback. done. }
  split; [done|].
  unfold getLastActions. cbn [steps]. rewrite !vector_empty_snoc.
  by rewrite !last_snoc.
Qed.

(** C8, as the claim has it, fails: on the chain whose only step is a JoinStep
    [getLastActions] does not return. *)
Lemma getLastActions_nonempty_counterexample :
  ~ (forall c : ExpressionActionsChain, steps c <> [] ->
       (exists r, getLastActions false c = Returns r)
       /\ (exists r, getLastStep c = Returns r)).
Proof.
  intros H.
  destruct (H (mkChain 0 [JoinStep (Step_new []) None None [] []])) as [[r Hr] _].
  - discriminate.
  - discriminate.
Qed.

(** C10.  On a chain without steps [getLastActions(true)] returns the null
    pointer and the chain is as it was. *)
Theorem getLastActions_allow_empty (ctx : ContextRef) :
  getLastActions true (mkChain ctx []) = Returns (mkChain ctx [], None).
Proof. reflexivity. Qed.

(** ** lastStep *)

Lemma addInput_returns name ty d :
  Index.idx_map (index d) !! name = None ->
  addInput name ty d =
    Returns ({| nodes := nodes d ++ [input_node name ty];
                index := {| Index.idx_list := Index.idx_list (index d) ++ [length (nodes d)];
                            Index.idx_map := <[name := length (Index.idx_list (index d))]>
                                               (Index.idx_map (index d)) |};
                settings := settings d |}, length (nodes d)).
Proof.
  intros Hno. unfold addInput.
  rewrite (proj2 (Index_contains_false name (index d)) Hno).
  fold (input_node name ty). unfold addNode. cbn [andb].
  rewrite (Index_insert_returns _ _ (input_node name ty)); [done|].
  by rewrite lookup_app_r, Nat.sub_diag.
Qed.

Lemma addInput_duplicate name ty d :
  is_Some (Index.idx_map (index d) !! name) ->
  addInput name ty d = Throws (mkException "Duplicate input" DUPLICATE_INPUT).
Proof.
  intros Hin. unfold addInput.
  by rewrite (proj2 (Index_contains_spec name (index d)) Hin).
Qed.

Lemma addInputs_returns inputs : forall d,
  NoDup (nt_name <$> inputs) ->
  (forall name, name ∈ nt_name <$> inputs -> Index.idx_map (index d) !! name = None) ->
  exists d',
    addInputs inputs d = Returns d'
    /\ nodes d' = nodes d ++ (input_of <$> inputs)
    /\ Index.idx_list (index d')
       = Index.idx_list (index d) ++ seq (length (nodes d)) (length inputs)
    /\ settings d' = settings d.
Proof.
  induction inputs as [|nt rest IH]; intros d Hnd Hfresh; cbn.
  - exists d. by rewrite !app_nil_r.
  - cbn in Hnd. apply NoDup_cons in Hnd as [Hnotin Hnd].
    rewrite addInput_returns by (apply Hfresh; cbn; left). cbn.
    edestruct IH as (d' & Hd' & Hnodes & Hlist & Hset); [done| |].
    2:{ exists d'. split; [exact Hd'|]. rewrite Hnodes, Hlist, Hset. cbn.
        rewrite length_app, <- !app_assoc. cbn.
        by rewrite Nat.add_1_r. }
    intros name Hname. cbn. rewrite lookup_insert_ne.
    + apply Hfresh. cbn. by right.
    + intros <-. done.
Qed.

Lemma addInputs_throws inputs : forall d,
  ~ (NoDup (nt_name <$> inputs)
     /\ forall name, name ∈ nt_name <$> inputs -> Index.idx_map (index d) !! name = None) ->
  addInputs inputs d = Throws (mkException "Duplicate input" DUPLICATE_INPUT).
Proof.
  induction inputs as [|nt rest IH]; intros d Hbad; cbn.
  - exfalso. apply Hbad. split; [constructor|]. intros name Hin.
    by apply elem_of_nil in Hin.
  - destruct (Index.idx_map (index d) !! nt_name nt) as [it|] eqn:Hit.
    + rewrite addInput_duplicate by eauto. done.
    + rewrite addInput_returns by done. cbn. apply IH. cbn.
      intros [Hnd Hfresh]. apply Hbad. cbn.
      assert (nt_name nt ∉ nt_name <$> rest) as Hnotin.
      { intros Hin. specialize (Hfresh _ Hin). by rewrite lookup_insert_eq in Hfresh. }
      split; [by apply NoDup_cons|].
      intros name [->|Hin]%elem_of_cons; [done|].
      specialize (Hfresh _ Hin). rewrite lookup_insert_ne in Hfresh; [done|].
      intros <-. done.
Qed.

(** C9, as the code has it.  On a chain without steps and for columns of
    pairwise distinct names, [lastStep(columns)] returns: a DAG with one INPUT
    per column, in order, is put in a fresh cell of the store, a new
    ExpressionActionsStep holding the pointer to it is the only step of the
    chain, and the reference returned is to that step.  For columns with a
    repeated name the constructor of the DAG throws the DuplicateInput
    exception, and so does [lastStep].  On a chain with steps the store and
    the chain are unchanged and the reference is to the last step. *)
Theorem lastStep_appends_on_empty_chain
    (ctx : ContextRef) (columns : NamesAndTypesList) (σ : Store)
    (ss : list Step) (s : Step) :
  (NoDup (nt_name <$> columns) ->
   exists d,
      ActionsDAG_from_inputs columns = Returns d
      /\ nodes d = input_of <$> columns
      /\ Index.idx_list (index d) = seq 0 (length columns)
      /\ settings d = default_settings
      /\ lastStep columns σ (mkChain ctx [])
         = Returns (σ ++ [d],
                    mkChain ctx [ExpressionActionsStep (Step_new []) (Some (length σ))], 0)
      /\ get (Some (length σ)) (σ ++ [d]) = Some d)
  /\ (~ NoDup (nt_name <$> columns) ->
      ActionsDAG_from_inputs columns
      = Throws (mkException "Duplicate input" DUPLICATE_INPUT)
      /\ lastStep columns σ (mkChain ctx [])
         = Throws (mkException "Duplicate input" DUPLICATE_INPUT))
  /\ lastStep columns σ (mkChain ctx (ss ++ [s]))
     = Returns (σ, mkChain ctx (ss ++ [s]), length ss)
  /\ at_ (length ss) (mkChain ctx (ss ++ [s])) = Some s.
Proof.
  split; [|split].
  - intros Hnd.
    destruct (addInputs_returns columns ActionsDAG_default Hnd) as (d & Hd & Hn & Hl & Hs).
    { intros name _. apply lookup_empty. }
    exists d. unfold ActionsDAG_from_inputs. split; [done|].
    split; [done|]. split; [done|]. split; [done|]. split.
    + unfold lastStep, ActionsDAG_from_inputs. cbn [steps vector_empty].
      rewrite Hd. reflexivity.
    + cbn. by rewrite lookup_app_r, Nat.sub_diag.
  - intros Hdup.
    assert (ActionsDAG_from_inputs columns
            = Throws (mkException "Duplicate input" DUPLICATE_INPUT)) as Hthrow.
    { apply addInputs_throws. by intros [Hnd _]. }
    split; [done|]. unfold lastStep. cbn [steps vector_empty]. by rewrite Hthrow.
  - destruct (back_ref_snoc ctx ss s) as [Hback Hat]. split; [|done].
    unfold lastStep. cbn [steps]. rewrite vector_empty_snoc, Hback. done.
Qed.

Lemma lastStep_appends_on_empty_chain_witness :
  (exists d,
      ActionsDAG_from_inputs
        [mkNameAndTypePair "a" (Some DataTypeInt64); mkNameAndTypePair "b" (Some DataTypeString)]
      = Returns d
      /\ nodes d = input_of <$> [mkNameAndTypePair "a" (Some DataTypeInt64);
                                 mkNameAndTypePair "b" (Some DataTypeString)]
      /\ Index.idx_list (index d) = seq 0 2
      /\ settings d = default_settings
      /\ lastStep [mkNameAndTypePair "a" (Some DataTypeInt64);
                   mkNameAndTypePair "b" (Some DataTypeString)] [] (mkChain 0 [])
         = Returns ([] ++ [d],
                    mkChain 0 [ExpressionActionsStep (Step_new []) (Some 0)], 0)
      /\ get (Some 0) ([] ++ [d]) = Some d)
  /\ lastStep [mkNameAndTypePair "a" (Some DataTypeInt64);
               mkNameAndTypePair "b" (Some DataTypeString)] []
       (mkChain 0 ([] ++ [JoinStep (Step_new []) None None [] []]))
     = Returns ([], mkChain 0 ([] ++ [JoinStep (Step_new []) None None [] []]), 0)
  /\ at_ 0 (mkChain 0 ([] ++ [JoinStep (Step_new []) None None [] []]))
     = Some (JoinStep (Step_new []) None None [] []).
Proof.
  destruct (lastStep_appends_on_empty_chain 0
              [mkNameAndTypePair "a" (Some DataTypeInt64);
               mkNameAndTypePair "b" (Some DataTypeString)] []
              [] (JoinStep (Step_new []) None None [] [])) as (Hempty & _ & Hlast).
  split; [|exact Hlast].
  apply Hempty. cbn. apply NoDup_cons. split.
  - rewrite list_elem_of_singleton. discriminate.
  - apply NoDup_singleton.
Defined.

(** C9, as the claim has it, fails: for two columns of one name the
    constructor of the DAG throws, and so does [lastStep]. *)
Lemma lastStep_duplicate_columns_counterexample :
  ~ (forall (columns : NamesAndTypesList) (σ : Store) (ctx : ContextRef),
       exists r, lastStep columns σ (mkChain ctx []) = Returns r).
Proof.
  intros H.
  destruct (H [mkNameAndTypePair "a" (Some DataTypeInt64);
               mkNameAndTypePair "a" (Some DataTypeInt64)] [] 0) as [r Hr].
  unfold lastStep, ActionsDAG_from_inputs in Hr. cbn [steps vector_empty addInputs] in Hr.
  rewrite addInput_returns in Hr by apply lookup_empty.
  cbn [mbind outcome_bind fst nt_name nt_type] in Hr.
  rewrite addInput_duplicate in Hr; [discriminate|].
  cbn. rewrite lookup_insert_eq. eauto.
Qed.

(** ** Execution: the limits *)

Lemma bind_Returns {A B} (m : outcome A) (f : A -> outcome B) (b : B) :
  m ≫= f = Returns b -> exists a, m = Returns a /\ f a = Returns b.
Proof. destruct m; cbn; [eauto|done..]. Qed.

Lemma bind_Throws {A B} (m : outcome A) (f : A -> outcome B) (e : Exception) :
  m = Throws e -> m ≫= f = Throws e.
Proof. by intros ->. Qed.

Lemma checkLimits_Returns max max_non_const cs :
  checkLimits max max_non_const cs = Returns () <->
  (max <> 0 -> live_columns cs <= max)
  /\ (max_non_const <> 0 -> non_const_columns cs <= max_non_const).
Proof.
  unfold checkLimits. repeat case_decide; split; try done; try lia.
  all: intros [H1 H2]; exfalso; lia.
Qed.

Lemma checkLimits_cases max max_non_const cs :
  checkLimits max max_non_const cs = Returns ()
  \/ (checkLimits max max_non_const cs = Throws TooManyTemporaryColumns
      /\ max <> 0 /\ max < live_columns cs)
  \/ (checkLimits max max_non_const cs = Throws TooManyTemporaryNonConstColumns
      /\ max_non_const <> 0 /\ max_non_const < non_const_columns cs
      /\ (max <> 0 -> live_columns cs <= max)).
Proof.
  unfold checkLimits. repeat case_decide; [right; left|right; right|left].
  - intuition.
  - repeat split; try tauto. lia.
  - done.
Qed.

Lemma checkLimits_unlimited cs : checkLimits 0 0 cs = Returns ().
Proof. apply checkLimits_Returns. done. Qed.

(** Every state the loop visits either passes the check, or is the state at
    which the loop throws what the check throws. *)
Lemma visited_checked dag max max_non_const dry_run acts : forall ctx c,
  c ∈ visited dag max max_non_const dry_run acts ctx ->
  checkLimits max max_non_const (columns c) = Returns ()
  \/ exists e, checkLimits max max_non_const (columns c) = Throws e
               /\ executeActions dag max max_non_const dry_run acts ctx = Throws e.
Proof.
  induction acts as [|a rest IH]; intros ctx c Hc; cbn in Hc.
  - by apply elem_of_nil in Hc.
  - cbn. destruct (executeAction dag dry_run a ctx) as [ctx'| |] eqn:Ha;
      [|by apply elem_of_nil in Hc..].
    cbn. apply elem_of_cons in Hc as [->|Hc].
    + destruct (checkLimits max max_non_const (columns ctx')) as [[]|e|] eqn:Hl.
      * by left.
      * right. exists e. done.
      * unfold checkLimits in Hl. by repeat case_decide.
    + destruct (checkLimits max max_non_const (columns ctx')) as [[]|e|] eqn:Hl;
        [|by apply elem_of_nil in Hc..].
      cbn. by apply IH.
Qed.

(** When the loop returns, the state it returns is the last one visited. *)
Lemma visited_last dag max max_non_const dry_run acts : forall ctx ctx',
  executeActions dag max max_non_const dry_run acts ctx = Returns ctx' ->
  last (ctx :: visited dag max max_non_const dry_run acts ctx) = Some ctx'
  /\ length (visited dag max max_non_const dry_run acts ctx) = length acts.
Proof.
  induction acts as [|a rest IH]; intros ctx ctx' H; cbn in H.
  - by injection H as <-.
  - apply bind_Returns in H as (c1 & Ha & H).
    apply bind_Returns in H as ([] & Hl & H).
    cbn [visited]. rewrite Ha, Hl. destruct (IH _ _ H) as [Hlast Hlen].
    split; [|cbn; by rewrite Hlen].
    by rewrite last_cons_cons.
Qed.

Lemma execute_throws_of_loop ea block rows dry_run cs e :
  forallb (carries block) (required_columns ea) = true ->
  place_all (ea_dag ea) (dropUnreferenced ea block) rows (initial_positions ea)
    (replicate (num_columns ea) empty_slot) = Returns cs ->
  executeActions (ea_dag ea) (max_temporary_columns (getSettings (ea_dag ea)))
    (max_temporary_non_const_columns (getSettings (ea_dag ea))) dry_run (actions ea)
    {| inputs := dropUnreferenced ea block; columns := cs; num_rows := rows |} = Throws e ->
  execute ea block rows dry_run = Throws e.
Proof.
  intros Hv Hp Hl. unfold execute, run. rewrite Hv, Hp. cbn. by rewrite Hl.
Qed.


(** ** Execution: the schema of the result *)

Lemma slot_sim_refl c : slot_sim c c.
Proof. done. Qed.

Lemma slot_sim_live a b col :
  slot_sim a b -> cwtn_column b = Some col -> exists col', cwtn_column a = Some col'.
Proof.
  intros (_ & _ & Hlive) Hb. unfold is_live in Hlive. rewrite Hb in Hlive.
  destruct (cwtn_column a); [eauto|done].
Qed.

Lemma write_slot_sim p c1 c2 cs1 cs2 :
  slots_sim cs1 cs2 -> slot_sim c1 c2 ->
  follows slots_sim (write_slot p c1 cs1) (write_slot p c2 cs2).
Proof.
  intros Hcs Hc b. unfold write_slot. rewrite (Forall2_length _ _ _ Hcs).
  case_decide; [|done]. intros [= <-]. eexists. split; [done|].
  by apply Forall2_insert.
Qed.

Lemma read_slot_sim p cs1 cs2 :
  slots_sim cs1 cs2 ->
  follows (fun x y => slot_sim x.1 y.1) (read_slot p cs1) (read_slot p cs2).
Proof.
  intros Hcs [c2 col2]. unfold read_slot.
  destruct (cs2 !! p) as [c|] eqn:Hp2; [|done].
  destruct (cwtn_column c) as [col|] eqn:Hcol; [|done]. intros [= -> ->].
  destruct (Forall2_lookup_r _ _ _ _ _ Hcs Hp2) as (c1 & Hp1 & Hsim).
  destruct (slot_sim_live _ _ _ Hsim Hcol) as [col1 Hcol1].
  rewrite Hp1, Hcol1. by eexists.
Qed.

Lemma read_arguments_sim args cs1 cs2 :
  slots_sim cs1 cs2 ->
  follows (Forall2 (fun x y => slot_sim x.1 y.1))
    (read_arguments args cs1) (read_arguments args cs2).
Proof.
  intros Hcs. induction args as [|a rest IH]; intros b; cbn.
  - intros [= <-]. eexists. split; [done|]. constructor.
  - intros (x2 & Hx2 & H)%bind_Returns. apply bind_Returns in H as (r2 & Hr2 & [= <-]).
    destruct (read_slot_sim _ _ _ Hcs _ Hx2) as (x1 & -> & Hx).
    destruct (IH _ Hr2) as (r1 & -> & Hr). cbn. eexists. split; [done|].
    by constructor.
Qed.

Lemma free_arguments_sim args : forall cs1 cs2,
  slots_sim cs1 cs2 -> slots_sim (free_arguments args cs1) (free_arguments args cs2).
Proof.
  unfold free_arguments. induction args as [|a rest IH]; intros cs1 cs2 Hcs; cbn; [done|].
  apply IH. destruct (needed_later a); [done|]. by apply Forall2_insert.
Qed.

Lemma replicate_slot_sim lens1 lens2 a b :
  slot_sim a b -> slot_sim (replicate_slot lens1 a) (replicate_slot lens2 b).
Proof.
  intros (Hn & Ht & Hl). repeat split; [done..|].
  unfold is_live in *. cbn.
  by destruct (cwtn_column a), (cwtn_column b).
Qed.

Lemma replicate_slots_sim lens1 lens2 cs1 cs2 :
  slots_sim cs1 cs2 ->
  slots_sim (replicate_slot lens1 <$> cs1) (replicate_slot lens2 <$> cs2).
Proof.
  intros Hcs. apply Forall2_fmap. eapply Forall2_impl; [exact Hcs|].
  intros a b. apply replicate_slot_sim.
Qed.

Lemma result_slot_sim n col1 col2 : slot_sim (result_slot n col1) (result_slot n col2).
Proof. done. Qed.

Lemma computeAction_sim n dry1 dry2 args1 args2 c1 c2 :
  ctx_sim c1 c2 ->
  Forall2 (fun x y => slot_sim x.1 y.1) args1 args2 ->
  follows (fun x y => slots_sim x.1.1 y.1.1)
    (computeAction n dry1 args1 c1) (computeAction n dry2 args2 c2).
Proof.
  intros Hsim Hargs b. unfold computeAction. destruct (type n); try done.
  - destruct Hargs as [|[x1 col1] [x2 col2] r1 r2 Hx Hr]; [done|].
    destruct Hr; [|done]. intros [= <-]. by eexists.
  - destruct Hargs as [|[x1 col1] [x2 col2] r1 r2 Hx Hr]; [done|].
    destruct Hr; [|done]. destruct Hx as (_ & Hty & _). cbn in Hty. rewrite Hty.
    destruct (cwtn_type x2) as [[| |t]|]; try done.
    intros [= <-]. eexists. split; [done|]. by apply replicate_slots_sim.
  - destruct (function n); [|done]. intros [= <-]. by eexists.
Qed.

Lemma executeAction_sim dag dry1 dry2 a c1 c2 :
  ctx_sim c1 c2 ->
  follows ctx_sim (executeAction dag dry1 a c1) (executeAction dag dry2 a c2).
Proof.
  intros Hsim b. unfold executeAction.
  destruct (nodes dag !! node a) as [n|]; [|done].
  intros (args2 & Hargs2 & H)%bind_Returns.
  destruct (read_arguments_sim _ _ _ Hsim _ Hargs2) as (args1 & -> & Hargs).
  cbn [mbind outcome_bind].
  apply bind_Returns in H as (r2 & Hr2 & H).
  destruct (computeAction_sim n dry1 dry2 _ _ _ _ Hsim Hargs _ Hr2) as (r1 & -> & Hcs).
  cbn [mbind outcome_bind].
  apply bind_Returns in H as (cs2' & Hw & [= <-]).
  destruct (write_slot_sim (result_position a) (result_slot n r1.1.2) (result_slot n r2.1.2)
              _ _ Hcs (result_slot_sim n _ _) _ Hw) as (cs1' & -> & Hcs').
  cbn. eexists. split; [done|]. by apply free_arguments_sim.
Qed.

(** The loop on the data under limits, against the loop on the sample without
    limits. *)
Lemma executeActions_sim dag max max_non_const dry1 dry2 acts : forall c1 c2 c2',
  ctx_sim c1 c2 ->
  executeActions dag 0 0 dry2 acts c2 = Returns c2' ->
  match executeActions dag max max_non_const dry1 acts c1 with
  | Returns c1' => ctx_sim c1' c2'
  | Throws e =>
      exists ctx,
        ctx ∈ visited dag max max_non_const dry1 acts c1
        /\ ((e = TooManyTemporaryColumns
             /\ max <> 0 /\ max < live_columns (columns ctx))
            \/ (e = TooManyTemporaryNonConstColumns
                /\ max_non_const <> 0 /\ max_non_const < non_const_columns (columns ctx)))
  | Undefined => False
  end.
Proof.
  induction acts as [|a rest IH]; intros c1 c2 c2' Hsim H; cbn in H |- *.
  - by injection H as <-.
  - apply bind_Returns in H as (x2 & Ha2 & H).
    rewrite checkLimits_unlimited in H. cbn in H.
    destruct (executeAction_sim dag dry1 dry2 a _ _ Hsim _ Ha2) as (x1 & -> & Hx).
    cbn [mbind outcome_bind].
    destruct (checkLimits_cases max max_non_const (columns x1))
      as [Hc|[(Hc & ? & ?)|(Hc & ? & ? & _)]]; rewrite Hc; cbn.
    + specialize (IH _ _ _ Hx H).
      destruct (executeActions dag max max_non_const dry1 rest x1); [done| |done].
      destruct IH as (ctx & Hin & Hwhy). exists ctx. split; [|done].
      by apply elem_of_cons; right.
    + exists x1. split; [apply elem_of_cons; by left|]. left. done.
    + exists x1. split; [apply elem_of_cons; by left|]. right. done.
Qed.

Lemma findByName_Some name block c :
  findByName name block = Some c -> cwtn_name c = name /\ c ∈ block.
Proof.
  unfold findByName. intros [Hin Hname]%find_some.
  apply bool_decide_eq_true in Hname. split; [done|]. by apply list_elem_of_In.
Qed.

Lemma findByName_filter name (names : Names) block :
  findByName name (filter (fun c => cwtn_name c ∈ names) block)
  = if decide (name ∈ names) then findByName name block else None.
Proof.
  unfold findByName. induction block as [|c rest IH].
  - cbn. by case_decide.
  - rewrite filter_cons. destruct (decide (cwtn_name c ∈ names)) as [Hin|Hout].
    + cbn [find]. case_bool_decide as Hname; [|done]. subst. by rewrite decide_True.
    + rewrite IH. cbn [find]. case_bool_decide as Hname; [|done]. subst.
      by rewrite !decide_False.
Qed.

Lemma findByName_header name cols h :
  findByName name (header cols) = Some h ->
  exists nt, nt ∈ cols /\ nt_name nt = name
             /\ h = {| cwtn_column := Some (ColumnFull []);
                       cwtn_type := nt_type nt; cwtn_name := nt_name nt |}.
Proof.
  intros [Hname Hin]%findByName_Some. unfold header in Hin.
  apply list_elem_of_fmap in Hin as (nt & -> & Hnt). exists nt. done.
Qed.

Lemma carries_block_sim ea block :
  forallb (carries block) (required_columns ea) = true ->
  block_sim (dropUnreferenced ea block) (dropUnreferenced ea (header (required_columns ea))).
Proof.
  intros Hv name h Hh.
  assert (findByName name (header (required_columns ea)) = Some h
          /\ name ∈ getRequiredColumns ea) as [Hh' Hname].
  { unfold dropUnreferenced in Hh. destruct (project_input _).
    - rewrite findByName_filter in Hh. by case_decide.
    - split; [done|]. apply findByName_header in Hh as (nt & Hnt & <- & _).
      unfold getRequiredColumns. by apply list_elem_of_fmap_2. }
  apply findByName_header in Hh' as (nt & Hnt & <- & ->).
  rewrite forallb_forall in Hv. specialize (Hv nt). rewrite <- list_elem_of_In in Hv.
  specialize (Hv Hnt). unfold carries in Hv.
  destruct (findByName (nt_name nt) block) as [c|] eqn:Hc; [|done].
  apply andb_true_iff in Hv as [Hty Hlive]. apply bool_decide_eq_true in Hty.
  exists c. split.
  - unfold dropUnreferenced. destruct (project_input _); [|done].
    rewrite findByName_filter. by rewrite decide_True.
  - apply findByName_Some in Hc as [Hcn _]. repeat split; [done..|].
    by rewrite Hlive.
Qed.

Lemma place_sim dag block sample rows1 rows2 cs1 cs2 p :
  block_sim block sample -> slots_sim cs1 cs2 ->
  follows slots_sim (place dag block rows1 cs1 p) (place dag sample rows2 cs2 p).
Proof.
  intros Hb Hcs b. unfold place. destruct (nodes dag !! p.1) as [n|]; [|done].
  destruct (type n); try done.
  - destruct (findByName (result_name n) sample) as [h|] eqn:Hh; [|done].
    destruct (Hb _ _ Hh) as (c & -> & Hc). by apply write_slot_sim.
  - destruct (column n) as [col|]; [|done].
    apply write_slot_sim; [done|]. apply result_slot_sim.
Qed.

Lemma place_all_sim dag block sample rows1 rows2 ps : forall cs1 cs2,
  block_sim block sample -> slots_sim cs1 cs2 ->
  follows slots_sim (place_all dag block rows1 ps cs1) (place_all dag sample rows2 ps cs2).
Proof.
  induction ps as [|p rest IH]; intros cs1 cs2 Hb Hcs b; cbn.
  - intros [= <-]. by eexists.
  - intros (x2 & Hx2 & H)%bind_Returns.
    destruct (place_sim dag _ _ rows1 rows2 _ _ p Hb Hcs _ Hx2) as (x1 & -> & Hx).
    cbn. by eapply IH.
Qed.

Lemma rebuild_sim ps cs1 cs2 :
  slots_sim cs1 cs2 ->
  follows (fun b1 b2 => schema b1 = schema b2) (rebuild ps cs1) (rebuild ps cs2).
Proof.
  intros Hcs. induction ps as [|p rest IH]; intros b; cbn.
  - intros [= <-]. by eexists.
  - intros (x2 & Hx2 & H)%bind_Returns. apply bind_Returns in H as (r2 & Hr2 & [= <-]).
    destruct (read_slot_sim _ _ _ Hcs _ Hx2) as (x1 & -> & (Hn & Ht & _)).
    destruct (IH _ Hr2) as (r1 & -> & Hr). cbn. eexists. split; [done|].
    unfold schema in *. cbn. by rewrite Hn, Ht, Hr.
Qed.


(** ** A plan with three live columns *)

Lemma plan_sum_wrapped max : wrapped (plan_sum max).
Proof. reflexivity. Qed.

Lemma plan_sum_returns :
  execute (plan_sum 8) block_ab 3 false = Returns (columns state_sum, 3).
Proof. reflexivity. Qed.

Lemma plan_sum_throws :
  execute (plan_sum 2) block_ab 3 false = Throws TooManyTemporaryColumns.
Proof. reflexivity. Qed.




(** ** The addresses of the copies *)

Lemma rank_S sel p : rank sel (S p) = rank sel p + (if sel p then 1 else 0).
Proof.
  unfold rank. rewrite seq_S, filter_app, length_app. f_equal.
  rewrite Nat.add_0_l, filter_cons, filter_nil. destruct (sel p) eqn:E.
  - by rewrite decide_True.
  - by rewrite decide_False.
Qed.

Lemma rank_mono sel q p : q <= p -> rank sel q <= rank sel p.
Proof.
  induction 1 as [|p Hle IH]; [done|]. rewrite rank_S. lia.
Qed.

Lemma rank_lt sel q p : q < p -> sel q = true -> rank sel q < rank sel p.
Proof.
  intros Hlt Hsel. pose proof (rank_mono sel (S q) p Hlt) as H.
  rewrite rank_S, Hsel in H. lia.
Qed.

(** ** Which nodes depend on the array-joined set *)

Lemma depends_from_tail joined ns : forall deps,
  exists tail,
    depends_from joined deps ns = deps ++ tail
    /\ length tail = length ns
    /\ forall p n, ns !! p = Some n ->
         tail !! p = Some (node_depends joined (deps ++ take p tail) n).
Proof.
  induction ns as [|n rest IH]; intros deps; cbn.
  - exists []. by rewrite app_nil_r.
  - destruct (IH (deps ++ [node_depends joined deps n])) as (tail & -> & Hlen & Hat).
    exists (node_depends joined deps n :: tail). rewrite <- app_assoc. split; [done|].
    split; [cbn; by rewrite Hlen|].
    intros [|p] m Hm; cbn in Hm |- *.
    + injection Hm as <-. by rewrite app_nil_r.
    + etrans; [apply (Hat _ _ Hm)|]. by rewrite <- app_assoc.
Qed.

Lemma depends_length joined d : length (depends joined d) = length (nodes d).
Proof.
  unfold depends. destruct (depends_from_tail joined (nodes d) []) as (tail & -> & Hlen & _).
  done.
Qed.

Lemma depends_at_node joined d p n :
  nodes d !! p = Some n ->
  depends_at (depends joined d) p = node_depends joined (take p (depends joined d)) n.
Proof.
  intros Hn. unfold depends, depends_at.
  destruct (depends_from_tail joined (nodes d) []) as (tail & -> & Hlen & Hat).
  cbn. by rewrite (Hat _ _ Hn).
Qed.

(** ** Reading the children *)

Lemma lookup_all_ext lk1 lk2 ps :
  Forall (fun p => lk1 p = lk2 p) ps -> lookup_all lk1 ps = lookup_all lk2 ps.
Proof.
  induction 1 as [|p ps Hp Hps IH]; cbn; [done|]. by rewrite Hp, IH.
Qed.

Lemma lookup_all_fmap lk (r : NodePtr -> NodePtr) ps :
  lookup_all lk (r <$> ps) = lookup_all (fun p => lk (r p)) ps.
Proof. induction ps as [|p ps IH]; cbn; [done|]. by rewrite IH. Qed.

Lemma lookup_all_length lk ps args :
  lookup_all lk ps = Returns args -> length args = length ps.
Proof.
  revert args. induction ps as [|p ps IH]; intros args; cbn.
  - by intros [= <-].
  - destruct (lk p) as [c|]; [|done]. destruct (cwtn_column c); [|done].
    intros (r & Hr & [= <-])%bind_Returns. cbn. by rewrite (IH _ Hr).
Qed.

Lemma node_result_ext n block1 block2 lk1 lk2 rows :
  (type n = INPUT ->
   findByName (result_name n) block1 = findByName (result_name n) block2) ->
  Forall (fun p => lk1 p = lk2 p) (children n) ->
  node_result n block1 lk1 rows = node_result n block2 lk2 rows.
Proof.
  intros Hb Hlk. unfold node_result. rewrite (lookup_all_ext _ _ _ Hlk).
  destruct (type n); try done. unfold carries. cbn. by rewrite Hb.
Qed.

Lemma node_result_remap sel n block lk rows :
  node_result (remap sel n) block lk rows
  = node_result n block (fun c => lk (rank sel c)) rows.
Proof.
  unfold node_result, remap. cbn. by rewrite lookup_all_fmap.
Qed.

Lemma findByName_fmap (g : ColumnWithTypeAndName -> ColumnWithTypeAndName) name block :
  (forall c, cwtn_name (g c) = cwtn_name c) ->
  findByName name (g <$> block) = g <$> findByName name block.
Proof.
  intros Hg. unfold findByName. induction block as [|c rest IH]; cbn; [done|].
  rewrite Hg. by case_bool_decide.
Qed.

(** ** The invariants of a DAG *)

Lemma dag_ok_node d p n : dag_ok d = true -> nodes d !! p = Some n -> node_ok p n = true.
Proof.
  intros Hok Hn. unfold dag_ok in Hok.
  apply andb_true_iff in Hok as [H _].
  rewrite forallb_forall in H. apply (H (p, n)).
  apply list_elem_of_In, list_elem_of_lookup. exists p.
  by rewrite list_lookup_imap, Hn.
Qed.

Lemma dag_ok_index d p :
  dag_ok d = true -> p ∈ Index.idx_list (index d) -> p < length (nodes d).
Proof.
  intros Hok Hp. unfold dag_ok in Hok.
  apply andb_true_iff in Hok as [_ H].
  rewrite forallb_forall in H. apply list_elem_of_In, H in Hp.
  by apply bool_decide_eq_true in Hp.
Qed.

Lemma children_lt d p n :
  dag_ok d = true -> nodes d !! p = Some n -> Forall (fun c => c < p) (children n).
Proof.
  intros Hok Hn. apply (dag_ok_node _ _ _ Hok) in Hn.
  unfold node_ok in Hn. apply andb_true_iff in Hn as [H _].
  rewrite forallb_forall in H. apply Forall_forall. intros c Hc.
  apply list_elem_of_In, H in Hc. by apply bool_decide_eq_true in Hc.
Qed.

Lemma node_ok_kind d p n :
  dag_ok d = true -> nodes d !! p = Some n ->
  match type n with
  | INPUT => children n = []
  | COLUMN => children n = [] /\ exists col, column n = Some col
  | ALIAS | ARRAY_JOIN => length (children n) = 1
  | FUNCTION => exists f, function n = Some f
  end.
Proof.
  intros Hok Hn. apply (dag_ok_node _ _ _ Hok) in Hn.
  unfold node_ok in Hn. apply andb_true_iff in Hn as [_ H].
  destruct (type n).
  - by apply bool_decide_eq_true in H.
  - apply andb_true_iff in H as [H1 H2]. apply bool_decide_eq_true in H1.
    split; [done|]. destruct (column n) as [col|]; [|done]. eauto.
  - by apply bool_decide_eq_true in H.
  - by apply bool_decide_eq_true in H.
  - destruct (function n) as [f|]; [|done]. eauto.
Qed.

Lemma constant_column d p n col :
  constant_columns d = true -> nodes d !! p = Some n ->
  type n = COLUMN -> column n = Some col -> isColumnConst col = true.
Proof.
  intros Hconst Hn Hty Hcol. unfold constant_columns in Hconst.
  rewrite forallb_forall in Hconst.
  specialize (Hconst n (proj1 (list_elem_of_In _ _) (list_elem_of_lookup_2 _ _ _ Hn))).
  by rewrite Hty, Hcol in Hconst.
Qed.

(** ** Collecting over an arena *)

Lemma collect_app {A} (f : NodePtr -> Node -> option A) ns1 : forall p ns2,
  collect f p (ns1 ++ ns2) = collect f p ns1 ++ collect f (p + length ns1) ns2.
Proof.
  induction ns1 as [|n ns1 IH]; intros p ns2; cbn.
  - by rewrite Nat.add_0_r.
  - rewrite IH. replace (S p + length ns1) with (p + S (length ns1)) by lia.
    by destruct (f p n).
Qed.

(** ** Which nodes are still needed *)

Lemma needed_from_spec d t c :
  needed_from d t c = true <->
  c ∈ Index.idx_list (index d)
  \/ exists q n, nodes d !! q = Some n /\ t <= q /\ c ∈ children n.
Proof.
  unfold needed_from. rewrite orb_true_iff, bool_decide_eq_true, existsb_exists.
  split; intros [H|H]; [by left| |by left|]; right.
  - destruct H as ([q n] & Hin & H). apply andb_true_iff in H as [H1 H2].
    apply bool_decide_eq_true in H1, H2. cbn in *.
    apply list_elem_of_In, list_elem_of_lookup in Hin as [i Hi].
    rewrite list_lookup_imap in Hi.
    destruct (nodes d !! i) as [m|] eqn:Hm; [|done]. injection Hi as <- <-. eauto.
  - destruct H as (q & n & Hn & Hle & Hc). exists (q, n). split.
    + apply list_elem_of_In, list_elem_of_lookup. exists q.
      by rewrite list_lookup_imap, Hn.
    + cbn. apply andb_true_iff. by rewrite !bool_decide_eq_true.
Qed.

Lemma needed_from_mono d t t' c :
  t <= t' -> needed_from d t' c = true -> needed_from d t c = true.
Proof.
  intros Hle. rewrite !needed_from_spec. intros [H|(q & n & Hn & Hq & Hc)]; [by left|].
  right. exists q, n. split; [done|]. split; [lia|done].
Qed.

Lemma needed_from_consumer d p n c t :
  nodes d !! p = Some n -> c ∈ children n -> t <= p -> needed_from d t c = true.
Proof. intros Hn Hc Hle. apply needed_from_spec. right. eauto. Qed.

Lemma needed_from_index d t q :
  q ∈ Index.idx_list (index d) -> needed_from d t q = true.
Proof. intros Hq. apply needed_from_spec. by left. Qed.

(** ** The assignments of slots *)

Section Slots.

Variable slots : list nat.
Variable d : ActionsDAG.
Hypothesis Hslots : slots_ok slots d = true.

Lemma slots_ok_length : length slots = length (nodes d).
Proof.
  pose proof Hslots as H. unfold slots_ok in H.
  apply andb_true_iff in H as [H _]. by apply bool_decide_eq_true in H.
Qed.

Lemma slots_ok_at p n :
  nodes d !! p = Some n ->
  if is_action n then
    forallb (fun qm =>
        implb (negb (bool_decide (qm.1 = p))
               && occupies qm.2 qm.1 p && needed_from d (S p) qm.1)
              (negb (bool_decide (slot slots qm.1 = slot slots p))))
      (imap pair (nodes d)) = true
    /\ forallb (fun c =>
         needed_from d (S p) c
         || forallb (fun qm =>
                implb (negb (bool_decide (qm.1 = c))
                       && occupies qm.2 qm.1 (S p) && needed_from d (S p) qm.1)
                      (negb (bool_decide (slot slots qm.1 = slot slots c))))
              (imap pair (nodes d)))
         (children n) = true
  else
    forallb (fun qm =>
        implb (negb (is_action qm.2) && negb (bool_decide (qm.1 = p)))
              (negb (bool_decide (slot slots qm.1 = slot slots p))))
      (imap pair (nodes d)) = true.
Proof.
  intros Hn. pose proof Hslots as H. unfold slots_ok in H.
  apply andb_true_iff in H as [_ H]. rewrite forallb_forall in H.
  specialize (H (p, n)). cbn in H.
  destruct (is_action n).
  - apply andb_true_iff, H, list_elem_of_In, list_elem_of_lookup. exists p.
    by rewrite list_lookup_imap, Hn.
  - apply H, list_elem_of_In, list_elem_of_lookup. exists p.
    by rewrite list_lookup_imap, Hn.
Qed.

Lemma imap_pair_elem q m : nodes d !! q = Some m -> In (q, m) (imap pair (nodes d)).
Proof.
  intros Hm. apply list_elem_of_In, list_elem_of_lookup. exists q.
  by rewrite list_lookup_imap, Hm.
Qed.

Lemma slots_ok_write p n q m :
  nodes d !! p = Some n -> is_action n = true ->
  nodes d !! q = Some m -> q <> p -> occupies m q p = true ->
  needed_from d (S p) q = true ->
  slot slots q <> slot slots p.
Proof.
  intros Hn Ha Hm Hne Hocc Hneed. pose proof (slots_ok_at _ _ Hn) as H.
  rewrite Ha in H. destruct H as [H _]. rewrite forallb_forall in H.
  specialize (H _ (imap_pair_elem _ _ Hm)). cbn in H.
  rewrite Hocc, Hneed, bool_decide_eq_false_2 in H by done. cbn in H.
  by apply negb_true_iff, bool_decide_eq_false in H.
Qed.

Lemma slots_ok_free p n c q m :
  nodes d !! p = Some n -> is_action n = true ->
  c ∈ children n -> needed_from d (S p) c = false ->
  nodes d !! q = Some m -> q <> c -> occupies m q (S p) = true ->
  needed_from d (S p) q = true ->
  slot slots q <> slot slots c.
Proof.
  intros Hn Ha Hc Hfree Hm Hne Hocc Hneed. pose proof (slots_ok_at _ _ Hn) as H.
  rewrite Ha in H. destruct H as [_ H]. rewrite forallb_forall in H.
  apply list_elem_of_In in Hc. specialize (H _ Hc). rewrite Hfree in H. cbn in H.
  rewrite forallb_forall in H.
  specialize (H _ (imap_pair_elem _ _ Hm)). cbn in H.
  rewrite Hocc, Hneed, bool_decide_eq_false_2 in H by done. cbn in H.
  by apply negb_true_iff, bool_decide_eq_false in H.
Qed.

Lemma slots_ok_initial p n q m :
  nodes d !! p = Some n -> is_action n = false ->
  nodes d !! q = Some m -> is_action m = false -> q <> p ->
  slot slots q <> slot slots p.
Proof.
  intros Hn Ha Hm Ham Hne. pose proof (slots_ok_at _ _ Hn) as H.
  rewrite Ha in H. rewrite forallb_forall in H.
  specialize (H _ (imap_pair_elem _ _ Hm)). cbn in H.
  rewrite Ham, bool_decide_eq_false_2 in H by done. cbn in H.
  by apply negb_true_iff, bool_decide_eq_false in H.
Qed.

Lemma slot_lt p : p < length (nodes d) -> slot slots p < S (max_list slots).
Proof.
  intros Hp. rewrite <- slots_ok_length in Hp.
  destruct (lookup_lt_is_Some_2 _ _ Hp) as [s Hs]. unfold slot. rewrite Hs. cbn.
  apply Nat.lt_succ_r, max_list_elem_of_le. by eapply list_elem_of_lookup_2.
Qed.

End Slots.

(** ** One action against one node *)

Lemma free_arguments_length args : forall cs, length (free_arguments args cs) = length cs.
Proof.
  unfold free_arguments. induction args as [|a args IH]; intros cs; cbn; [done|].
  rewrite IH. destruct (needed_later a); [done|]. by rewrite length_insert.
Qed.

Lemma free_arguments_lookup args s : forall cs,
  (forall a, a ∈ args -> needed_later a = false -> pos a <> s) ->
  free_arguments args cs !! s = cs !! s.
Proof.
  unfold free_arguments. induction args as [|a args IH]; intros cs Hs; cbn; [done|].
  rewrite IH by (intros b Hb; apply Hs; by right).
  destruct (needed_later a) eqn:Hn; [done|].
  apply list_lookup_insert_ne. apply Hs; [by left|done].
Qed.

Lemma read_arguments_lookup_all (sl : NodePtr -> nat) (nl : NodePtr -> bool)
    (env cs : ColumnsWithTypeAndName) ps args :
  (forall c, c ∈ ps -> cs !! sl c = env !! c) ->
  lookup_all (fun c => env !! c) ps = Returns args ->
  read_arguments ((fun c => mkArgument (sl c) (nl c)) <$> ps) cs = Returns args.
Proof.
  revert args. induction ps as [|c ps IH]; intros args Hcs; cbn.
  - done.
  - unfold read_slot. cbn. rewrite Hcs by by left.
    destruct (env !! c) as [v|]; [|done]. destruct (cwtn_column v) as [col|]; [|done].
    intros (r & Hr & [= <-])%bind_Returns. cbn.
    rewrite (IH r); [done| |done]. intros c' Hc'. apply Hcs. by right.
Qed.

(** The rows of the columns repeated, if an ARRAY_JOIN asks for it. *)
Lemma advance_env r st :
  ev_env (advance r st)
  = match r.2 with
    | None => ev_env st
    | Some lens => replicate_slot lens <$> ev_env st
    end ++ [r.1].
Proof. unfold advance. by destruct r.2. Qed.

Lemma node_result_action n block lk rows r :
  is_action n = true ->
  node_result n block lk rows = Returns r ->
  exists args col,
    lookup_all lk (children n) = Returns args
    /\ r.1 = result_slot n col
    /\ forall ctx, num_rows ctx = rows ->
         computeAction n false args ctx
         = Returns (match r.2 with
                    | None => columns ctx
                    | Some lens => replicate_slot lens <$> columns ctx
                    end, col,
                    match r.2 with
                    | None => rows
                    | Some lens => sum_list lens
                    end).
Proof.
  unfold node_result, computeAction, is_action.
  destruct (type n); try done; intros _.
  - intros (args & Hargs & H)%bind_Returns. exists args.
    destruct args as [|[c col] [|? ?]]; try done. injection H as <-.
    exists col. split; [done|]. split; [done|]. by intros ctx <-.
  - intros (args & Hargs & H)%bind_Returns. exists args.
    destruct args as [|[c col] [|? ?]]; try done.
    destruct (cwtn_type c) as [[| |t]|]; try done. injection H as <-.
    exists (unfold_arrays col). split; [done|]. split; [done|]. intros ctx _. cbn.
    unfold unfold_arrays, array_lengths. by rewrite <- list_fmap_compose.
  - intros (args & Hargs & H)%bind_Returns. exists args.
    destruct (function n) as [f|]; [|done]. injection H as <-.
    eexists. split; [done|]. split; [done|]. by intros ctx <-.
Qed.

Lemma node_result_initial n block lk rows r :
  is_action n = false ->
  node_result n block lk rows = Returns r ->
  r = (initial_value block rows n, None)
  /\ is_live r.1 = true.
Proof.
  unfold node_result, initial_value, is_action.
  destruct (type n) eqn:Hty; try done; intros _.
  - unfold carries. cbn. destruct (findByName (result_name n) block) as [c|]; [|done].
    destruct (bool_decide _ && is_live c) eqn:E; [|done]. intros [= <-].
    by apply andb_true_iff in E as [_ ?].
  - destruct (column n) as [col|]; [|done]. by intros [= <-].
Qed.

Lemma initial_value_replicate lens block rows n :
  (type n = COLUMN -> exists col, column n = Some col /\ isColumnConst col = true) ->
  is_action n = false ->
  initial_value (replicate_slot lens <$> block) (sum_list lens) n
  = replicate_slot lens (initial_value block rows n).
Proof.
  intros Hconst Ha. unfold initial_value, is_action in *.
  destruct (type n) eqn:Hty; try done.
  - rewrite findByName_fmap by done.
    by destruct (findByName (result_name n) block).
  - destruct (Hconst eq_refl) as (col & -> & Hc). cbn.
    destruct col; [done|]. done.
Qed.

Lemma replicate_slot_live lens c : is_live (replicate_slot lens c) = is_live c.
Proof. unfold is_live. cbn. by destruct (cwtn_column c). Qed.

Lemma node_result_live n block lk rows r :
  node_result n block lk rows = Returns r -> is_live r.1 = true.
Proof.
  intros H. destruct (is_action n) eqn:Ha.
  - destruct (node_result_action _ _ _ _ _ Ha H) as (args & col & _ & -> & _). done.
  - by destruct (node_result_initial _ _ _ _ _ Ha H) as [_ ?].
Qed.

Lemma eval_nodes_live ns : forall st st',
  Forall (fun v => is_live v = true) (ev_env st) ->
  eval_nodes ns st = Returns st' ->
  Forall (fun v => is_live v = true) (ev_env st').
Proof.
  induction ns as [|n ns IH]; intros st st' Hlive H; cbn in H.
  - by injection H as <-.
  - apply bind_Returns in H as (st1 & H1 & H). apply (IH st1 st'); [|done]. clear IH H.
    unfold eval_node in H1. apply bind_Returns in H1 as (r & Hr & [= <-]).
    rewrite advance_env. apply Forall_app. split.
    + destruct r.2; [|done]. apply Forall_fmap. eapply Forall_impl; [done|].
      intros v Hv. cbn. by rewrite replicate_slot_live.
    + apply Forall_singleton. by eapply node_result_live.
Qed.

Lemma eval_nodes_length ns : forall st st',
  eval_nodes ns st = Returns st' ->
  length (ev_env st') = length (ev_env st) + length ns.
Proof.
  induction ns as [|n ns IH]; intros st st' H; cbn in H.
  - injection H as <-. cbn. lia.
  - apply bind_Returns in H as (st1 & H1 & H). rewrite (IH _ _ H).
    unfold eval_node in H1. apply bind_Returns in H1 as (r & Hr & [= <-]).
    rewrite advance_env, length_app. cbn. destruct r.2; [rewrite length_fmap|]; lia.
Qed.

Lemma place_all_app d block rows l1 : forall l2 cs,
  place_all d block rows (l1 ++ l2) cs
  = place_all d block rows l1 cs ≫= place_all d block rows l2.
Proof.
  induction l1 as [|p l1 IH]; intros l2 cs; cbn; [done|].
  destruct (place d block rows cs p); cbn; [apply IH|done..].
Qed.

Lemma rebuild_result_columns (sl : NodePtr -> nat) (env cs : ColumnsWithTypeAndName) ps res :
  (forall q, q ∈ ps -> cs !! sl q = env !! q) ->
  Forall (fun v => is_live v = true) env ->
  result_columns_of env ps = Returns res ->
  rebuild (sl <$> ps) cs = Returns res.
Proof.
  intros Hcs Hlive. revert res. induction ps as [|q ps IH]; intros res; cbn; [done|].
  unfold read_slot. rewrite Hcs by by left.
  destruct (env !! q) as [v|] eqn:Hv; [|done].
  assert (is_live v = true) as Hl.
  { eapply Forall_forall in Hlive; [done|]. by eapply list_elem_of_lookup_2. }
  unfold is_live in Hl. destruct (cwtn_column v) as [col|]; [|done].
  intros (r & Hr & [= <-])%bind_Returns. cbn.
  rewrite (IH (fun q' Hq' => Hcs q' (list_elem_of_further _ _ _ Hq')) r Hr). done.
Qed.

(** ** The plan of a DAG computes what the DAG computes *)

Section PlanOfDag.

Variable slots : list nat.
Variable d : ActionsDAG.
Variable sample : Block.
Variable block : Block.
Variable rows : nat.

Hypothesis Hok : dag_ok d = true.
Hypothesis Hconst : constant_columns d = true.
Hypothesis Hslots : slots_ok slots d = true.
Hypothesis Hcarry : inputs_carried d block = true.

Local Abbreviation ea := (linearized slots d sample).
Local Abbreviation M := (S (max_list slots)).

Lemma input_found n :
  n ∈ nodes d -> type n = INPUT ->
  exists c,
    findByName (result_name n) block = Some c
    /\ findByName (result_name n) (dropUnreferenced ea block) = Some c.
Proof.
  intros Hn Hty.
  assert (mkNameAndTypePair (result_name n) (result_type n) ∈ required_columns ea) as Hreq.
  { cbn. apply list_elem_of_omap. exists n. split; [done|]. unfold required_of. by rewrite Hty. }
  pose proof Hcarry as Hc. unfold inputs_carried in Hc. rewrite forallb_forall in Hc.
  specialize (Hc _ (proj1 (list_elem_of_In _ _) Hreq)). unfold carries in Hc. cbn in Hc.
  destruct (findByName (result_name n) block) as [c|] eqn:Hfind; [|done].
  exists c. split; [done|]. unfold dropUnreferenced.
  destruct (project_input _); [|done].
  rewrite findByName_filter, decide_True; [done|].
  unfold getRequiredColumns. apply list_elem_of_fmap.
  by exists (mkNameAndTypePair (result_name n) (result_type n)).
Qed.

Lemma place_from todo : forall done cs,
  nodes d = done ++ todo ->
  length cs = M ->
  (forall q m, q < length done -> nodes d !! q = Some m -> is_action m = false ->
     cs !! slot slots q = Some (initial_value block rows m)) ->
  exists cs',
    place_all d (dropUnreferenced ea block) rows
      (collect (initial_of slots) (length done) todo) cs = Returns cs'
    /\ length cs' = M
    /\ forall q m, nodes d !! q = Some m -> is_action m = false ->
         cs' !! slot slots q = Some (initial_value block rows m).
Proof.
  induction todo as [|n todo IH]; intros done cs Hnodes Hlen Hcs; cbn.
  - exists cs. split; [done|]. split; [done|]. intros q m Hm. apply Hcs; [|done].
    apply lookup_lt_Some in Hm. rewrite Hnodes, app_nil_r in Hm. done.
  - assert (nodes d !! length done = Some n) as Hn.
    { rewrite Hnodes. by rewrite lookup_app_r, Nat.sub_diag. }
    assert (nodes d = (done ++ [n]) ++ todo) as Hnodes' by by rewrite <- app_assoc.
    assert (length (done ++ [n]) = S (length done)) as Hlen'.
    { rewrite length_app. cbn. lia. }
    unfold initial_of at 1. destruct (is_action n) eqn:Ha.
    + specialize (IH (done ++ [n]) cs Hnodes' Hlen). rewrite Hlen' in IH.
      apply IH. intros q m Hq Hm Hma.
      destruct (decide (q = length done)) as [->|Hne]; [congruence|].
      apply Hcs; [lia|done..].
    + assert (place d (dropUnreferenced ea block) rows cs (length done, slot slots (length done))
              = Returns (<[slot slots (length done) := initial_value block rows n]> cs))
        as Hplace.
      { unfold place. cbn. rewrite Hn.
        pose proof (node_ok_kind _ _ _ Hok Hn) as Hkind.
        assert (slot slots (length done) < length cs) as Hlt.
        { rewrite Hlen. apply (slot_lt _ _ Hslots). by eapply lookup_lt_Some. }
        unfold initial_value, is_action in *. destruct (type n) eqn:Hty; try done.
        - destruct (input_found n) as (c & Hc & ->); [by eapply list_elem_of_lookup_2|done|].
          rewrite Hc. cbn. unfold write_slot. by rewrite decide_True.
        - destruct Hkind as (_ & col & ->). cbn. unfold write_slot.
          by rewrite decide_True. }
      cbn [place_all]. rewrite Hplace. cbn [mbind outcome_bind].
      specialize (IH (done ++ [n]) (<[slot slots (length done) := initial_value block rows n]> cs)
                    Hnodes'). rewrite Hlen' in IH. apply IH.
      * by rewrite length_insert.
      * intros q m Hq Hm Hma.
        destruct (decide (q = length done)) as [->|Hne].
        -- rewrite Hn in Hm. injection Hm as <-.
           apply list_lookup_insert_eq. rewrite Hlen. apply (slot_lt _ _ Hslots).
           by eapply lookup_lt_Some.
        -- rewrite list_lookup_insert_ne.
           ++ apply Hcs; [lia|done..].
           ++ intros Heq. by eapply (slots_ok_initial _ _ Hslots _ _ q m Hn Ha Hm Hma).
Qed.

Lemma slots_hold_initial n st cs :
  nodes d !! length (ev_env st) = Some n ->
  is_action n = false ->
  slots_hold slots d (length (ev_env st)) st cs ->
  slots_hold slots d (S (length (ev_env st)))
    (advance (initial_value (ev_block st) (ev_rows st) n, None) st) cs.
Proof.
  intros Hn Ha [Hlen Hhold]. split; [done|]. intros q m Hm Hocc Hneed.
  set (p := length (ev_env st)) in *.
  assert (occupies m q p = true) as Hocc'.
  { unfold occupies in *. apply orb_true_iff in Hocc as [Hocc|Hocc]; [by rewrite Hocc|].
    apply bool_decide_eq_true in Hocc.
    destruct (decide (q = p)) as [->|Hne].
    - rewrite Hn in Hm. injection Hm as <-. by rewrite Ha.
    - apply orb_true_iff. right. apply bool_decide_eq_true. lia. }
  rewrite (Hhold q m Hm Hocc' (needed_from_mono _ _ _ _ (Nat.le_succ_diag_r _) Hneed)).
  f_equal. unfold value, advance. cbn.
  destruct (decide (q < p)) as [Hlt|Hge].
  - by rewrite lookup_app_l.
  - rewrite (lookup_ge_None_2 (ev_env st) q) by (unfold p; lia).
    destruct (decide (q = p)) as [->|Hne].
    + rewrite lookup_app_r, Nat.sub_diag by done. cbn. congruence.
    + rewrite lookup_ge_None_2; [done|]. rewrite length_app. cbn. unfold p in *. lia.
Qed.

Lemma exec_from todo : forall done st cs st',
  nodes d = done ++ todo ->
  length (ev_env st) = length done ->
  slots_hold slots d (length done) st cs ->
  eval_nodes todo st = Returns st' ->
  exists cs',
    executeActions d 0 0 false (collect (action_of slots d) (length done) todo)
      {| inputs := dropUnreferenced ea block; columns := cs; num_rows := ev_rows st |}
    = Returns {| inputs := dropUnreferenced ea block; columns := cs';
                 num_rows := ev_rows st' |}
    /\ slots_hold slots d (length (nodes d)) st' cs'.
Proof.
  induction todo as [|n todo IH]; intros done st cs st' Hnodes Henv Hhold H; cbn in H.
  - injection H as <-. exists cs. split; [done|]. by rewrite Hnodes, app_nil_r.
  - apply bind_Returns in H as (st1 & H1 & H).
    assert (nodes d !! length done = Some n) as Hn.
    { rewrite Hnodes. by rewrite lookup_app_r, Nat.sub_diag. }
    assert (nodes d = (done ++ [n]) ++ todo) as Hnodes' by by rewrite <- app_assoc.
    assert (length (done ++ [n]) = S (length done)) as Hlen'.
    { rewrite length_app. cbn. lia. }
    unfold eval_node in H1. apply bind_Returns in H1 as (r & Hr & [= <-]).
    assert (length (ev_env (advance r st)) = length (done ++ [n])) as Henv'.
    { rewrite advance_env, length_app, Hlen'. cbn.
      destruct r.2; [rewrite length_fmap|]; lia. }
    specialize (IH (done ++ [n]) (advance r st)).
    rewrite Hlen' in IH, Henv'. cbn [collect]. unfold action_of at 1.
    destruct (is_action n) eqn:Ha.
    + (* an action *)
      destruct (node_result_action _ _ _ _ _ Ha Hr) as (args & col & Hargs & Hr1 & Hcompute).
      pose proof (children_lt _ _ _ Hok Hn) as Hlt.
      destruct Hhold as [Hlen Hhold].
      assert (forall c, c ∈ children n -> cs !! slot slots c = ev_env st !! c) as Hread.
      { intros c Hc. eapply Forall_forall in Hlt; [|done].
        destruct (lookup_lt_is_Some_2 (nodes d) c) as [mc Hmc].
        { apply lookup_lt_Some in Hn. lia. }
        rewrite (Hhold c mc Hmc).
        - unfold value. destruct (lookup_lt_is_Some_2 (ev_env st) c) as [v Hv]; [lia|].
          by rewrite Hv.
        - unfold occupies. apply orb_true_iff. right. apply bool_decide_eq_true. lia.
        - by apply (needed_from_consumer _ _ _ _ _ Hn Hc). }
      set (cs2 := match r.2 with
                  | None => cs
                  | Some lens => replicate_slot lens <$> cs
                  end).
      assert (length cs2 = M) as Hlen2.
      { unfold cs2. destruct r.2; [by rewrite length_fmap|done]. }
      set (cs3 := free_arguments
                    ((fun c => mkArgument (slot slots c) (needed_from d (S (length done)) c))
                       <$> children n)
                    (<[slot slots (length done) := r.1]> cs2)).
      destruct (IH cs3 st' Hnodes' Henv') as (cs' & Hexec & Hfinal); [|done|].
      2:{ exists cs'. split; [|done]. cbn [executeActions]. unfold executeAction.
          cbn [node arguments result_position]. rewrite Hn.
          rewrite (read_arguments_lookup_all _ _ _ _ _ _ Hread Hargs).
          cbn [mbind outcome_bind].
          rewrite (Hcompute {| inputs := dropUnreferenced ea block; columns := cs;
                               num_rows := ev_rows st |} eq_refl).
          cbn [mbind outcome_bind fst snd columns]. fold cs2.
          unfold write_slot. rewrite decide_True.
          2:{ rewrite Hlen2. apply (slot_lt _ _ Hslots). by eapply lookup_lt_Some. }
          cbn [mbind outcome_bind inputs]. rewrite <- Hr1. fold cs3.
          rewrite checkLimits_unlimited. cbn [mbind outcome_bind].
          replace (match r.2 with None => ev_rows st | Some lens => sum_list lens end)
            with (ev_rows (advance r st)) by (unfold advance; by destruct r.2).
          exact Hexec. }
      split. { unfold cs3. by rewrite free_arguments_length, length_insert. }
      intros q m Hm Hocc Hneed. unfold cs3.
      rewrite free_arguments_lookup.
      2:{ intros a [c [-> Hc]]%list_elem_of_fmap Hfree. cbn in *.
          intros Heq. symmetry in Heq. revert Heq.
          eapply (slots_ok_free _ _ Hslots _ _ c q m Hn Ha Hc Hfree Hm); [|done..].
          intros ->. congruence. }
      destruct (decide (q = length done)) as [->|Hne].
      * rewrite list_lookup_insert_eq.
        2:{ rewrite Hlen2. apply (slot_lt _ _ Hslots). by eapply lookup_lt_Some. }
        f_equal. unfold value. rewrite advance_env.
        rewrite lookup_app_r; [|destruct r.2; [rewrite length_fmap|]; lia].
        replace (length done - _) with 0; [done|].
        destruct r.2; [rewrite length_fmap|]; lia.
      * assert (occupies m q (length done) = true) as Hocc'.
        { unfold occupies in *. apply orb_true_iff in Hocc as [Hocc|Hocc]; [by rewrite Hocc|].
          apply bool_decide_eq_true in Hocc. apply orb_true_iff. right.
          apply bool_decide_eq_true. lia. }
        rewrite list_lookup_insert_ne.
        2:{ intros Heq. symmetry in Heq. revert Heq.
            by eapply (slots_ok_write _ _ Hslots _ _ q m Hn Ha Hm). }
        pose proof (Hhold q m Hm Hocc'
                      (needed_from_mono _ _ _ _ (Nat.le_succ_diag_r _) Hneed)) as Hq.
        unfold cs2, value. rewrite advance_env. unfold advance.
        destruct (decide (q < length done)) as [Hlt'|Hge].
        -- destruct (lookup_lt_is_Some_2 (ev_env st) q) as [v Hv]; [lia|].
           unfold value in Hq. rewrite Hv in Hq.
           destruct r.2 as [lens|].
           ++ rewrite list_lookup_fmap, Hq. cbn.
              rewrite lookup_app_l by (rewrite length_fmap; lia).
              by rewrite list_lookup_fmap, Hv.
           ++ rewrite Hq, lookup_app_l by lia. by rewrite Hv.
        -- unfold value in Hq. rewrite (lookup_ge_None_2 (ev_env st) q) in Hq by lia.
           assert (is_action m = false) as Hma.
           { unfold occupies in Hocc'. apply orb_true_iff in Hocc' as [Hocc'|Hocc'].
             - by apply negb_true_iff in Hocc'.
             - apply bool_decide_eq_true in Hocc'. lia. }
           destruct r.2 as [lens|]; cbn.
           ++ rewrite list_lookup_fmap, Hq. cbn.
              rewrite lookup_ge_None_2 by (rewrite length_app, length_fmap; cbn; lia).
              f_equal. symmetry. apply initial_value_replicate; [|done].
              intros Hty. pose proof (node_ok_kind _ _ _ Hok Hm) as Hkind.
              rewrite Hty in Hkind. destruct Hkind as (_ & col0 & Hcol0).
              exists col0. split; [done|]. by eapply constant_column.
           ++ rewrite Hq. by rewrite lookup_ge_None_2 by (rewrite length_app; cbn; lia).
    + (* no action *)
      destruct (node_result_initial _ _ _ _ _ Ha Hr) as [-> _].
      apply IH; [done|done| |done].
      rewrite <- Henv in Hn, Hhold |- *. by apply slots_hold_initial.
Qed.

Lemma evaluate_linearized result :
  limits_unset d = true ->
  evaluate d (block, rows) = Returns result ->
  execute ea block rows false = Returns result.
Proof.
  intros Hlim Hev. unfold limits_unset in Hlim.
  apply andb_true_iff in Hlim as [Hl1 Hl2]. apply bool_decide_eq_true in Hl1, Hl2.
  unfold evaluate in Hev. cbn [fst snd] in Hev.
  apply bind_Returns in Hev as (st' & Hst & Hfin).
  unfold execute.
  replace (forallb (carries block) (required_columns ea)) with true
    by (symmetry; exact Hcarry).
  change (ea_dag ea) with d. rewrite Hl1, Hl2. unfold run.
  destruct (place_from (nodes d) [] (replicate M empty_slot)) as (cs0 & Hplace & Hlen0 & Hcs0).
  { done. }
  { by rewrite length_replicate. }
  { cbn. lia. }
  cbn [length] in Hplace.
  change (ea_dag ea) with d.
  change (initial_positions ea) with (collect (initial_of slots) 0 (nodes d)).
  change (num_columns ea) with M.
  change (actions ea) with (collect (action_of slots d) 0 (nodes d)).
  change (result_positions ea) with (slot slots <$> Index.idx_list (index d)).
  rewrite Hplace. cbn [mbind outcome_bind].
  destruct (exec_from (nodes d) [] {| ev_block := block; ev_env := []; ev_rows := rows |}
              cs0 st') as (cs' & Hexec & Hlen' & Hhold); [done|done| |done|].
  { split; [done|]. intros q m Hm Hocc _. unfold value. cbn.
    apply Hcs0; [done|]. unfold occupies in Hocc.
    apply orb_true_iff in Hocc as [Hocc|Hocc]; [by apply negb_true_iff in Hocc|].
    apply bool_decide_eq_true in Hocc. cbn in Hocc. lia. }
  cbn [length ev_rows] in Hexec. rewrite Hexec. cbn [mbind outcome_bind columns num_rows].
  unfold finish in Hfin. apply bind_Returns in Hfin as (res & Hres & [= <-]).
  rewrite (rebuild_result_columns _ (ev_env st') _ _ res); [done| | |done].
  - intros q Hq.
    pose proof (dag_ok_index _ _ Hok Hq) as Hlt.
    destruct (lookup_lt_is_Some_2 _ _ Hlt) as [m Hm].
    rewrite (Hhold q m Hm).
    + unfold value.
      destruct (lookup_lt_is_Some_2 (ev_env st') q) as [v Hv]; [|by rewrite Hv].
      rewrite (eval_nodes_length _ _ _ Hst). cbn. done.
    + unfold occupies. apply orb_true_iff. right. by apply bool_decide_eq_true.
    + by apply needed_from_index.
  - eapply eval_nodes_live; [|done]. cbn. constructor.
Qed.

End PlanOfDag.

(** ** Split: computing a node before or after rows are repeated *)

Lemma lookup_all_spec lk ps args :
  lookup_all lk ps = Returns args ->
  Forall2 (fun p a => lk p = Some a.1 /\ cwtn_column a.1 = Some a.2) ps args.
Proof.
  revert args. induction ps as [|p ps IH]; intros args; cbn.
  - intros [= <-]. constructor.
  - destruct (lk p) as [c|] eqn:Hc; [|done].
    destruct (cwtn_column c) as [col|] eqn:Hcol; [|done].
    intros (r & Hr & [= <-])%bind_Returns. constructor; [done|]. by apply IH.
Qed.

Lemma lookup_all_returns lk ps :
  Forall (fun p => exists v, lk p = Some v /\ is_live v = true) ps ->
  exists args, lookup_all lk ps = Returns args.
Proof.
  induction 1 as [|p ps (v & Hv & Hlive) Hps [args IH]]; cbn; [eauto|].
  rewrite Hv. unfold is_live in Hlive. destruct (cwtn_column v); [|done].
  rewrite IH. cbn. eauto.
Qed.

Lemma carries_fmap (g : ColumnWithTypeAndName -> ColumnWithTypeAndName) block nt :
  (forall c, cwtn_name (g c) = cwtn_name c) ->
  (forall c, cwtn_type (g c) = cwtn_type c) ->
  (forall c, is_live (g c) = is_live c) ->
  carries (g <$> block) nt = carries block nt.
Proof.
  intros Hn Ht Hl. unfold carries. rewrite (findByName_fmap g _ _ Hn).
  destruct (findByName (nt_name nt) block) as [c|]; cbn; [|done]. by rewrite Ht, Hl.
Qed.

Section Lift.

Variable lens : list nat.

Local Abbreviation g := (replicate_slot lens).
Local Abbreviation gc := (replicate_rows lens).

Lemma lift_result_slot n col : g (result_slot n col) = result_slot n (gc col).
Proof. done. Qed.

Lemma lift_resize col rows :
  isColumnConst col = true -> gc (resize col rows) = resize col (sum_list lens).
Proof. by destruct col. Qed.

Lemma lookup_all_lift lk ps args :
  lookup_all lk ps = Returns args ->
  lookup_all (fun p => g <$> lk p) ps = Returns ((fun x => (g x.1, gc x.2)) <$> args).
Proof.
  revert args. induction ps as [|p ps IH]; intros args; cbn.
  - by intros [= <-].
  - destruct (lk p) as [c|]; [|done]. cbn.
    destruct (cwtn_column c) as [col|]; [|done]. cbn.
    intros (r & Hr & [= <-])%bind_Returns. by rewrite (IH _ Hr).
Qed.

Lemma carries_replicate block nt : carries (g <$> block) nt = carries block nt.
Proof. apply carries_fmap; [done..|]. intros c. apply replicate_slot_live. Qed.

Lemma node_result_lift n block lk rows v :
  type n <> ARRAY_JOIN ->
  (type n = COLUMN -> forall col, column n = Some col -> isColumnConst col = true) ->
  (type n = FUNCTION -> forall f args, function n = Some f ->
     lookup_all lk (children n) = Returns args ->
     fn_execute f (gc <$> (snd <$> args)) (sum_list lens)
     = gc (fn_execute f (snd <$> args) rows)) ->
  node_result n block lk rows = Returns (v, None) ->
  node_result n (g <$> block) (fun c => g <$> lk c) (sum_list lens) = Returns (g v, None).
Proof.
  intros Hty Hconst Hfun. unfold node_result.
  destruct (type n) eqn:Htype; [| | | done |].
  - rewrite carries_replicate.
    destruct (carries block _); [|done].
    rewrite findByName_fmap by done.
    destruct (findByName (result_name n) block) as [c|]; [|done]. cbn.
    by intros [= <-].
  - destruct (column n) as [col|] eqn:Hcol; [|done]. intros [= <-].
    rewrite lift_result_slot. specialize (Hconst eq_refl _ eq_refl).
    by rewrite lift_resize.
  - intros (args & Hargs & H)%bind_Returns. rewrite (lookup_all_lift _ _ _ Hargs). cbn.
    destruct args as [|[c col] [|? ?]]; try done. by injection H as <-.
  - intros (args & Hargs & H)%bind_Returns. rewrite (lookup_all_lift _ _ _ Hargs). cbn.
    destruct (function n) as [f|] eqn:Hf; [|done]. injection H as <-.
    rewrite lift_result_slot. do 3 f_equal.
    rewrite <- list_fmap_compose. rewrite <- (Hfun eq_refl f _ eq_refl Hargs).
    f_equal. by rewrite <- list_fmap_compose.
Qed.

End Lift.

(** ** Split: the two halves against the original DAG *)

Section SplitSound.

Variable joined : gset string.
Variable d : ActionsDAG.

Hypothesis Hok : dag_ok d = true.
Hypothesis Hconst : constant_columns d = true.

Local Abbreviation deps := (depends joined d).
Local Abbreviation selA := (in_pre joined d (depends joined d)).
Local Abbreviation selB := (in_post d (depends joined d)).

Lemma depends_at_unfold p n :
  nodes d !! p = Some n ->
  depends_at deps p
  = bool_decide (result_name n ∈ joined)
    || bool_decide (type n = ARRAY_JOIN)
    || (bool_decide (type n = FUNCTION) && row_sensitive n)
    || existsb (depends_at deps) (children n).
Proof.
  intros Hn. rewrite (depends_at_node _ _ _ _ Hn). unfold node_depends. f_equal.
  pose proof (children_lt _ _ _ Hok Hn) as Hlt.
  induction Hlt as [|c cs Hc Hcs IH]; cbn; [done|].
  rewrite IH. f_equal. unfold depends_at. by rewrite lookup_take_lt.
Qed.

Lemma independent_node p n :
  nodes d !! p = Some n -> depends_at deps p = false ->
  (result_name n ∉ joined) /\ type n <> ARRAY_JOIN
  /\ (type n = FUNCTION -> row_sensitive n = false)
  /\ Forall (fun c => c < p /\ depends_at deps c = false) (children n).
Proof.
  intros Hn Hdep. rewrite (depends_at_unfold _ _ Hn) in Hdep.
  apply orb_false_iff in Hdep as [Hdep Hch].
  apply orb_false_iff in Hdep as [Hdep Hrs].
  apply orb_false_iff in Hdep as [Hname Haj].
  apply bool_decide_eq_false in Hname, Haj.
  split; [done|]. split; [done|]. split.
  - intros Hty. rewrite bool_decide_eq_true_2 in Hrs by done. done.
  - pose proof (children_lt _ _ _ Hok Hn) as Hlt.
    apply Forall_forall. intros c Hc. split.
    + by eapply Forall_forall in Hlt.
    + destruct (depends_at deps c) eqn:E; [|done].
      assert (existsb (depends_at deps) (children n) = true) as Hex; [|congruence].
      apply existsb_exists. exists c. split; [by apply list_elem_of_In|done].
Qed.

Lemma independent_in_pre p n :
  nodes d !! p = Some n -> depends_at deps p = false -> selA p = true.
Proof. intros Hn Hdep. unfold in_pre. by rewrite Hn, Hdep. Qed.

Lemma in_pre_node p : selA p = true ->
  exists n, nodes d !! p = Some n
            /\ (depends_at deps p = false \/ is_joined_input joined n = true).
Proof.
  unfold in_pre. destruct (nodes d !! p) as [n|]; [|done].
  intros H. exists n. split; [done|].
  destruct (depends_at deps p); [by right|by left].
Qed.

Lemma joined_input_node p n :
  nodes d !! p = Some n -> is_joined_input joined n = true ->
  type n = INPUT /\ result_name n ∈ joined /\ children n = [].
Proof.
  intros Hn [Hty Hname]%andb_true_iff.
  apply bool_decide_eq_true in Hty, Hname. split; [done|]. split; [done|].
  apply (dag_ok_node _ _ _ Hok) in Hn. unfold node_ok in Hn. rewrite Hty in Hn.
  apply andb_true_iff in Hn as [_ Hn]. by apply bool_decide_eq_true in Hn.
Qed.

Lemma pre_children_ranked q n p :
  nodes d !! q = Some n -> selA q = true -> q <= p ->
  Forall (fun c => c < q /\ selA c = true /\ rank selA c < rank selA p) (children n).
Proof.
  intros Hn Hsel Hle.
  destruct (in_pre_node _ Hsel) as (n' & Hn' & [Hdep|Hjoin]);
    rewrite Hn in Hn'; injection Hn' as <-.
  - destruct (independent_node _ _ Hn Hdep) as (_ & _ & _ & Hch).
    eapply Forall_impl; [exact Hch|]. intros c [Hc Hdc]. cbn.
    destruct (lookup_lt_is_Some_2 (nodes d) c) as [m Hm].
    { apply lookup_lt_Some in Hn. lia. }
    pose proof (independent_in_pre _ _ Hm Hdc) as Hselc.
    split; [done|]. split; [done|]. apply rank_lt; [lia|done].
  - destruct (joined_input_node _ _ Hn Hjoin) as (_ & _ & ->). constructor.
Qed.

(** *** The first half, on the block before the ARRAY JOIN *)

Variable block : Block.
Variable rows : nat.

Hypothesis Hin : inputs_carried d block = true.
Hypothesis Hrows : block_rows block rows = true.
Hypothesis Hfun : row_independent joined d.

Lemma input_carried p n :
  nodes d !! p = Some n -> type n = INPUT ->
  carries block (mkNameAndTypePair (result_name n) (result_type n)) = true.
Proof.
  intros Hn Hty. pose proof Hin as H. unfold inputs_carried in H.
  rewrite forallb_forall in H. apply H.
  apply list_elem_of_In, list_elem_of_omap. exists n.
  split; [apply list_elem_of_lookup; eauto|]. unfold required_of. by rewrite Hty.
Qed.

Lemma block_column_rows c col :
  c ∈ block -> cwtn_column c = Some col -> column_size col = rows.
Proof.
  intros Hc Hcol. pose proof Hrows as H. unfold block_rows in H.
  rewrite forallb_forall in H. apply list_elem_of_In, H in Hc.
  rewrite Hcol in Hc. by apply bool_decide_eq_true in Hc.
Qed.

Lemma computed_in_pre_snoc env v q n p :
  nodes d !! q = Some n -> selA q = true -> q < p ->
  length env = rank selA p ->
  computed_in_pre joined d block rows env q n ->
  computed_in_pre joined d block rows (env ++ [v]) q n.
Proof.
  intros Hn Hsel Hlt Hlen (w & col & Hw & Hcol & Hsize & Hname & Hty & Hres).
  exists w, col. split; [by apply lookup_app_l_Some|]. do 4 (split; [done|]).
  rewrite <- Hres. apply node_result_ext; [done|].
  eapply Forall_impl; [apply (pre_children_ranked q n p Hn Hsel); lia|].
  intros c (_ & _ & Hc). cbn. apply lookup_app_l. lia.
Qed.

Lemma resize_size col n : isColumnConst col = true -> column_size (resize col n) = n.
Proof. destruct col; [done|]. intros _. unfold column_size. cbn. apply length_replicate. Qed.

Lemma pre_node_returns env p n :
  nodes d !! p = Some n -> selA p = true ->
  length env = rank selA p ->
  (forall q m, q < p -> nodes d !! q = Some m -> selA q = true ->
     computed_in_pre joined d block rows env q m) ->
  exists v col,
    node_result n block (fun c => env !! rank selA c) rows = Returns (v, None)
    /\ cwtn_column v = Some col /\ column_size col = rows
    /\ cwtn_name v = result_name n /\ cwtn_type v = result_type n.
Proof.
  intros Hn Hsel Hlen Hprev.
  pose proof (pre_children_ranked p n p Hn Hsel (le_n _)) as Hch.
  assert (exists args, lookup_all (fun c => env !! rank selA c) (children n) = Returns args
            /\ Forall (fun a => column_size a.2 = rows) args)
    as (args & Hargs & Hsizes).
  { destruct (lookup_all_returns (fun c => env !! rank selA c) (children n)) as [args Hargs].
    - eapply Forall_impl; [exact Hch|].
      intros c (Hc & Hselc & _). cbn.
      destruct (in_pre_node _ Hselc) as (m & Hm & _).
      destruct (Hprev c m Hc Hm Hselc) as (w & col & Hw & Hcol & _).
      exists w. split; [done|]. unfold is_live. by rewrite Hcol.
    - exists args. split; [done|].
      apply lookup_all_spec in Hargs.
      clear -Hargs Hch Hprev. induction Hargs as [|c a cs args [Ha Hcol] _ IH];
        [constructor|].
      apply Forall_cons in Hch as [(Hc & Hselc & _) Hch]. constructor; [|by apply IH].
      destruct (in_pre_node _ Hselc) as (m & Hm & _).
      destruct (Hprev c m Hc Hm Hselc) as (w & col & Hw & Hcol' & Hsize & _).
      cbn in Ha, Hcol |- *. rewrite Hw in Ha. injection Ha as Ha. rewrite <- Ha in Hcol.
      congruence. }
  pose proof (node_ok_kind _ _ _ Hok Hn) as Hkind.
  pose proof (dag_ok_node _ _ _ Hok Hn) as Hnode. unfold node_ok in Hnode.
  apply andb_true_iff in Hnode as [_ Hnode].
  unfold node_result. destruct (type n) eqn:Hty.
  - pose proof (input_carried _ _ Hn Hty) as Hc. rewrite Hc.
    unfold carries in Hc. cbn in Hc.
    destruct (findByName (result_name n) block) as [c|] eqn:Hfind; [|done].
    apply andb_true_iff in Hc as [Hct Hlive]. apply bool_decide_eq_true in Hct.
    unfold is_live in Hlive. destruct (cwtn_column c) as [col|] eqn:Hcol; [|done].
    apply findByName_Some in Hfind as [Hname Hcin].
    exists c, col. split; [done|]. split; [done|].
    split; [by eapply block_column_rows|]. done.
  - apply andb_true_iff in Hnode as [_ Hnode].
    destruct (column n) as [col|] eqn:Hcol; [|done]. eexists _, _. split; [done|].
    split; [done|]. split; [|done]. apply resize_size. by eapply constant_column.
  - rewrite Hargs. cbn. apply bool_decide_eq_true in Hnode.
    pose proof (lookup_all_length _ _ _ Hargs) as Hl. rewrite Hnode in Hl.
    destruct args as [|[c col] [|? ?]]; try done. eexists _, _. split; [done|].
    split; [done|]. split; [|done]. by apply Forall_cons in Hsizes as [? _].
  - exfalso. destruct (in_pre_node _ Hsel) as (n' & Hn' & [Hdep|Hjoin]);
      rewrite Hn in Hn'; injection Hn' as <-.
    + by destruct (independent_node _ _ Hn Hdep) as (_ & ? & _).
    + destruct (joined_input_node _ _ Hn Hjoin) as (? & _). congruence.
  - rewrite Hargs. cbn. destruct (function n) as [f|] eqn:Hf; [|done].
    eexists _, _. split; [done|]. split; [done|]. split; [|done].
    destruct (in_pre_node _ Hsel) as (n' & Hn' & [Hdep|Hjoin]);
      rewrite Hn in Hn'; injection Hn' as <-.
    + destruct (Hfun _ _ _ Hn Hty Hdep Hf) as [_ Hkeep]. apply Hkeep.
      apply Forall_fmap. exact Hsizes.
    + destruct (joined_input_node _ _ Hn Hjoin) as (? & _). congruence.
Qed.

Lemma pre_eval_from todo : forall done env0,
  nodes d = done ++ todo ->
  length env0 = rank selA (length done) ->
  (forall q m, q < length done -> nodes d !! q = Some m -> selA q = true ->
     computed_in_pre joined d block rows env0 q m) ->
  exists env,
    eval_nodes (collect (pre_node joined d deps) (length done) todo)
      {| ev_block := block; ev_env := env0; ev_rows := rows |}
    = Returns {| ev_block := block; ev_env := env; ev_rows := rows |}
    /\ length env = rank selA (length (nodes d))
    /\ (forall q m, nodes d !! q = Some m -> selA q = true ->
          computed_in_pre joined d block rows env q m).
Proof.
  induction todo as [|n rest IH]; intros done env0 Hsplit Hlen Hprev.
  - rewrite app_nil_r in Hsplit. subst done. exists env0. cbn.
    split; [done|]. split; [done|]. intros q m Hm. apply Hprev; [|done].
    by eapply lookup_lt_Some.
  - assert (nodes d !! length done = Some n) as Hn.
    { rewrite Hsplit. by rewrite lookup_app_r, Nat.sub_diag. }
    assert (nodes d = (done ++ [n]) ++ rest) as Hsplit' by (by rewrite <- app_assoc).
    cbn [collect]. unfold pre_node at 1.
    destruct (selA (length done)) eqn:Hsel.
    + destruct (pre_node_returns env0 _ _ Hn Hsel Hlen Hprev)
        as (v & col & Hv & Hcol & Hsize & Hname & Hty).
      cbn [eval_nodes]. unfold eval_node. cbn [ev_block ev_env ev_rows].
      rewrite node_result_remap, Hv. cbn [mbind outcome_bind advance snd fst].
      destruct (IH (done ++ [n]) (env0 ++ [v]) Hsplit') as (env & Hev & Hlenv & Hall).
      * rewrite !length_app. cbn [length]. rewrite !Nat.add_1_r, rank_S, Hsel. lia.
      * rewrite length_app. cbn [length]. intros q m Hq Hm Hselq.
        destruct (decide (q = length done)) as [->|Hne].
        -- rewrite Hn in Hm. injection Hm as <-. exists v, col.
           split; [by rewrite lookup_app_r, Hlen, Nat.sub_diag by lia|].
           do 4 (split; [done|]). rewrite <- Hv.
           apply node_result_ext; [done|].
           eapply Forall_impl;
             [apply (pre_children_ranked _ _ (length done) Hn Hsel); lia|].
           intros c (_ & _ & Hc). cbn. apply lookup_app_l. lia.
        -- apply (computed_in_pre_snoc _ _ _ _ (length done)); [done..|lia|done|].
           apply Hprev; [lia|done..].
      * rewrite length_app, Nat.add_1_r in Hev. exists env. done.
    + destruct (IH (done ++ [n]) env0 Hsplit') as (env & Hev & Hlenv & Hall).
      * rewrite !length_app. cbn [length]. rewrite !Nat.add_1_r, rank_S, Hsel. lia.
      * rewrite length_app. cbn [length]. intros q m Hq Hm Hselq.
        destruct (decide (q = length done)) as [->|Hne]; [congruence|].
        apply Hprev; [lia|done..].
      * rewrite length_app, Nat.add_1_r in Hev. exists env. done.
Qed.


(** *** The block that the first half produces *)

Hypothesis Hnames : NoDup (result_name <$> nodes d).

Variables pa pe : NodePtr.

Hypothesis Hsingle : single_array_join joined d pa pe = true.

Lemma single_array_join_spec :
  exists na ne t,
    nodes d !! pa = Some na /\ nodes d !! pe = Some ne
    /\ type na = INPUT /\ result_name na ∈ joined
    /\ result_type na = Some (DataTypeArray t)
    /\ type ne = ARRAY_JOIN /\ children ne = [pa]
    /\ (pa ∉ Index.idx_list (index d))
    /\ forall q m, nodes d !! q = Some m ->
         (result_name m ∈ joined -> q = pa)
         /\ (type m = ARRAY_JOIN -> q = pe)
         /\ (pa ∈ children m -> q = pe)
         /\ (type m = FUNCTION -> row_sensitive m = true -> pe < q).
Proof.
  pose proof Hsingle as H. unfold single_array_join in H.
  destruct (nodes d !! pa) as [na|] eqn:Hna; [|done].
  destruct (nodes d !! pe) as [ne|] eqn:Hne; [|done].
  apply andb_true_iff in H as [H Hall]. apply andb_true_iff in H as [H Hidx].
  apply andb_true_iff in H as [H Hch]. apply andb_true_iff in H as [H Hte].
  apply andb_true_iff in H as [Hj Harr]. apply andb_true_iff in Hj as [Hty Hname].
  apply bool_decide_eq_true in Hty, Hname, Hch, Hte.
  destruct (result_type na) as [[| |t]|] eqn:Ht; try done.
  exists na, ne, t. do 7 (split; [done|]).
  split.
  { intros Hx. by rewrite bool_decide_eq_true_2 in Hidx by done. }
  intros q m Hm. rewrite forallb_forall in Hall.
  specialize (Hall (q, m) (imap_pair_elem d q m Hm)). cbn in Hall.
  apply andb_true_iff in Hall as [Hall H4]. apply andb_true_iff in Hall as [Hall H3].
  apply andb_true_iff in Hall as [H1 H2].
  repeat split.
  - intros Hx. rewrite bool_decide_eq_true_2 in H1 by done.
    by apply bool_decide_eq_true in H1.
  - intros Hx. rewrite bool_decide_eq_true_2 in H2 by done.
    by apply bool_decide_eq_true in H2.
  - intros Hx. rewrite bool_decide_eq_true_2 in H3 by done.
    by apply bool_decide_eq_true in H3.
  - intros Hx Hrs. rewrite bool_decide_eq_true_2, Hrs in H4 by done.
    by apply bool_decide_eq_true in H4.
Qed.

Lemma array_join_order : pa < pe.
Proof.
  destruct single_array_join_spec as (na & ne & t & _ & Hne & _ & _ & _ & _ & Hch & _).
  pose proof (children_lt _ _ _ Hok Hne) as H. rewrite Hch in H.
  by apply Forall_cons in H as [? _].
Qed.

Lemma named_in_joined_depends q m :
  nodes d !! q = Some m -> result_name m ∈ joined -> depends_at deps q = true.
Proof.
  intros Hm Hname. rewrite (depends_at_unfold _ _ Hm).
  by rewrite bool_decide_eq_true_2.
Qed.

Lemma array_join_depends q m :
  nodes d !! q = Some m -> type m = ARRAY_JOIN -> depends_at deps q = true.
Proof.
  intros Hm Hty. rewrite (depends_at_unfold _ _ Hm).
  rewrite (bool_decide_eq_true_2 (type m = ARRAY_JOIN)) by done.
  by rewrite orb_true_r.
Qed.

Lemma before_array_join q :
  q < pe -> q <> pa -> depends_at deps q = false.
Proof.
  destruct single_array_join_spec as (na & ne & t & Hna & Hne & _ & _ & _ & _ & _ & _ & Hall).
  induction (lt_wf q) as [q _ IH]. intros Hq Hne'.
  destruct (lookup_lt_is_Some_2 (nodes d) q) as [m Hm].
  { apply lookup_lt_Some in Hne. lia. }
  destruct (Hall _ _ Hm) as (H1 & H2 & H3 & H4).
  rewrite (depends_at_unfold _ _ Hm).
  rewrite bool_decide_eq_false_2 by (intros Hx; by apply H1 in Hx).
  rewrite bool_decide_eq_false_2 by (intros Hx; apply H2 in Hx; lia). cbn.
  assert (bool_decide (type m = FUNCTION) && row_sensitive m = false) as ->.
  { case_bool_decide as Hty; [|done]. cbn. destruct (row_sensitive m) eqn:Hrs; [|done].
    specialize (H4 Hty eq_refl). lia. }
  cbn. destruct (existsb (depends_at deps) (children m)) eqn:Hex; [|done].
  apply existsb_exists in Hex as (c & Hc%list_elem_of_In & Hdc).
  pose proof (children_lt _ _ _ Hok Hm) as Hlt. rewrite Forall_forall in Hlt.
  specialize (Hlt c Hc). destruct (decide (c = pa)) as [->|Hcpa].
  - specialize (H3 Hc). lia.
  - rewrite IH in Hdc; [done|lia|lia|done].
Qed.

Lemma after_array_join p n :
  nodes d !! p = Some n -> depends_at deps p = true -> p <> pa -> p <> pe ->
  pe < p /\ (type n = ALIAS \/ type n = FUNCTION) /\ (pa ∉ children n)
  /\ (result_name n ∉ joined).
Proof.
  intros Hn Hdep Hpa Hpe.
  destruct single_array_join_spec as (na & ne & t & Hna & Hne & _ & _ & _ & _ & _ & _ & Hall).
  destruct (Hall _ _ Hn) as (H1 & H2 & H3 & H4).
  assert (pe < p) as Hlt.
  { destruct (decide (pe < p)); [done|]. rewrite before_array_join in Hdep; [done|lia|done]. }
  split; [done|]. split; [|split; [by intros ?%H3|by intros ?%H1]].
  pose proof (dag_ok_node _ _ _ Hok Hn) as Hnode. unfold node_ok in Hnode.
  apply andb_true_iff in Hnode as [_ Hnode].
  rewrite (depends_at_unfold _ _ Hn) in Hdep.
  rewrite (bool_decide_eq_false_2 (result_name n ∈ joined)) in Hdep by (by intros ?%H1).
  destruct (type n) eqn:Hty; [| |by left|by specialize (H2 eq_refl)|by right].
  - apply bool_decide_eq_true in Hnode. rewrite Hnode in Hdep. done.
  - apply andb_true_iff in Hnode as [Hnode _].
    apply bool_decide_eq_true in Hnode. rewrite Hnode in Hdep. done.
Qed.

Lemma depends_lookup p :
  p < length (nodes d) -> deps !! p = Some (depends_at deps p).
Proof.
  intros Hp. unfold depends_at.
  destruct (lookup_lt_is_Some_2 deps p) as [b ->]; [|done].
  by rewrite depends_length.
Qed.

Lemma index_in_post q : q ∈ Index.idx_list (index d) -> selB q = true.
Proof.
  intros Hq. unfold in_post, needed.
  rewrite bool_decide_eq_true_2 by by apply dag_ok_index.
  rewrite (bool_decide_eq_true_2 (q ∈ Index.idx_list (index d))) by done.
  by destruct (depends_at deps q).
Qed.

Lemma children_in_post p n :
  nodes d !! p = Some n -> depends_at deps p = true ->
  Forall (fun c => c < p /\ selB c = true) (children n).
Proof.
  intros Hn Hdep. pose proof (children_lt _ _ _ Hok Hn) as Hlt.
  pose proof (lookup_lt_Some _ _ _ Hn) as Hp.
  apply Forall_forall. intros c Hc. pose proof Hlt as Hlt'.
  rewrite Forall_forall in Hlt'. specialize (Hlt' c Hc). split; [done|].
  unfold in_post, needed. rewrite bool_decide_eq_true_2 by lia.
  destruct (depends_at deps c); [done|]. cbn. apply orb_true_iff. right.
  apply existsb_exists. exists (true, n). split.
  - apply list_elem_of_In, list_elem_of_lookup. exists p.
    rewrite lookup_zip_with, (depends_lookup _ Hp), Hdep, Hn. done.
  - cbn. by apply bool_decide_eq_true.
Qed.

Lemma names_injective q q' m m' :
  nodes d !! q = Some m -> nodes d !! q' = Some m' ->
  result_name m = result_name m' -> q = q'.
Proof.
  intros Hm Hm' Heq. eapply NoDup_lookup; [exact Hnames| |].
  - by rewrite list_lookup_fmap, Hm.
  - rewrite list_lookup_fmap, Hm'. cbn. by rewrite Heq.
Qed.

Lemma pre_outputs_spec q :
  q ∈ pre_outputs joined d <->
  q < length (nodes d) /\ selA q = true
  /\ (depends_at deps q = true \/ needed d deps q = true).
Proof.
  unfold pre_outputs. rewrite list_elem_of_filter, elem_of_seq. split.
  - intros [[Hsel Huse] [_ Hlt]]. repeat split; [lia|done..].
  - intros (Hlt & Hsel & Huse). repeat split; [done..|lia|lia].
Qed.

Lemma pre_outputs_selected :
  Forall (fun q => q < length (nodes d) /\ selA q = true) (pre_outputs joined d).
Proof.
  apply Forall_forall. intros q (Hlt & Hsel & _)%pre_outputs_spec. done.
Qed.

Section WithPre.

Variable env : ColumnsWithTypeAndName.

Hypothesis Henv : forall q m, nodes d !! q = Some m -> selA q = true ->
  computed_in_pre joined d block rows env q m.

Local Abbreviation val := (pre_value joined d env).
Local Abbreviation lens := (join_lens joined d env pa).
Local Abbreviation Bj := (joined_block joined d env pa).

Lemma pre_value_spec q m :
  nodes d !! q = Some m -> selA q = true ->
  env !! rank selA q = Some (val q)
  /\ (exists col, cwtn_column (val q) = Some col /\ column_size col = rows)
  /\ cwtn_name (val q) = result_name m
  /\ cwtn_type (val q) = result_type m
  /\ node_result m block (fun c => env !! rank selA c) rows = Returns (val q, None).
Proof.
  intros Hm Hsel.
  destruct (Henv _ _ Hm Hsel) as (v & col & Hv & Hcol & Hsize & Hname & Hty & Hres).
  unfold pre_value. rewrite Hv. cbn. eauto 10.
Qed.

Lemma pre_value_live q m :
  nodes d !! q = Some m -> selA q = true -> is_live (val q) = true.
Proof.
  intros Hm Hsel. destruct (pre_value_spec _ _ Hm Hsel) as (_ & (col & Hcol & _) & _).
  unfold is_live. by rewrite Hcol.
Qed.

Lemma result_columns_of_pre qs :
  Forall (fun q => q < length (nodes d) /\ selA q = true) qs ->
  result_columns_of env (rank selA <$> qs) = Returns (val <$> qs).
Proof.
  induction 1 as [|q qs [Hq Hsel] Hqs IH]; cbn; [done|].
  destruct (lookup_lt_is_Some_2 _ _ Hq) as [m Hm].
  destruct (pre_value_spec _ _ Hm Hsel) as (-> & _). by rewrite IH.
Qed.

Lemma findByName_pre_outputs (qs : list NodePtr) q m :
  Forall (fun q => q < length (nodes d) /\ selA q = true) qs ->
  q ∈ qs -> nodes d !! q = Some m ->
  findByName (result_name m) (val <$> qs) = Some (val q).
Proof.
  intros Hqs Hq Hm. unfold findByName.
  induction Hqs as [|q' qs [Hq' Hsel'] Hqs IH]; [by apply elem_of_nil in Hq|].
  cbn. destruct (lookup_lt_is_Some_2 _ _ Hq') as [m' Hm'].
  destruct (pre_value_spec _ _ Hm' Hsel') as (_ & _ & Hname & _).
  case_bool_decide as Heq.
  - rewrite Hname in Heq. by rewrite (names_injective _ _ _ _ Hm' Hm Heq).
  - apply elem_of_cons in Hq as [->|Hq]; [|by apply IH].
    rewrite Hm in Hm'. injection Hm' as <-. done.
Qed.

Lemma joined_input_selected :
  exists na t col,
    nodes d !! pa = Some na /\ selA pa = true /\ depends_at deps pa = true
    /\ cwtn_column (val pa) = Some col /\ column_size col = rows
    /\ cwtn_type (val pa) = Some (DataTypeArray t)
    /\ cwtn_name (val pa) ∈ joined
    /\ lens = array_lengths col /\ length lens = rows.
Proof.
  destruct single_array_join_spec as (na & ne & t & Hna & Hne & Hty & Hname & Ht & _).
  assert (selA pa = true) as Hsel.
  { unfold in_pre, is_joined_input. rewrite Hna, Hty.
    rewrite !bool_decide_eq_true_2 by done. by rewrite orb_true_r. }
  destruct (pre_value_spec _ _ Hna Hsel) as (_ & (col & Hcol & Hsize) & Hvn & Hvt & _).
  exists na, t, col. split; [done|]. split; [done|].
  split; [by eapply named_in_joined_depends|]. split; [done|]. split; [done|].
  split; [congruence|]. split; [congruence|].
  unfold join_lens. rewrite Hcol. cbn. split; [done|].
  unfold array_lengths. by rewrite length_fmap.
Qed.

Lemma join_slot_joined_input :
  join_slot joined (Some lens) (val pa) = unfold_slot (val pa).
Proof.
  destruct joined_input_selected as (na & t & col & _ & _ & _ & _ & _ & _ & Hname & _).
  unfold join_slot. by rewrite decide_True.
Qed.

Lemma join_slot_other q m :
  nodes d !! q = Some m -> selA q = true -> q <> pa ->
  join_slot joined (Some lens) (val q) = replicate_slot lens (val q).
Proof.
  intros Hm Hsel Hq.
  destruct single_array_join_spec as (_ & _ & _ & _ & _ & _ & _ & _ & _ & _ & _ & Hall).
  destruct (pre_value_spec _ _ Hm Hsel) as (_ & _ & Hname & _).
  unfold join_slot. rewrite decide_False; [done|]. rewrite Hname.
  intros Hx. by apply (Hall _ _ Hm) in Hx.
Qed.

Lemma joined_input_produced : pa ∈ pre_outputs joined d.
Proof.
  destruct joined_input_selected as (na & t & col & Hna & Hsel & Hdep & _).
  apply pre_outputs_spec. split; [by eapply lookup_lt_Some|]. split; [done|]. by left.
Qed.

Lemma join_slot_name l c : cwtn_name (join_slot joined l c) = cwtn_name c.
Proof. unfold join_slot. destruct l; [|done]. by case_decide. Qed.

Lemma findByName_joined_block q m :
  nodes d !! q = Some m -> q ∈ pre_outputs joined d ->
  findByName (result_name m) Bj = Some (join_slot joined (Some lens) (val q)).
Proof.
  intros Hm Hq. unfold joined_block.
  rewrite findByName_fmap by (intros; apply join_slot_name).
  by rewrite (findByName_pre_outputs _ q m pre_outputs_selected Hq Hm).
Qed.

(** *** The ARRAY JOIN of what the first half produces *)

Lemma arrayJoin_produced :
  arrayJoin joined (val <$> pre_outputs joined d, rows) = Returns (Bj, sum_list lens).
Proof.
  destruct joined_input_selected
    as (na & t & col & Hna & Hsel & Hdep & Hcol & Hsize & Hty & Hname & Hlens & _).
  destruct single_array_join_spec as (_ & _ & _ & _ & _ & _ & _ & _ & _ & _ & _ & Hall).
  unfold arrayJoin. cbn [fst snd].
  assert (join_lengths joined (val <$> pre_outputs joined d) = Returns (Some lens)) as ->;
    [|done].
  assert (Forall (fun c => c = val pa)
            (filter (fun c => cwtn_name c ∈ joined) (val <$> pre_outputs joined d))) as Hall'.
  { apply Forall_forall. intros c [Hc Hcin]%list_elem_of_filter.
    apply list_elem_of_fmap in Hcin as (q & -> & Hq).
    apply pre_outputs_spec in Hq as (Hlt & Hselq & _).
    destruct (lookup_lt_is_Some_2 _ _ Hlt) as [m Hm].
    destruct (pre_value_spec _ _ Hm Hselq) as (_ & _ & Hvn & _).
    rewrite Hvn in Hc. by rewrite (proj1 (Hall _ _ Hm) Hc). }
  assert (val pa ∈ filter (fun c => cwtn_name c ∈ joined) (val <$> pre_outputs joined d))
    as Hpa.
  { apply list_elem_of_filter. split; [done|].
    apply list_elem_of_fmap. exists pa. split; [done|]. apply joined_input_produced. }
  unfold join_lengths.
  destruct (filter (fun c => cwtn_name c ∈ joined) (val <$> pre_outputs joined d))
    as [|c rest]; [by apply elem_of_nil in Hpa|].
  pose proof Hall' as Hc. apply Forall_cons in Hc as [-> _]. rewrite Hcol.
  rewrite (proj2 (forallb_forall _ _)); [by rewrite Hlens|].
  intros x Hx%list_elem_of_In. rewrite Forall_forall in Hall'. rewrite (Hall' x Hx).
  unfold joinable. rewrite Hcol, Hty. by apply bool_decide_eq_true.
Qed.

(** *** The original DAG and the second half, node by node *)

Local Abbreviation related := (split_related joined d block rows env pa pe).

Lemma pre_args_sizes p n args :
  nodes d !! p = Some n -> selA p = true ->
  lookup_all (fun c => env !! rank selA c) (children n) = Returns args ->
  Forall (fun a => column_size a.2 = rows) args.
Proof.
  intros Hn Hsel Hargs. apply lookup_all_spec in Hargs.
  pose proof (pre_children_ranked p n p Hn Hsel (le_n _)) as Hch.
  induction Hargs as [|c a cs args [Ha Hcol] _ IH]; [constructor|].
  apply Forall_cons in Hch as [(Hc & Hselc & _) Hch]. constructor; [|by apply IH].
  destruct (in_pre_node _ Hselc) as (m & Hm & _).
  destruct (pre_value_spec _ _ Hm Hselc) as (Hv & (col & Hcol' & Hsize) & _).
  cbn in Ha, Hcol |- *. rewrite Hv in Ha. injection Ha as Ha. rewrite <- Ha in Hcol.
  congruence.
Qed.

Lemma independent_value_lifted p n :
  nodes d !! p = Some n -> depends_at deps p = false ->
  node_result n (replicate_slot lens <$> block)
    (fun c => replicate_slot lens <$> env !! rank selA c) (sum_list lens)
  = Returns (replicate_slot lens (val p), None).
Proof.
  intros Hn Hdep. pose proof (independent_in_pre _ _ Hn Hdep) as Hsel.
  destruct (independent_node _ _ Hn Hdep) as (_ & Haj & _ & _).
  destruct (pre_value_spec _ _ Hn Hsel) as (_ & _ & _ & _ & Hres).
  destruct joined_input_selected as (_ & _ & _ & _ & _ & _ & _ & _ & _ & _ & _ & Hlen).
  apply (node_result_lift lens n block _ rows); [done| | |done].
  - intros Hty col Hcol. by eapply constant_column.
  - intros Hty f args Hf Hargs.
    destruct (Hfun _ _ _ Hn Hty Hdep Hf) as [Hcomm _].
    rewrite <- Hlen. apply Hcomm. apply Forall_fmap.
    eapply Forall_impl; [apply (pre_args_sizes _ _ _ Hn Hsel Hargs)|].
    intros a Ha. cbn. by rewrite Hlen.
Qed.

Lemma selected_not_array_join : selA pe = false.
Proof.
  destruct single_array_join_spec as (na & ne & t & _ & Hne & _ & _ & _ & Hty & _).
  unfold in_pre, is_joined_input. rewrite Hne, (array_join_depends _ _ Hne Hty), Hty.
  done.
Qed.

Lemma selected_after_array_join p n :
  nodes d !! p = Some n -> selA p = true -> pe < p -> depends_at deps p = false.
Proof.
  intros Hn Hsel Hlt.
  destruct (in_pre_node _ Hsel) as (n' & Hn' & [Hdep|Hjoin]); [done|].
  rewrite Hn in Hn'. injection Hn' as <-.
  destruct (joined_input_node _ _ Hn Hjoin) as (_ & Hname & _).
  destruct single_array_join_spec as (_ & _ & _ & _ & _ & _ & _ & _ & _ & _ & _ & Hall).
  apply (Hall _ _ Hn) in Hname. pose proof array_join_order. lia.
Qed.

(** The original DAG computes a node of the first half as the first half
    does, with the rows repeated when the ARRAY_JOIN node is passed. *)
Lemma original_selected st_o st_p p n :
  related p st_o st_p -> nodes d !! p = Some n -> selA p = true ->
  node_result n (ev_block st_o) (fun c => ev_env st_o !! c) (ev_rows st_o)
  = Returns (if decide (p <= pe) then val p else replicate_slot lens (val p), None).
Proof.
  intros (_ & _ & _ & _ & Hblock & Hrows' & _ & Hsel8 & _) Hn Hsel.
  rewrite Hblock, Hrows'.
  pose proof (pre_children_ranked p n p Hn Hsel (le_n _)) as Hch.
  destruct (decide (p <= pe)) as [Hle|Hgt].
  - destruct (pre_value_spec _ _ Hn Hsel) as (_ & _ & _ & _ & <-).
    apply node_result_ext; [done|].
    eapply Forall_impl; [exact Hch|]. intros c (Hc & Hselc & _). cbn.
    rewrite (Hsel8 c Hc Hselc). destruct (in_pre_node _ Hselc) as (m & Hm & _).
    by destruct (pre_value_spec _ _ Hm Hselc) as (-> & _).
  - assert (depends_at deps p = false) as Hdep.
    { apply (selected_after_array_join _ _ Hn Hsel). lia. }
    rewrite <- (independent_value_lifted _ _ Hn Hdep).
    apply node_result_ext; [done|].
    eapply Forall_impl; [exact Hch|]. intros c (Hc & Hselc & _). cbn.
    rewrite (Hsel8 c Hc Hselc). destruct (in_pre_node _ Hselc) as (m & Hm & _).
    by destruct (pre_value_spec _ _ Hm Hselc) as (-> & _).
Qed.

Lemma split_related_step st_o st_p p n v_o (v_p : option ColumnWithTypeAndName) :
  related p st_o st_p -> nodes d !! p = Some n -> p <> pe ->
  is_live v_o = true ->
  (selA p = true -> v_o = if decide (p <= pe) then val p else replicate_slot lens (val p)) ->
  match v_p with
  | Some v =>
      selB p = true
      /\ v = (if decide (p = pa) then unfold_slot (val pa)
              else if depends_at deps p then v_o else replicate_slot lens (val p))
  | None => selB p = false
  end ->
  related (S p) (advance (v_o, None) st_o)
    (match v_p with Some v => advance (v, None) st_p | None => st_p end).
Proof.
  intros (Hlo & Hlp & Hbp & Hrp & Hbo & Hro & Hlive & Hsel8 & Hsel9) Hn Hpe Hvlive Hvo Hvp.
  assert (forall A (x y : A), (if decide (S p <= pe) then x else y)
                              = (if decide (p <= pe) then x else y)) as Hdec.
  { intros A x y. destruct (decide (S p <= pe)), (decide (p <= pe)); (done || lia). }
  unfold split_related. rewrite !Hdec.
  assert (length (ev_env (match v_p with
                          | Some v => advance (v, None) st_p | None => st_p end))
          = rank selB (S p)) as Hlp'.
  { rewrite rank_S. destruct v_p as [v|].
    - destruct Hvp as [-> _]. cbn. rewrite length_app. cbn. lia.
    - rewrite Hvp. lia. }
  split; [cbn; rewrite length_app; cbn; lia|]. split; [done|].
  split; [by destruct v_p|]. split; [by destruct v_p|].
  split; [done|]. split; [done|].
  split; [cbn; apply Forall_app; split; [done|by apply Forall_singleton]|].
  split.
  - intros q Hq Hselq. cbn. rewrite Hdec. destruct (decide (q = p)) as [->|Hne].
    + rewrite lookup_app_r, Hlo, Nat.sub_diag by lia. cbn. by rewrite (Hvo Hselq).
    + rewrite lookup_app_l by lia. apply Hsel8; [lia|done].
  - intros q Hq Hselq.
    assert (ev_env (advance (v_o, None) st_o) !! q
            = if decide (q = p) then Some v_o else ev_env st_o !! q) as ->.
    { cbn. destruct (decide (q = p)) as [->|Hne].
      - by rewrite lookup_app_r, Hlo, Nat.sub_diag by lia.
      - rewrite lookup_app_l by lia. done. }
    destruct (decide (q = p)) as [->|Hne].
    + destruct v_p as [v|]; [|congruence]. destruct Hvp as [_ ->]. cbn.
      rewrite lookup_app_r, Hlp, Nat.sub_diag by lia. cbn.
      destruct (decide (p = pa)); [done|]. by destruct (depends_at deps p).
    + assert (q < p) as Hq' by lia.
      assert (rank selB q < length (ev_env st_p)) as Hr.
      { rewrite Hlp. by apply rank_lt. }
      rewrite <- (Hsel9 q Hq' Hselq).
      destruct v_p as [v|]; [|done]. cbn. by rewrite lookup_app_l.
Qed.

Lemma split_related_array_join st_o st_p e :
  related pe st_o st_p -> is_live e = true ->
  related (S pe) (advance (e, Some lens) st_o) (advance (e, None) st_p).
Proof.
  intros (Hlo & Hlp & Hbp & Hrp & Hbo & Hro & Hlive & Hsel8 & Hsel9) Hvlive.
  destruct single_array_join_spec as (na & ne & t & Hna & Hne & _ & _ & _ & Hty & _).
  assert (selB pe = true) as HselB.
  { unfold in_post. rewrite bool_decide_eq_true_2 by (by eapply lookup_lt_Some).
    by rewrite (array_join_depends _ _ Hne Hty). }
  rewrite decide_True in Hbo by lia. rewrite decide_True in Hro by lia.
  unfold split_related, advance. cbn [fst snd ev_env ev_block ev_rows].
  rewrite !decide_False by lia.
  split; [rewrite length_app, length_fmap; cbn; lia|].
  split; [rewrite length_app, rank_S, HselB; cbn; lia|].
  split; [done|]. split; [done|]. split; [by rewrite Hbo|]. split; [done|].
  split.
  { apply Forall_app. split; [|by apply Forall_singleton].
    apply Forall_fmap. eapply Forall_impl; [exact Hlive|]. intros v Hv. cbn.
    by rewrite replicate_slot_live. }
  split.
  - intros q Hq Hselq. rewrite decide_False by lia.
    destruct (decide (q = pe)) as [->|Hne'].
    + by rewrite selected_not_array_join in Hselq.
    + rewrite lookup_app_l by (rewrite length_fmap; lia).
      rewrite list_lookup_fmap, (Hsel8 q) by (lia || done).
      by rewrite decide_True by lia.
  - intros q Hq Hselq. destruct (decide (q = pe)) as [->|Hne'].
    + rewrite !lookup_app_r by (rewrite ?length_fmap; lia).
      rewrite length_fmap, Hlp, Hlo, !Nat.sub_diag. cbn.
      pose proof array_join_order. rewrite decide_False by lia.
      by rewrite (array_join_depends _ _ Hne Hty).
    + assert (q < pe) as Hq' by lia.
      rewrite lookup_app_l by (rewrite Hlp; by apply rank_lt).
      rewrite (Hsel9 q Hq' Hselq). destruct (decide (q = pa)) as [->|Hqa]; [done|].
      by rewrite (before_array_join q Hq' Hqa).
Qed.

Lemma needed_produced p n :
  nodes d !! p = Some n -> depends_at deps p = false -> needed d deps p = true ->
  p ∈ pre_outputs joined d.
Proof.
  intros Hn Hdep Hneed. apply pre_outputs_spec.
  split; [by eapply lookup_lt_Some|]. split; [by eapply independent_in_pre|]. by right.
Qed.

Lemma lockstep_step st_o st_p p n :
  related p st_o st_p -> nodes d !! p = Some n ->
  exists st_o' st_p',
    eval_node n st_o = Returns st_o'
    /\ eval_nodes (collect (post_node joined d deps) p [n]) st_p = Returns st_p'
    /\ related (S p) st_o' st_p'.
Proof.
  intros Hrel Hn. pose proof Hrel as (Hlo & Hlp & Hbp & Hrp & Hbo & Hro & Hlive & Hsel8 & Hsel9).
  pose proof (lookup_lt_Some _ _ _ Hn) as Hp.
  destruct single_array_join_spec
    as (na & ne & t & Hna & Hne & Htya & Hnamea & Hta & Htye & Hche & Hidx & Hall).
  destruct joined_input_selected
    as (na' & t' & col & Hna' & Hsela & Hdepa & Hcol & Hsize & Hty & Hname & Hlens & Hlen).
  pose proof array_join_order as Hae.
  cbn [collect]. unfold post_node.
  destruct (decide (p = pe)) as [->|Hpe].
  { (* the ARRAY_JOIN node *)
    rewrite Hne in Hn. injection Hn as <-.
    rewrite (array_join_depends _ _ Hne Htye).
    assert (is_joined_input joined ne = false) as ->.
    { unfold is_joined_input. by rewrite Htye. }
    assert (unfolds_joined_input joined d ne = true) as ->.
    { unfold unfolds_joined_input. rewrite Htye, Hche, Hna. cbn.
      unfold is_joined_input. rewrite Htya. by rewrite !bool_decide_eq_true_2. }
    exists (advance (result_slot ne (unfold_arrays col), Some lens) st_o),
           (advance (result_slot ne (unfold_arrays col), None) st_p).
    split; [|split; [|by apply split_related_array_join]].
    - unfold eval_node, node_result. rewrite Htye, Hche. cbn [lookup_all].
      rewrite (Hsel8 pa Hae Hsela), decide_True by lia. rewrite Hcol. cbn.
      by rewrite Hty, Hlens.
    - cbn [eval_nodes]. unfold eval_node, node_result.
      cbn [type as_alias remap with_children children]. rewrite Hche. cbn [fmap list_fmap lookup_all].
      rewrite (Hsel9 pa Hae), decide_True by (done || (unfold in_post;
        rewrite bool_decide_eq_true_2 by (by eapply lookup_lt_Some); by rewrite Hdepa)).
      cbn. by rewrite Hcol. }
  destruct (selA p) eqn:Hsel.
  - (* a node of the first half *)
    pose proof (original_selected _ _ _ _ Hrel Hn Hsel) as Horig.
    destruct (pre_value_spec _ _ Hn Hsel) as (_ & _ & Hvn & Hvt & _).
    pose proof (pre_value_live _ _ Hn Hsel) as Hvl.
    set (v_o := if decide (p <= pe) then val p else replicate_slot lens (val p)) in *.
    assert (is_live v_o = true) as Hvol.
    { unfold v_o. destruct (decide (p <= pe)); [done|]. by rewrite replicate_slot_live. }
    destruct (depends_at deps p) eqn:Hdep.
    + (* the array-joined input *)
      assert (p = pa) as ->.
      { destruct (in_pre_node _ Hsel) as (n' & Hn' & [?|Hjoin]); [congruence|].
        rewrite Hn in Hn'. injection Hn' as <-.
        destruct (joined_input_node _ _ Hn Hjoin) as (_ & Hx & _).
        by apply (Hall _ _ Hn) in Hx. }
      rewrite Hna in Hn. injection Hn as <-.
      assert (is_joined_input joined na = true) as ->.
      { unfold is_joined_input. rewrite Htya. by rewrite !bool_decide_eq_true_2. }
      exists (advance (v_o, None) st_o), (advance (unfold_slot (val pa), None) st_p).
      split; [by unfold eval_node; rewrite Horig|]. split.
      * cbn [eval_nodes]. unfold eval_node, node_result. cbn [type input_node result_name result_type].
        rewrite Hbp. unfold carries. cbn [nt_name nt_type].
        rewrite (findByName_joined_block _ _ Hna joined_input_produced).
        rewrite join_slot_joined_input. cbn [cwtn_type unfold_slot].
        rewrite Hvt, bool_decide_eq_true_2 by done.
        unfold is_live. cbn. by rewrite Hcol.
      * apply (split_related_step _ _ _ _ _ (Some (unfold_slot (val pa))) Hrel Hna);
          [lia|done|done|].
        split; [|by rewrite decide_True].
        unfold in_post. rewrite bool_decide_eq_true_2 by done. by rewrite Hdepa.
    + (* a node that does not depend on the set *)
      assert (p <> pa) as Hpa by (intros ->; congruence).
      destruct (needed d deps p) eqn:Hneed.
      * exists (advance (v_o, None) st_o),
               (advance (replicate_slot lens (val p), None) st_p).
        split; [by unfold eval_node; rewrite Horig|]. split.
        -- cbn [eval_nodes]. unfold eval_node, node_result.
           cbn [type input_node result_name result_type].
           rewrite Hbp. unfold carries. cbn [nt_name nt_type].
           rewrite (findByName_joined_block _ _ Hn (needed_produced _ _ Hn Hdep Hneed)).
           rewrite (join_slot_other _ _ Hn Hsel Hpa). cbn [cwtn_type replicate_slot].
           rewrite Hvt, bool_decide_eq_true_2 by done.
           by rewrite replicate_slot_live, Hvl.
        -- apply (split_related_step _ _ _ _ _ (Some (replicate_slot lens (val p))) Hrel Hn);
             [done|done|done|].
           split; [|by rewrite decide_False, Hdep by done].
           unfold in_post. rewrite bool_decide_eq_true_2 by done.
           by rewrite Hneed, orb_true_r.
      * exists (advance (v_o, None) st_o), st_p.
        split; [by unfold eval_node; rewrite Horig|]. split; [done|].
        apply (split_related_step _ _ _ _ _ None Hrel Hn); [done|done|done|].
        unfold in_post. by rewrite Hdep, Hneed, andb_false_r.
  - (* a node that depends on the set, after the ARRAY_JOIN node *)
    assert (depends_at deps p = true) as Hdep.
    { destruct (depends_at deps p) eqn:E; [done|].
      by rewrite (independent_in_pre _ _ Hn E) in Hsel. }
    assert (p <> pa) as Hpa by (intros ->; congruence).
    destruct (after_array_join _ _ Hn Hdep Hpa Hpe) as (Hlt & Hkind & Hnotch & Hnotname).
    rewrite Hdep.
    assert (is_joined_input joined n = false) as ->.
    { unfold is_joined_input. rewrite (bool_decide_eq_false_2 (result_name n ∈ joined)) by done.
      by rewrite andb_false_r. }
    assert (unfolds_joined_input joined d n = false) as ->.
    { unfold unfolds_joined_input. rewrite bool_decide_eq_false_2; [done|].
      destruct Hkind as [-> | ->]; done. }
    assert (selB p = true) as HselB.
    { unfold in_post. rewrite bool_decide_eq_true_2 by done. by rewrite Hdep. }
    rewrite decide_False in Hbo by lia. rewrite decide_False in Hro by lia.
    assert (Forall (fun c => ev_env st_p !! rank selB c = ev_env st_o !! c) (children n))
      as Hsame.
    { pose proof (children_in_post _ _ Hn Hdep) as Hch.
      apply Forall_forall. intros c Hc. rewrite Forall_forall in Hch.
      destruct (Hch c Hc) as [Hcp HselBc].
      rewrite (Hsel9 c Hcp HselBc).
      rewrite decide_False by (intros ->; done).
      destruct (depends_at deps c) eqn:Hdc; [done|].
      destruct (lookup_lt_is_Some_2 (nodes d) c) as [m Hm]; [lia|].
      rewrite (Hsel8 c Hcp (independent_in_pre _ _ Hm Hdc)).
      by rewrite decide_False by lia. }
    assert (exists v, node_result n (ev_block st_o) (fun c => ev_env st_o !! c) (ev_rows st_o)
                      = Returns (v, None)) as [v Hv].
    { destruct (lookup_all_returns (fun c => ev_env st_o !! c) (children n)) as [args Hargs].
      - pose proof (children_lt _ _ _ Hok Hn) as Hch.
        eapply Forall_impl; [exact Hch|]. intros c Hc. cbn in Hc |- *.
        destruct (lookup_lt_is_Some_2 (ev_env st_o) c) as [w Hw]; [lia|].
        exists w. split; [done|]. rewrite Forall_forall in Hlive.
        apply Hlive. by eapply list_elem_of_lookup_2.
      - pose proof (dag_ok_node _ _ _ Hok Hn) as Hnode. unfold node_ok in Hnode.
        apply andb_true_iff in Hnode as [_ Hnode].
        unfold node_result. rewrite Hargs. cbn.
        destruct Hkind as [Hk | Hk]; rewrite Hk in Hnode |- *.
        + apply bool_decide_eq_true in Hnode.
          pose proof (lookup_all_length _ _ _ Hargs) as Hl. rewrite Hnode in Hl.
          destruct args as [|[c0 col0] [|? ?]]; try done. eauto.
        + destruct (function n); [eauto|done]. }
    exists (advance (v, None) st_o), (advance (v, None) st_p).
    split; [by unfold eval_node; rewrite Hv|]. split.
    + cbn [eval_nodes]. unfold eval_node.
      rewrite node_result_remap.
      rewrite (node_result_ext n (ev_block st_p) (ev_block st_o)
                 (fun c => ev_env st_p !! rank selB c) (fun c => ev_env st_o !! c)).
      * by rewrite Hrp, <- Hro, Hv.
      * intros Hx. destruct Hkind; congruence.
      * exact Hsame.
    + apply (split_related_step _ _ _ _ _ (Some v) Hrel Hn); [done| | |].
      * by apply (node_result_live _ _ _ _ _ Hv).
      * by rewrite Hsel.
      * split; [done|]. by rewrite decide_False, Hdep by done.
Qed.

Lemma eval_nodes_app ns1 ns2 st :
  eval_nodes (ns1 ++ ns2) st = (st' ← eval_nodes ns1 st; eval_nodes ns2 st').
Proof.
  revert st. induction ns1 as [|n ns1 IH]; intros st; cbn; [done|].
  destruct (eval_node n st); cbn; [apply IH|done..].
Qed.

Lemma lockstep todo : forall done st_o st_p,
  nodes d = done ++ todo ->
  related (length done) st_o st_p ->
  exists st_o' st_p',
    eval_nodes todo st_o = Returns st_o'
    /\ eval_nodes (collect (post_node joined d deps) (length done) todo) st_p
       = Returns st_p'
    /\ related (length (nodes d)) st_o' st_p'.
Proof.
  induction todo as [|n rest IH]; intros done st_o st_p Hsplit Hrel.
  - rewrite app_nil_r in Hsplit. subst done. exists st_o, st_p. done.
  - assert (nodes d !! length done = Some n) as Hn.
    { rewrite Hsplit. by rewrite lookup_app_r, Nat.sub_diag. }
    assert (nodes d = (done ++ [n]) ++ rest) as Hsplit' by (by rewrite <- app_assoc).
    assert (length (done ++ [n]) = S (length done)) as Hlen'.
    { rewrite length_app. cbn. lia. }
    destruct (lockstep_step _ _ _ _ Hrel Hn) as (st_o1 & st_p1 & Ho & Hp & Hrel1).
    rewrite <- Hlen' in Hrel1.
    destruct (IH _ _ _ Hsplit' Hrel1) as (st_o' & st_p' & Ho' & Hp' & Hrel').
    exists st_o', st_p'. split; [cbn; by rewrite Ho|]. split; [|done].
    change (n :: rest) with ([n] ++ rest).
    rewrite collect_app, eval_nodes_app, Hp. cbn [mbind outcome_bind length].
    rewrite Nat.add_1_r, <- Hlen'. exact Hp'.
Qed.

Lemma result_columns_of_post env_o env_p (ps : list NodePtr) :
  Forall (fun q => env_p !! rank selB q = env_o !! q) ps ->
  result_columns_of env_p (rank selB <$> ps) = result_columns_of env_o ps.
Proof.
  induction 1 as [|q ps Hq Hps IH]; cbn; [done|]. by rewrite Hq, IH.
Qed.

Lemma result_columns_of_returns (env_o : ColumnsWithTypeAndName) (ps : list NodePtr) :
  Forall (fun q => q < length env_o) ps ->
  exists res, result_columns_of env_o ps = Returns res.
Proof.
  induction 1 as [|q ps Hq Hps [res IH]]; cbn; [eauto|].
  destruct (lookup_lt_is_Some_2 env_o q Hq) as [c ->]. rewrite IH. cbn. eauto.
Qed.

Lemma related_initial :
  related 0 {| ev_block := block; ev_env := []; ev_rows := rows |}
            {| ev_block := Bj; ev_env := []; ev_rows := sum_list lens |}.
Proof.
  unfold split_related. cbn [ev_block ev_env ev_rows].
  rewrite !decide_True by lia. do 6 (split; [done|]).
  split; [constructor|]. split; intros; lia.
Qed.

Lemma related_final st_o st_p :
  related (length (nodes d)) st_o st_p ->
  exists res,
    finish (Index.idx_list (index d)) st_o = Returns (res, sum_list lens)
    /\ finish (rank selB <$> Index.idx_list (index d)) st_p = Returns (res, sum_list lens).
Proof.
  intros (Hlo & Hlp & Hbp & Hrp & Hbo & Hro & Hlive & Hsel8 & Hsel9).
  destruct single_array_join_spec
    as (na & ne & t & Hna & Hne & _ & _ & _ & _ & _ & Hidx & _).
  pose proof (lookup_lt_Some _ _ _ Hne) as Hpe.
  rewrite decide_False in Hro by lia.
  destruct (result_columns_of_returns (ev_env st_o) (Index.idx_list (index d)))
    as [res Hres].
  { apply Forall_forall. intros q Hq. rewrite Hlo. by apply dag_ok_index. }
  exists res. unfold finish. rewrite Hro, Hrp.
  rewrite (result_columns_of_post (ev_env st_o)), Hres; [done|].
  apply Forall_forall. intros q Hq.
  pose proof (dag_ok_index _ _ Hok Hq) as Hlt.
  rewrite (Hsel9 q Hlt (index_in_post _ Hq)).
  rewrite decide_False by (intros ->; done).
  destruct (depends_at deps q) eqn:Hdq; [done|].
  destruct (lookup_lt_is_Some_2 (nodes d) q Hlt) as [m Hm].
  rewrite (Hsel8 q Hlt (independent_in_pre _ _ Hm Hdq)).
  by rewrite decide_False by lia.
Qed.

End WithPre.

(** The original DAG on the block, and the first half, the ARRAY JOIN and the
    second half one after the other. *)
Lemma split_evaluates :
  exists result env,
    evaluate d (block, rows) = Returns result
    /\ evaluate (pre_dag joined d) (block, rows)
       = Returns (pre_value joined d env <$> pre_outputs joined d, rows)
    /\ arrayJoin joined (pre_value joined d env <$> pre_outputs joined d, rows)
       = Returns (joined_block joined d env pa, sum_list (join_lens joined d env pa))
    /\ evaluate (post_dag joined d)
         (joined_block joined d env pa, sum_list (join_lens joined d env pa))
       = Returns result.
Proof.
  destruct (pre_eval_from (nodes d) [] []) as (env & Hev & Hlen & Henv);
    [done|done|cbn; intros; lia|].
  destruct (lockstep env Henv (nodes d) [] _ _ eq_refl (related_initial env))
    as (st_o & st_p & Ho & Hp & Hrel).
  destruct (related_final env _ _ Hrel) as (res & Hfo & Hfp).
  exists (res, sum_list (join_lens joined d env pa)), env.
  split; [|split; [|split]].
  - unfold evaluate. cbn [fst snd]. by rewrite Ho.
  - unfold evaluate, pre_dag. cbn [fst snd nodes index Index.idx_list Index_of].
    cbn [length] in Hev. rewrite Hev. cbn [mbind outcome_bind]. unfold finish.
    cbn [ev_env ev_rows]. by rewrite (result_columns_of_pre env Henv _ pre_outputs_selected).
  - by apply arrayJoin_produced.
  - unfold evaluate, post_dag. cbn [fst snd nodes index Index.idx_list Index_of].
    cbn [length] in Hp. by rewrite Hp.
Qed.

End SplitSound.

(** ** Split: the two halves are DAGs *)

Section Collect.

Context {A : Type}.
Variable f : NodePtr -> Node -> option A.
Variable sel : NodePtr -> bool.

Lemma collect_length ns :
  (forall p n, ns !! p = Some n -> is_Some (f p n) <-> sel p = true) ->
  length (collect f 0 ns) = rank sel (length ns).
Proof.
  induction ns as [|n ns IH] using rev_ind; intros Hsel; [done|].
  rewrite collect_app, !length_app, IH.
  2:{ intros p m Hm. apply Hsel. by apply lookup_app_l_Some. }
  cbn [length collect]. rewrite Nat.add_1_r, rank_S. f_equal.
  specialize (Hsel (length ns) n). rewrite lookup_app_r, Nat.sub_diag in Hsel by lia.
  specialize (Hsel eq_refl). cbn [plus]. destruct (f (length ns) n) as [a|].
  - by rewrite (proj1 Hsel).
  - destruct (sel (length ns)); [|done]. by destruct (proj2 Hsel eq_refl).
Qed.

Lemma collect_lookup ns i a :
  (forall p n, ns !! p = Some n -> is_Some (f p n) <-> sel p = true) ->
  collect f 0 ns !! i = Some a ->
  exists p n, ns !! p = Some n /\ f p n = Some a /\ i = rank sel p.
Proof.
  revert i a. induction ns as [|n ns IH] using rev_ind; intros i a Hsel; [done|].
  assert (forall p m, ns !! p = Some m -> is_Some (f p m) <-> sel p = true) as Hsel'.
  { intros p m Hm. apply Hsel. by apply lookup_app_l_Some. }
  rewrite collect_app. intros [Hi|[Hlen Hi]]%lookup_app_Some.
  - destruct (IH _ _ Hsel' Hi) as (p & m & Hm & Hf & ->).
    exists p, m. split; [by apply lookup_app_l_Some|done].
  - rewrite (collect_length _ Hsel') in Hlen, Hi. cbn [collect plus] in Hi.
    destruct (f (length ns) n) as [b|] eqn:Hf; [|done].
    destruct (i - rank sel (length ns)) as [|?] eqn:Hd; [|done]. injection Hi as ->.
    exists (length ns), n. split; [by rewrite lookup_app_r, Nat.sub_diag by lia|].
    split; [done|lia].
Qed.

End Collect.

Lemma node_ok_remap sel p n :
  node_ok p n = true ->
  Forall (fun c => c < p /\ sel c = true) (children n) ->
  node_ok (rank sel p) (remap sel n) = true.
Proof.
  intros [Hlt Hkind]%andb_true_iff Hch. unfold node_ok.
  apply andb_true_iff. split.
  - cbn [children remap with_children]. apply forallb_forall.
    intros r Hr%list_elem_of_In. apply list_elem_of_fmap in Hr as (c & -> & Hc).
    rewrite Forall_forall in Hch. destruct (Hch c Hc) as [Hcp Hsel].
    apply bool_decide_eq_true. by apply rank_lt.
  - cbn [type children column function remap with_children].
    destruct (type n); try done.
    + apply bool_decide_eq_true in Hkind. rewrite Hkind. done.
    + apply andb_true_iff in Hkind as [Hkind Hcol]. apply bool_decide_eq_true in Hkind.
      rewrite Hkind. done.
    + by rewrite length_fmap.
    + by rewrite length_fmap.
Qed.

Section TwoHalves.

Variable joined : gset string.
Variable d : ActionsDAG.

Hypothesis Hok : dag_ok d = true.

Local Abbreviation deps := (depends joined d).
Local Abbreviation selA := (in_pre joined d (depends joined d)).
Local Abbreviation selB := (in_post d (depends joined d)).

Lemma pre_node_selected p n :
  nodes d !! p = Some n -> is_Some (pre_node joined d deps p n) <-> selA p = true.
Proof.
  intros Hn. unfold pre_node. destruct (selA p); [by split; eauto|].
  split; [by intros [? ?]|done].
Qed.

Lemma post_node_selected p n :
  nodes d !! p = Some n -> is_Some (post_node joined d deps p n) <-> selB p = true.
Proof.
  intros Hn. unfold post_node, in_post.
  rewrite bool_decide_eq_true_2 by (by eapply lookup_lt_Some). cbn.
  destruct (depends_at deps p); cbn.
  - destruct (is_joined_input joined n); [by split; eauto|].
    destruct (unfolds_joined_input joined d n); by split; eauto.
  - destruct (needed d deps p); [by split; eauto|]. split; [by intros [? ?]|done].
Qed.

Lemma pre_dag_ok : dag_ok (pre_dag joined d) = true.
Proof.
  unfold dag_ok, pre_dag. cbn [nodes index Index.idx_list Index_of].
  apply andb_true_iff. split.
  - apply forallb_forall. intros [i a] Hi%list_elem_of_In.
    apply list_elem_of_lookup in Hi as [j Hj]. rewrite list_lookup_imap in Hj.
    destruct (collect _ 0 (nodes d) !! j) as [a'|] eqn:Ha; [|done].
    injection Hj as <- <-.
    destruct (collect_lookup _ selA _ _ _ pre_node_selected Ha) as (p & n & Hn & Hf & ->).
    unfold pre_node in Hf. destruct (selA p) eqn:Hsel; [|done]. injection Hf as <-.
    cbn [fst snd]. apply node_ok_remap; [by apply (dag_ok_node d)|].
    eapply Forall_impl; [apply (pre_children_ranked joined d Hok p n p Hn Hsel); lia|].
    by intros c (? & ? & _).
  - apply forallb_forall. intros r Hr%list_elem_of_In.
    apply list_elem_of_fmap in Hr as (q & -> & Hq).
    apply pre_outputs_spec in Hq as (Hlt & Hsel & _).
    apply bool_decide_eq_true.
    rewrite (collect_length _ selA _ pre_node_selected). by apply rank_lt.
Qed.

Lemma post_dag_ok : dag_ok (post_dag joined d) = true.
Proof.
  unfold dag_ok, post_dag. cbn [nodes index Index.idx_list Index_of].
  apply andb_true_iff. split.
  - apply forallb_forall. intros [i a] Hi%list_elem_of_In.
    apply list_elem_of_lookup in Hi as [j Hj]. rewrite list_lookup_imap in Hj.
    destruct (collect _ 0 (nodes d) !! j) as [a'|] eqn:Ha; [|done].
    injection Hj as <- <-.
    destruct (collect_lookup _ selB _ _ _ post_node_selected Ha) as (p & n & Hn & Hf & ->).
    cbn [fst snd]. unfold post_node in Hf.
    destruct (depends_at deps p) eqn:Hdep.
    + pose proof (node_ok_remap selB p n (dag_ok_node d _ _ Hok Hn)
                    (children_in_post joined d Hok _ _ Hn Hdep)) as Hre.
      destruct (is_joined_input joined n); [by injection Hf as <-|].
      destruct (unfolds_joined_input joined d n) eqn:Hun; [|by injection Hf as <-].
      injection Hf as <-. unfold unfolds_joined_input in Hun.
      apply andb_true_iff in Hun as [Hty%bool_decide_eq_true _].
      unfold node_ok in Hre |- *. cbn [type children as_alias remap with_children] in Hre |- *.
      by rewrite Hty in Hre.
    + destruct (needed d deps p); [|done]. by injection Hf as <-.
  - apply forallb_forall. intros r Hr%list_elem_of_In.
    apply list_elem_of_fmap in Hr as (q & -> & Hq).
    apply bool_decide_eq_true.
    rewrite (collect_length _ selB _ post_node_selected).
    apply rank_lt; [by apply dag_ok_index|by apply index_in_post].
Qed.

Lemma pre_dag_constant :
  constant_columns d = true -> constant_columns (pre_dag joined d) = true.
Proof.
  intros Hconst. unfold constant_columns, pre_dag. cbn [nodes].
  apply forallb_forall. intros a Ha%list_elem_of_In.
  apply list_elem_of_lookup in Ha as [j Hj].
  destruct (collect_lookup _ selA _ _ _ pre_node_selected Hj) as (p & n & Hn & Hf & _).
  unfold pre_node in Hf. destruct (selA p); [|done]. injection Hf as <-.
  cbn [type column remap with_children].
  destruct (type n) eqn:Hty; try done. destruct (column n) as [col|] eqn:Hcol; [|done].
  by eapply constant_column.
Qed.

Lemma post_dag_constant :
  constant_columns d = true -> constant_columns (post_dag joined d) = true.
Proof.
  intros Hconst. unfold constant_columns, post_dag. cbn [nodes].
  apply forallb_forall. intros a Ha%list_elem_of_In.
  apply list_elem_of_lookup in Ha as [j Hj].
  destruct (collect_lookup _ selB _ _ _ post_node_selected Hj) as (p & n & Hn & Hf & _).
  unfold post_node in Hf.
  destruct (depends_at deps p).
  - destruct (is_joined_input joined n); [by injection Hf as <-|].
    destruct (unfolds_joined_input joined d n); injection Hf as <-; [done|].
    cbn [type column remap with_children].
    destruct (type n) eqn:Hty; try done. destruct (column n) as [col|] eqn:Hcol; [|done].
    by eapply constant_column.
  - destruct (needed d deps p); [|done]. by injection Hf as <-.
Qed.

(** ** Split: when nothing is returned *)

Lemma depends_at_Depends p :
  p < length (nodes d) -> depends_at deps p = true <-> Depends joined d p.
Proof.
  intros Hp. split.
  - induction (lt_wf p) as [p _ IH]. intros Hdep.
    destruct (lookup_lt_is_Some_2 _ _ Hp) as [n Hn].
    rewrite (depends_at_unfold joined d Hok _ _ Hn) in Hdep.
    apply orb_true_iff in Hdep as [Hdep|Hch].
    + apply orb_true_iff in Hdep as [Hdep|Hrs].
      * apply orb_true_iff in Hdep as [Hname|Haj].
        -- apply bool_decide_eq_true in Hname. by eapply Depends_named.
        -- apply bool_decide_eq_true in Haj. by eapply Depends_array_join.
      * apply andb_true_iff in Hrs as [Hty%bool_decide_eq_true Hrs].
        by eapply Depends_row_sensitive.
    + apply existsb_exists in Hch as (c & Hc%list_elem_of_In & Hdc).
      pose proof (children_lt _ _ _ Hok Hn) as Hlt. rewrite Forall_forall in Hlt.
      specialize (Hlt c Hc). eapply Depends_child; [done..|].
      apply IH; [done|lia|done].
  - induction 1 as [q n Hn Hname|q n Hn Hty|q n Hn Hty Hrs|q n c Hn Hc Hdc IH];
      rewrite (depends_at_unfold joined d Hok _ _ Hn).
    + by rewrite bool_decide_eq_true_2.
    + rewrite (bool_decide_eq_true_2 (type n = ARRAY_JOIN)) by done.
      by rewrite orb_true_r.
    + rewrite (bool_decide_eq_true_2 (type n = FUNCTION)), Hrs by done. cbn.
      by rewrite orb_true_r.
    + apply orb_true_iff. right. apply existsb_exists. exists c.
      split; [by apply list_elem_of_In|]. apply IH.
      pose proof (children_lt _ _ _ Hok Hn) as Hlt. rewrite Forall_forall in Hlt.
      specialize (Hlt c Hc). apply lookup_lt_Some in Hn. lia.
Qed.

Lemma split_null_iff :
  splitActionsBeforeArrayJoin joined d = None
  <-> forall p n, nodes d !! p = Some n -> is_action n = true -> Depends joined d p.
Proof.
  unfold splitActionsBeforeArrayJoin.
  destruct (existsb _ _) eqn:Hex.
  - split; [done|]. intros Hall. exfalso.
    apply existsb_exists in Hex as ([b n] & Hin%list_elem_of_In & Hb).
    apply list_elem_of_lookup in Hin as [p Hp].
    apply lookup_zip_with_Some in Hp as (b' & n' & [= <- <-] & Hb' & Hn).
    cbn in Hb. apply andb_true_iff in Hb as [Hb Ha].
    pose proof (lookup_lt_Some _ _ _ Hn) as Hlt.
    specialize (Hall p n Hn Ha). apply (depends_at_Depends _ Hlt) in Hall.
    unfold depends_at in Hall. rewrite Hb' in Hall. cbn in Hall. by rewrite Hall in Hb.
  - split; [|done]. intros _ p n Hn Ha.
    pose proof (lookup_lt_Some _ _ _ Hn) as Hlt.
    apply (depends_at_Depends _ Hlt).
    destruct (depends_at deps p) eqn:Hdep; [done|].
    assert (existsb (fun bn : bool * Node => negb bn.1 && is_action bn.2)
              (zip deps (nodes d)) = true) as Hex'; [|congruence].
    apply existsb_exists. exists (false, n). split; [|by cbn].
    apply list_elem_of_In, list_elem_of_lookup. exists p.
    rewrite lookup_zip_with, (depends_lookup joined d _ Hlt), Hdep, Hn. done.
Qed.

End TwoHalves.

(** ** The blocks that a DAG accepts *)

Lemma eval_nodes_inputs_carried ns : forall st st',
  eval_nodes ns st = Returns st' ->
  forallb (carries (ev_block st)) (omap required_of ns) = true.
Proof.
  induction ns as [|n ns IH]; intros st st' H; cbn in H |- *; [done|].
  apply bind_Returns in H as (st1 & H1 & H).
  unfold eval_node in H1. apply bind_Returns in H1 as (r & Hr & [= <-]).
  specialize (IH _ _ H).
  assert (forallb (carries (ev_block st)) (omap required_of ns) = true) as Hrest.
  { unfold advance in IH. destruct r.2 as [lens|]; cbn [ev_block] in IH; [|done].
    rewrite forallb_forall in IH |- *. intros nt Hnt.
    rewrite <- (carries_replicate lens). by apply IH. }
  unfold required_of at 1. unfold node_result in Hr.
  destruct (type n); try done. cbn. rewrite Hrest, andb_true_r.
  by destruct (carries (ev_block st) _).
Qed.

Lemma evaluate_inputs_carried d block rows result :
  evaluate d (block, rows) = Returns result -> inputs_carried d block = true.
Proof.
  unfold evaluate. intros (st & Hst & _)%bind_Returns.
  by apply eval_nodes_inputs_carried in Hst.
Qed.

(** ** Split: the theorem *)


(** ** Split: scenario 5 *)

Lemma zip_with_replicate {A B C} (op : A -> B -> C) l x y :
  zip_with op (replicate l x) (replicate l y) = replicate l (op x y).
Proof. induction l as [|l IH]; cbn; [done|]. by rewrite IH. Qed.

Lemma zip_with_repeated {A B C} (op : A -> B -> C) lens : forall xs ys,
  length xs = length lens -> length ys = length lens ->
  zip_with op (concat (zip_with replicate lens xs)) (concat (zip_with replicate lens ys))
  = concat (zip_with replicate lens (zip_with op xs ys)).
Proof.
  induction lens as [|l lens IH]; intros [|x xs] [|y ys] Hx Hy; cbn in *; try done.
  rewrite zip_with_app by (by rewrite !length_replicate).
  rewrite zip_with_replicate, IH by lia. done.
Qed.

Lemma replicate_rows_values lens c :
  column_size c = length lens ->
  column_values (replicate_rows lens c) = concat (zip_with replicate lens (column_values c)).
Proof.
  destruct c as [vs|v n]; cbn; [done|]. unfold column_size. cbn.
  rewrite length_replicate. intros ->.
  induction lens as [|l lens IH]; cbn; [done|]. by rewrite replicate_add, IH.
Qed.

Lemma binary_fn_commutes op : commutes_with_replication (binary_fn op).
Proof.
  intros lens cols Hcols. destruct cols as [|a [|b [|c cols]]]; cbn; try done.
  apply Forall_cons in Hcols as [Ha Hcols]. apply Forall_cons in Hcols as [Hb _].
  rewrite !replicate_rows_values by done. f_equal.
  by apply zip_with_repeated.
Qed.

Lemma binary_fn_keeps_rows op : keeps_rows (binary_fn op).
Proof.
  intros cols rows Hcols. unfold column_size.
  destruct cols as [|a [|b [|c cols]]]; cbn; try by rewrite length_replicate.
  apply Forall_cons in Hcols as [Ha Hcols]. apply Forall_cons in Hcols as [Hb _].
  unfold column_size in Ha, Hb. rewrite length_zip_with. lia.
Qed.

Lemma nodes_s5_row_independent idx :
  row_independent {["arr"]}
    {| nodes := nodes_s5; index := idx; settings := default_settings |}.
Proof.
  intros p n f Hn Hty Hdep Hf.
  destruct p as [|[|[|[|[|[|p]]]]]]; cbn in Hn; try done; injection Hn as <-; try done.
  cbn in Hf. injection Hf as <-. split; [apply binary_fn_commutes|apply binary_fn_keeps_rows].
Qed.

(** Scenario 5 of §8, in the model: the plan of the DAG gives, on the block of
    the scenario, the three rows of [r] that the two halves give around the
    ARRAY JOIN; with [k2 = k * 2] these are 21, 22 and 43. *)
Example split_scenario_5 :
  execute (linearizeActions [0; 1; 2; 3; 4; 1] dag_s5) block_arr 2 false
  = Returns ([mkColumnWithTypeAndName (Some (ColumnFull [VInt 21; VInt 22; VInt 43]))
                (Some DataTypeInt64) "r"], 3).
Proof. vm_compute. reflexivity. Qed.

(** The two halves of scenario 5: the first produces [k2] alongside [arr]; the
    ARRAY JOIN unfolds [arr] and repeats the rows of [k2]; the second half
    computes [r]. *)
Example split_scenario_5_halves :
  splitActionsBeforeArrayJoin {["arr"]} dag_s5
  = Some (pre_dag {["arr"]} dag_s5, post_dag {["arr"]} dag_s5)
  /\ execute (linearizeActions [0; 1; 2; 3] (pre_dag {["arr"]} dag_s5)) block_arr 2 false
     = Returns ([mkColumnWithTypeAndName
                   (Some (ColumnFull [VArray [VInt 1; VInt 2]; VArray [VInt 3]]))
                   (Some (DataTypeArray DataTypeInt64)) "arr";
                 mkColumnWithTypeAndName (Some (ColumnFull [VInt 20; VInt 40]))
                   (Some DataTypeInt64) "k2"], 2)
  /\ arrayJoin {["arr"]}
       ([mkColumnWithTypeAndName
           (Some (ColumnFull [VArray [VInt 1; VInt 2]; VArray [VInt 3]]))
           (Some (DataTypeArray DataTypeInt64)) "arr";
         mkColumnWithTypeAndName (Some (ColumnFull [VInt 20; VInt 40]))
           (Some DataTypeInt64) "k2"], 2)
     = Returns ([mkColumnWithTypeAndName (Some (ColumnFull [VInt 1; VInt 2; VInt 3]))
                   (Some DataTypeInt64) "arr";
                 mkColumnWithTypeAndName (Some (ColumnFull [VInt 20; VInt 20; VInt 40]))
                   (Some DataTypeInt64) "k2"], 3)
  /\ execute (linearizeActions [0; 1; 2; 0] (post_dag {["arr"]} dag_s5))
       [mkColumnWithTypeAndName (Some (ColumnFull [VInt 1; VInt 2; VInt 3]))
          (Some DataTypeInt64) "arr";
        mkColumnWithTypeAndName (Some (ColumnFull [VInt 20; VInt 20; VInt 40]))
          (Some DataTypeInt64) "k2"] 3 false
     = Returns ([mkColumnWithTypeAndName (Some (ColumnFull [VInt 21; VInt 22; VInt 43]))
                   (Some DataTypeInt64) "r"], 3).
Proof. repeat split; vm_compute; reflexivity. Qed.




(** ** The Index under sequences of calls *)

Lemma Index_call_cases arena c i i' :
  Index_call arena c i = Returns i' ->
  (exists node n,
      arena !! node = Some n
      /\ i' = {| Index.idx_list := Index.idx_list i ++ [node];
                 Index.idx_map := <[result_name n := length (Index.idx_list i)]>
                                    (Index.idx_map i) |})
  \/ (exists node n it,
         arena !! node = Some n
         /\ Index.idx_map i !! result_name n = Some it
         /\ it < length (Index.idx_list i)
         /\ i' = {| Index.idx_list := <[it := node]> (Index.idx_list i);
                    Index.idx_map := Index.idx_map i |})
  \/ i' = i.
Proof.
  destruct c as [node|node|node]; cbn.
  - destruct (arena !! node) as [n|] eqn:Hn.
    + rewrite (Index_insert_returns _ _ _ _ Hn). intros [= <-]. left. eauto.
    + unfold Index.insert. by rewrite Hn.
  - destruct (arena !! node) as [n|] eqn:Hn.
    + destruct (Index.idx_map i !! result_name n) as [it|] eqn:Hit.
      * destruct (decide (it < length (Index.idx_list i))) as [Hlt|Hge].
        -- rewrite (Index_replace_present _ _ _ _ _ Hn Hit Hlt). intros [= <-].
           right. left. eauto 10.
        -- unfold Index.replace. rewrite Hn, Hit. by rewrite decide_False.
      * rewrite (Index_replace_absent _ _ _ _ Hn Hit).
        rewrite (Index_insert_returns _ _ _ _ Hn). intros [= <-]. left. eauto.
    + unfold Index.replace. by rewrite Hn.
  - unfold Index.remove. destruct (arena !! node) as [n|]; [|done].
    destruct (Index.idx_map i !! result_name n); [|done].
    intros [= <-]. by right; right.
Qed.

Lemma Index_wf_call arena c i i' :
  Index.wf arena i -> Index_call arena c i = Returns i' -> Index.wf arena i'.
Proof.
  intros Hwf Hc.
  destruct (Index_call_cases _ _ _ _ Hc)
    as [(node & n & Hn & ->)|[(node & n & it & Hn & Hit & Hlt & ->)| ->]]; [| |done].
  - intros key it. cbn. destruct (decide (key = result_name n)) as [->|Hne].
    + rewrite lookup_insert_eq. intros [= <-]. exists node, n.
      by rewrite lookup_app_r, Nat.sub_diag.
    + rewrite lookup_insert_ne by done. intros Hit.
      destruct (Hwf _ _ Hit) as (p & m & Hp & Hm & Hname).
      exists p, m. split; [by apply lookup_app_l_Some|done].
  - intros key it'. cbn. intros Hit'.
    destruct (Hwf _ _ Hit) as (p & m & Hp & Hm & Hname).
    destruct (Hwf _ _ Hit') as (p' & m' & Hp' & Hm' & Hname').
    destruct (decide (it' = it)) as [->|Hne].
    + exists node, n. split; [by apply list_lookup_insert_eq|].
      split; [done|]. congruence.
    + exists p', m'. by rewrite list_lookup_insert_ne.
Qed.

Lemma Index_wf_calls arena cs : forall i i',
  Index.wf arena i -> Index_calls arena cs i = Returns i' -> Index.wf arena i'.
Proof.
  induction cs as [|c cs IH]; intros i i' Hwf H; cbn in H.
  - by injection H as <-.
  - apply bind_Returns in H as (i1 & Hc & Hrest).
    eapply IH; [|done]. by eapply Index_wf_call.
Qed.

Lemma Index_empty_wf arena : Index.wf arena Index.empty.
Proof. intros key it. cbn. by rewrite lookup_empty. Qed.

Lemma Index_wf_find arena i key :
  Index.wf arena i ->
  (Index.contains key i = true ->
     Index.find key i <> Index.end_ i
     /\ exists node n, Index.deref (Index.find key i) i = Some node
                       /\ arena !! node = Some n /\ result_name n = key)
  /\ (Index.contains key i = false ->
        Index.find key i = Index.end_ i
        /\ Index.deref (Index.find key i) i = None).
Proof.
  intros Hwf. unfold Index.find, Index.deref, Index.end_. split.
  - intros [it Hit]%Index_contains_spec. rewrite Hit.
    destruct (Hwf _ _ Hit) as (node & n & Hnode & Hn & Hname).
    split; [apply lookup_lt_Some in Hnode; lia|eauto].
  - intros Hno%Index_contains_false. rewrite Hno. split; [done|].
    by apply lookup_ge_None_2.
Qed.

(** X1.  "Map always point to existing node": after any sequence of [insert],
    [replace] and [remove] calls on an empty index, a name that the index
    contains is found at a cell of the list, before [end()], and the node in
    that cell has this name; a name that it does not contain is found at
    [end()]. *)
Theorem Index_calls_keep_map_valid
    (arena : Nodes) (cs : list IndexCall) (i' : Index.t) (key : string) :
  Index_calls arena cs Index.empty = Returns i' ->
  (Index.contains key i' = true ->
     Index.find key i' <> Index.end_ i'
     /\ exists node n, Index.deref (Index.find key i') i' = Some node
                       /\ arena !! node = Some n /\ result_name n = key)
  /\ (Index.contains key i' = false ->
        Index.find key i' = Index.end_ i'
        /\ Index.deref (Index.find key i') i' = None).
Proof.
  intros H. apply Index_wf_find.
  eapply Index_wf_calls; [apply Index_empty_wf|done].
Qed.

Lemma Index_calls_keep_map_valid_witness :
  exists i',
    Index_calls arena_xxy [IndexInsert 0; IndexInsert 2; IndexReplace 1; IndexRemove 2]
      Index.empty = Returns i'
    /\ (Index.contains "x" i' = true ->
          Index.find "x" i' <> Index.end_ i'
          /\ exists node n, Index.deref (Index.find "x" i') i' = Some node
                            /\ arena_xxy !! node = Some n /\ result_name n = "x"%string)
    /\ (Index.contains "x" i' = false ->
          Index.find "x" i' = Index.end_ i'
          /\ Index.deref (Index.find "x" i') i' = None).
Proof.
  eexists. split; [reflexivity|].
  apply (Index_calls_keep_map_valid arena_xxy
           [IndexInsert 0; IndexInsert 2; IndexReplace 1; IndexRemove 2]).
  reflexivity.
Defined.

Lemma Index_call_grows arena c i i' :
  Index_call arena c i = Returns i' ->
  Index.size i <= Index.size i'
  /\ (forall key, Index.contains key i = true -> Index.contains key i' = true).
Proof.
  intros Hc. unfold Index.size.
  destruct (Index_call_cases _ _ _ _ Hc)
    as [(node & n & Hn & ->)|[(node & n & it & Hn & Hit & Hlt & ->)| ->]]; cbn.
  - rewrite length_app. split; [lia|]. intros key [it Hit]%Index_contains_spec.
    apply Index_contains_spec. cbn.
    destruct (decide (key = result_name n)) as [->|Hne].
    + rewrite lookup_insert_eq. eauto.
    + rewrite lookup_insert_ne by done. eauto.
  - rewrite length_insert. done.
  - done.
Qed.

(** X2.  No call of [insert], [replace] or [remove] takes anything out of an
    index: after any sequence of them [size()] is at least what it was, and
    every name that was contained still is. *)
Theorem Index_calls_never_shrink
    (arena : Nodes) (cs : list IndexCall) (i i' : Index.t) :
  Index_calls arena cs i = Returns i' ->
  Index.size i <= Index.size i'
  /\ (forall key, Index.contains key i = true -> Index.contains key i' = true).
Proof.
  revert i. induction cs as [|c cs IH]; intros i H; cbn in H.
  - by injection H as <-.
  - apply bind_Returns in H as (i1 & Hc & Hrest).
    destruct (Index_call_grows _ _ _ _ Hc) as [Hs Hk].
    destruct (IH _ Hrest) as [Hs' Hk']. split; [lia|]. auto.
Qed.

Lemma Index_calls_never_shrink_witness :
  exists i',
    Index_calls arena_xxy [IndexReplace 1; IndexInsert 2; IndexRemove 2; IndexInsert 0]
      (index dag_x) = Returns i'
    /\ Index.size (index dag_x) <= Index.size i'
    /\ (forall key, Index.contains key (index dag_x) = true ->
                    Index.contains key i' = true).
Proof.
  eexists. split; [reflexivity|].
  apply (Index_calls_never_shrink arena_xxy
           [IndexReplace 1; IndexInsert 2; IndexRemove 2; IndexInsert 0]).
  reflexivity.
Defined.

Lemma Index_call_names_at_most_size arena c i i' :
  size (Index.idx_map i) <= Index.size i ->
  Index_call arena c i = Returns i' ->
  size (Index.idx_map i') <= Index.size i'.
Proof.
  intros Hle Hc. unfold Index.size in *.
  destruct (Index_call_cases _ _ _ _ Hc)
    as [(node & n & Hn & ->)|[(node & n & it & Hn & Hit & Hlt & ->)| ->]]; cbn.
  - rewrite length_app, map_size_insert. cbn.
    destruct (Index.idx_map i !! result_name n); cbn; lia.
  - by rewrite length_insert.
  - done.
Qed.

(** X3.  [size()] counts the entries of the list, not the names: after any
    sequence of calls on an empty index there are at most [size()] names in
    the map, and a further [insert] of a node whose name is contained leaves
    strictly fewer names than entries. *)
Theorem Index_size_counts_entries
    (arena : Nodes) (cs : list IndexCall) (i' : Index.t) :
  Index_calls arena cs Index.empty = Returns i' ->
  size (Index.idx_map i') <= Index.size i'
  /\ (forall node n i'',
        arena !! node = Some n ->
        Index.contains (result_name n) i' = true ->
        Index.insert arena node i' = Returns i'' ->
        size (Index.idx_map i'') < Index.size i'').
Proof.
  intros H.
  assert (size (Index.idx_map i') <= Index.size i') as Hle.
  { assert (forall i, size (Index.idx_map i) <= Index.size i ->
              Index_calls arena cs i = Returns i' ->
              size (Index.idx_map i') <= Index.size i') as Hgen.
    { clear H. induction cs as [|c cs IH]; intros i Hi Hc; cbn in Hc.
      - by injection Hc as <-.
      - apply bind_Returns in Hc as (i1 & Hc & Hrest).
        eapply IH; [|done]. by eapply Index_call_names_at_most_size. }
    apply (Hgen Index.empty); [|done]. cbn. rewrite map_size_empty. lia. }
  split; [done|]. intros node n i'' Hn Hc Hins.
  rewrite (Index_insert_returns _ _ _ _ Hn) in Hins. injection Hins as <-.
  unfold Index.size in *. cbn. rewrite length_app. cbn.
  rewrite map_size_insert_Some by by apply Index_contains_spec. lia.
Qed.

Lemma Index_size_counts_entries_witness :
  exists i',
    Index_calls arena_xxy [IndexInsert 0; IndexInsert 2; IndexReplace 1] Index.empty
    = Returns i'
    /\ size (Index.idx_map i') <= Index.size i'
    /\ (forall node n i'',
          arena_xxy !! node = Some n ->
          Index.contains (result_name n) i' = true ->
          Index.insert arena_xxy node i' = Returns i'' ->
          size (Index.idx_map i'') < Index.size i'').
Proof.
  eexists. split; [reflexivity|].
  apply (Index_size_counts_entries arena_xxy
           [IndexInsert 0; IndexInsert 2; IndexReplace 1]).
  reflexivity.
Defined.



(** ** insert and replace of a name that is contained *)

Lemma arena_xxy_wf : Index.wf arena_xxy (index dag_x).
Proof.
  intros key it. cbn. intros [<- <-]%lookup_singleton_Some.
  by exists 0, (input_node "x" (Some DataTypeInt64)).
Qed.

(** X4.  "If node with the same name exists, it is removed from map, but not
    list": [insert] on an index whose map points to existing nodes adds one
    entry at the end and keeps every cell of the list; the name of the node
    is now found at the node, and if it was contained before, the cell where
    it was found still holds the old node but is not where the name is found
    any more.  Every other name is found where it was. *)
Theorem Index_insert_shadows
    (arena : Nodes) (node : NodePtr) (n : Node) (i : Index.t) :
  Index.wf arena i ->
  arena !! node = Some n ->
  exists i',
    Index.insert arena node i = Returns i'
    /\ Index.size i' = S (Index.size i)
    /\ Index.names arena i' = Index.names arena i ++ [result_name n]
    /\ (forall it p, Index.deref it i = Some p -> Index.deref it i' = Some p)
    /\ Index.deref (Index.find (result_name n) i') i' = Some node
    /\ (Index.contains (result_name n) i = true ->
          Index.find (result_name n) i' <> Index.find (result_name n) i
          /\ Index.deref (Index.find (result_name n) i) i'
             = Index.deref (Index.find (result_name n) i) i)
    /\ (forall key, key <> result_name n ->
          Index.contains key i' = Index.contains key i
          /\ Index.deref (Index.find key i') i' = Index.deref (Index.find key i) i).
Proof.
  intros Hwf Hn. rewrite (Index_insert_returns _ _ _ _ Hn).
  eexists. split; [reflexivity|].
  unfold Index.size, Index.names, Index.deref, Index.find, Index.end_. cbn.
  split. { rewrite length_app. cbn. lia. }
  split. { rewrite omap_app. cbn. by rewrite Hn. }
  split. { intros it p Hp. by apply lookup_app_l_Some. }
  rewrite lookup_insert_eq.
  split. { by rewrite lookup_app_r, Nat.sub_diag. }
  split.
  { intros [it Hit]%Index_contains_spec. rewrite Hit.
    destruct (Hwf _ _ Hit) as (p & m & Hp & _).
    split; [apply lookup_lt_Some in Hp; lia|].
    rewrite Hp. by apply lookup_app_l_Some. }
  intros key Hne. split.
  { unfold Index.contains. cbn. by rewrite lookup_insert_ne. }
  rewrite lookup_insert_ne by done. rewrite length_app. cbn.
  destruct (Index.idx_map i !! key) as [it'|] eqn:Hit'.
  - destruct (Hwf _ _ Hit') as (p' & m' & Hp' & _).
    rewrite Hp'. by apply lookup_app_l_Some.
  - rewrite !lookup_ge_None_2; [done|lia|rewrite length_app; cbn; lia].
Qed.

Lemma Index_insert_shadows_witness :
  exists i',
    Index.insert arena_xxy 1 (index dag_x) = Returns i'
    /\ Index.size i' = S (Index.size (index dag_x))
    /\ Index.names arena_xxy i' = Index.names arena_xxy (index dag_x) ++ ["x"%string]
    /\ (forall it p, Index.deref it (index dag_x) = Some p -> Index.deref it i' = Some p)
    /\ Index.deref (Index.find "x" i') i' = Some 1
    /\ (Index.contains "x" (index dag_x) = true ->
          Index.find "x" i' <> Index.find "x" (index dag_x)
          /\ Index.deref (Index.find "x" (index dag_x)) i'
             = Index.deref (Index.find "x" (index dag_x)) (index dag_x))
    /\ (forall key, key <> "x"%string ->
          Index.contains key i' = Index.contains key (index dag_x)
          /\ Index.deref (Index.find key i') i'
             = Index.deref (Index.find key (index dag_x)) (index dag_x)).
Proof.
  apply (Index_insert_shadows arena_xxy 1 (input_node "x" (Some DataTypeString))
           (index dag_x)).
  - exact arena_xxy_wf.
  - reflexivity.
Defined.

Lemma names_overwrite (arena : Nodes) node n : forall (l : list NodePtr) it p m,
  l !! it = Some p -> arena !! p = Some m -> arena !! node = Some n ->
  result_name m = result_name n ->
  omap (fun q => result_name <$> arena !! q) (<[it := node]> l)
  = omap (fun q => result_name <$> arena !! q) l.
Proof.
  induction l as [|q l IH]; intros it p m Hp Hm Hn Hname; [done|].
  destruct it as [|it]; cbn [omap list_omap insert list_insert].
  - injection Hp as ->. rewrite Hm, Hn. cbn. by rewrite Hname.
  - cbn in Hp. specialize (IH it p m Hp Hm Hn Hname).
    destruct (result_name <$> arena !! q); [f_equal|]; exact IH.
Qed.



(** X5.  [replace] on an index whose map points to existing nodes always
    returns, and afterwards the name of the node is found at the node.  If
    the name was contained, the cell that the map gives for it is overwritten:
    [size()], the iterator of the name and the sequence of the names of the
    result are what they were.  If it was not, [replace] is [insert]: one more
    entry, with the name at the end.  Every other name is found where it
    was. *)
Theorem Index_replace_in_place_or_append
    (arena : Nodes) (node : NodePtr) (n : Node) (i : Index.t) :
  Index.wf arena i ->
  arena !! node = Some n ->
  exists i',
    Index.replace arena node i = Returns i'
    /\ Index.contains (result_name n) i' = true
    /\ Index.deref (Index.find (result_name n) i') i' = Some node
    /\ (Index.contains (result_name n) i = true ->
          Index.size i' = Index.size i
          /\ Index.find (result_name n) i' = Index.find (result_name n) i
          /\ Index.names arena i' = Index.names arena i)
    /\ (Index.contains (result_name n) i = false ->
          Index.replace arena node i = Index.insert arena node i
          /\ Index.size i' = S (Index.size i)
          /\ Index.names arena i' = Index.names arena i ++ [result_name n])
    /\ (forall key, key <> result_name n ->
          Index.contains key i' = Index.contains key i
          /\ Index.deref (Index.find key i') i' = Index.deref (Index.find key i) i).
Proof.
  intros Hwf Hn.
  destruct (Index.idx_map i !! result_name n) as [it|] eqn:Hit.
  - destruct (Hwf _ _ Hit) as (p & m & Hp & Hm & Hname).
    apply lookup_lt_Some in Hp as Hlt.
    rewrite (Index_replace_present _ _ _ _ _ Hn Hit Hlt).
    eexists. split; [reflexivity|].
    split. { apply Index_contains_spec. cbn. eauto. }
    split. { unfold Index.find, Index.deref. cbn. rewrite Hit.
             by apply list_lookup_insert_eq. }
    split. { intros _. unfold Index.size, Index.find, Index.names. cbn.
             rewrite length_insert. split; [done|]. split; [done|].
             by eapply names_overwrite. }
    split. { intros Hno%Index_contains_false. congruence. }
    intros key Hne. split; [done|].
    unfold Index.find, Index.deref, Index.end_. cbn. rewrite length_insert.
    destruct (Index.idx_map i !! key) as [it'|] eqn:Hit'.
    + destruct (Hwf _ _ Hit') as (p' & m' & Hp' & Hm' & Hname').
      rewrite list_lookup_insert_ne; [done|]. intros ->. congruence.
    + rewrite !lookup_ge_None_2; [done|lia|by rewrite length_insert].
  - rewrite (Index_replace_absent _ _ _ _ Hn Hit).
    rewrite (Index_insert_returns _ _ _ _ Hn).
    eexists. split; [reflexivity|].
    split. { apply Index_contains_spec. cbn. rewrite lookup_insert_eq. eauto. }
    split. { unfold Index.find, Index.deref. cbn. rewrite lookup_insert_eq.
             by rewrite lookup_app_r, Nat.sub_diag. }
    split. { intros [it Hit']%Index_contains_spec. congruence. }
    split. { intros _. split; [done|]. unfold Index.size, Index.names. cbn.
             rewrite length_app, omap_app. cbn. rewrite Hn. cbn.
             split; [lia|done]. }
    intros key Hne. split.
    { unfold Index.contains. cbn. by rewrite lookup_insert_ne. }
    unfold Index.find, Index.deref, Index.end_. cbn.
    rewrite lookup_insert_ne by done. rewrite length_app. cbn.
    destruct (Index.idx_map i !! key) as [it'|] eqn:Hit'.
    + destruct (Hwf _ _ Hit') as (p' & m' & Hp' & Hm' & Hname').
      rewrite Hp'. by apply lookup_app_l_Some.
    + rewrite !lookup_ge_None_2; [done|lia|rewrite length_app; cbn; lia].
Qed.


Lemma Index_replace_in_place_or_append_witness :
  exists i',
    Index.replace arena_xxy 1 (index dag_x) = Returns i'
    /\ Index.contains "x" i' = true
    /\ Index.deref (Index.find "x" i') i' = Some 1
    /\ (Index.contains "x" (index dag_x) = true ->
          Index.size i' = Index.size (index dag_x)
          /\ Index.find "x" i' = Index.find "x" (index dag_x)
          /\ Index.names arena_xxy i' = Index.names arena_xxy (index dag_x))
    /\ (Index.contains "x" (index dag_x) = false ->
          Index.replace arena_xxy 1 (index dag_x) = Index.insert arena_xxy 1 (index dag_x)
          /\ Index.size i' = S (Index.size (index dag_x))
          /\ Index.names arena_xxy i' = Index.names arena_xxy (index dag_x) ++ ["x"%string])
    /\ (forall key, key <> "x"%string ->
          Index.contains key i' = Index.contains key (index dag_x)
          /\ Index.deref (Index.find key i') i'
             = Index.deref (Index.find key (index dag_x)) (index dag_x)).
Proof.
  apply (Index_replace_in_place_or_append arena_xxy 1
           (input_node "x" (Some DataTypeString)) (index dag_x)).
  - exact arena_xxy_wf.
  - reflexivity.
Defined.

(** X6.  [replace] overwrites the entry that the last call for that name
    wrote: for two nodes of one name, [insert(a); replace(b)] is [insert(b)],
    and [replace(a); replace(b)] is [replace(b)], on every index. *)
Theorem Index_replace_after_write
    (arena : Nodes) (a b : NodePtr) (na nb : Node) (i : Index.t) :
  arena !! a = Some na ->
  arena !! b = Some nb ->
  result_name na = result_name nb ->
  (Index.insert arena a i ≫= Index.replace arena b) = Index.insert arena b i
  /\ (Index.replace arena a i ≫= Index.replace arena b) = Index.replace arena b i.
Proof.
  intros Ha Hb Hname.
  assert ((Index.insert arena a i ≫= Index.replace arena b) = Index.insert arena b i)
    as Hins.
  { rewrite (Index_insert_returns _ _ _ _ Ha), (Index_insert_returns _ _ _ _ Hb).
    cbn. unfold Index.replace. rewrite Hb. cbn. rewrite Hname, lookup_insert_eq.
    rewrite decide_True by (rewrite length_app; cbn; lia).
    rewrite insert_delete_eq, insert_insert_eq. do 2 f_equal.
    rewrite insert_app_r_alt, Nat.sub_diag by lia. done. }
  split; [done|].
  destruct (Index.idx_map i !! result_name na) as [it|] eqn:Hit.
  - destruct (decide (it < length (Index.idx_list i))) as [Hlt|Hge].
    + rewrite (Index_replace_present _ _ _ _ _ Ha Hit Hlt). cbn.
      rewrite Hname in Hit.
      rewrite (Index_replace_present _ _ _ _ _ Hb Hit Hlt).
      unfold Index.replace. rewrite Hb. cbn. rewrite Hit, length_insert.
      rewrite decide_True by done. do 2 f_equal.
      * by rewrite list_insert_insert_eq.
      * rewrite insert_delete_eq. by apply insert_id.
    + unfold Index.replace. rewrite Ha, Hb, <- Hname, Hit.
      by rewrite !decide_False by done.
  - rewrite (Index_replace_absent _ _ _ _ Ha Hit). rewrite Hins.
    rewrite Hname in Hit. by rewrite (Index_replace_absent _ _ _ _ Hb Hit).
Qed.

Lemma Index_replace_after_write_witness :
  (Index.insert arena_xxy 0 (index dag_x) ≫= Index.replace arena_xxy 1)
  = Index.insert arena_xxy 1 (index dag_x)
  /\ (Index.replace arena_xxy 0 (index dag_x) ≫= Index.replace arena_xxy 1)
     = Index.replace arena_xxy 1 (index dag_x).
Proof.
  apply (Index_replace_after_write arena_xxy 0 1
           (input_node "x" (Some DataTypeInt64)) (input_node "x" (Some DataTypeString))
           (index dag_x)); reflexivity.
Defined.

(** ** projectInput and cloneEmpty *)

(** X7.  [projectInput] sets [project_input] and nothing else: the nodes, the
    index and every other setting are what they were, and a second call
    changes nothing.  [cloneEmpty] gives a DAG without nodes or result
    columns that carries the settings, so that cloning after [projectInput]
    is the same as [projectInput] on the clone. *)
Theorem projectInput_commutes_with_cloneEmpty (d : ActionsDAG) :
  project_input (getSettings (projectInput d)) = true
  /\ getNodes (projectInput d) = getNodes d
  /\ getIndex (projectInput d) = getIndex d
  /\ set_project_input (project_input (getSettings d)) (getSettings (projectInput d))
     = getSettings d
  /\ projectInput (projectInput d) = projectInput d
  /\ getNodes (cloneEmpty d) = []
  /\ Index.size (getIndex (cloneEmpty d)) = 0
  /\ getSettings (cloneEmpty d) = getSettings d
  /\ cloneEmpty (projectInput d) = projectInput (cloneEmpty d).
Proof. by destruct d as [ns ix []]. Qed.

Lemma projectInput_id d : project_input (getSettings d) = true -> projectInput d = d.
Proof. destruct d as [ns ix []]. cbn. by intros ->. Qed.

(** ** The steps of a chain and the DAGs they share *)

(** X8.  [prependProjectInput] of a step, whatever its kind, changes no DAG
    but in its [project_input] setting: the store keeps its length, every DAG
    keeps its nodes, its index and its other settings, and a DAG whose
    [project_input] was set is left as it was.  For an ExpressionActionsStep
    the DAG behind its pointer (and behind every copy of the pointer) becomes
    [projectInput] of itself and the other cells are untouched; for a step of
    another kind the store is as it was. *)
Theorem prependProjectInput_only_sets_project_input (s : Step) (σ σ' : Store) :
  Step_prependProjectInput s σ = Returns σ' ->
  length σ' = length σ
  /\ (forall l d, σ !! l = Some d ->
        exists d', σ' !! l = Some d'
          /\ getNodes d' = getNodes d
          /\ getIndex d' = getIndex d
          /\ set_project_input (project_input (getSettings d)) (getSettings d')
             = getSettings d
          /\ (project_input (getSettings d) = true -> d' = d))
  /\ (forall base actions_dag, s = ExpressionActionsStep base actions_dag ->
        exists d, get actions_dag σ = Some d
          /\ get actions_dag σ' = Some (projectInput d)
          /\ forall l, Some l <> actions_dag -> σ' !! l = σ !! l)
  /\ (typeid_cast_ExpressionActionsStep s = None -> σ' = σ).
Proof.
  assert (forall d : ActionsDAG, exists d', Some d = Some d'
            /\ getNodes d' = getNodes d /\ getIndex d' = getIndex d
            /\ set_project_input (project_input (getSettings d)) (getSettings d')
               = getSettings d
            /\ (project_input (getSettings d) = true -> d' = d)) as Hsame.
  { intros d. exists d. repeat split; try done. by destruct d as [ns ix []]. }
  destruct s as [base [l|]|base aj rc res|base tj j rc res]; cbn.
  - destruct (σ !! l) as [d|] eqn:Hd; [|done]. intros [= <-].
    split; [by rewrite length_insert|].
    split.
    { intros l' d' Hd'. destruct (decide (l' = l)) as [->|Hne].
      - rewrite Hd in Hd'. injection Hd' as <-. exists (projectInput d).
        split; [apply list_lookup_insert_eq; by eapply lookup_lt_Some|].
        split; [done|]. split; [done|]. split; [by destruct d as [ns ix []]|].
        apply projectInput_id.
      - rewrite list_lookup_insert_ne by done. rewrite Hd'. apply Hsame. }
    split; [|done].
    intros base' dag' [= <- <-]. exists d. cbn. split; [done|].
    split; [apply list_lookup_insert_eq; by eapply lookup_lt_Some|].
    intros l' Hne. apply list_lookup_insert_ne. congruence.
  - done.
  - intros [= <-]. split; [done|]. split; [|done].
    intros l d Hd. rewrite Hd. apply Hsame.
  - intros [= <-]. split; [done|]. split; [|done].
    intros l d Hd. rewrite Hd. apply Hsame.
Qed.

Lemma prependProjectInput_only_sets_project_input_witness :
  length [projectInput dag_x; dag_k2] = length [dag_x; dag_k2]
  /\ (forall l d, [dag_x; dag_k2] !! l = Some d ->
        exists d', [projectInput dag_x; dag_k2] !! l = Some d'
          /\ getNodes d' = getNodes d
          /\ getIndex d' = getIndex d
          /\ set_project_input (project_input (getSettings d)) (getSettings d')
             = getSettings d
          /\ (project_input (getSettings d) = true -> d' = d))
  /\ (forall base actions_dag,
        ExpressionActionsStep (Step_new ["x"%string]) (Some 0)
        = ExpressionActionsStep base actions_dag ->
        exists d, get actions_dag [dag_x; dag_k2] = Some d
          /\ get actions_dag [projectInput dag_x; dag_k2] = Some (projectInput d)
          /\ forall l, Some l <> actions_dag ->
               [projectInput dag_x; dag_k2] !! l = [dag_x; dag_k2] !! l)
  /\ (typeid_cast_ExpressionActionsStep
        (ExpressionActionsStep (Step_new ["x"%string]) (Some 0)) = None ->
      [projectInput dag_x; dag_k2] = [dag_x; dag_k2]).
Proof.
  apply (prependProjectInput_only_sets_project_input
           (ExpressionActionsStep (Step_new ["x"%string]) (Some 0)) [dag_x; dag_k2]).
  reflexivity.
Defined.

(** X9.  [prependProjectInput] followed by [finalize] on a step whose DAG is
    [d]: the first call returns with [projectInput d] in the cell of the DAG,
    and [finalize] then decides as it would have before, by
    [projected_output] of [d]: if it is set nothing is called and the store
    stays, otherwise [removeUnusedActions] runs on the DAG with
    [project_input] set and its result replaces the DAG. *)
Theorem finalize_after_prependProjectInput
    (removeUnusedActions : Names -> ActionsDAG -> outcome ActionsDAG)
    (l : nat) (d : ActionsDAG) (required_output_ : Names) (σ : Store) :
  σ !! l = Some d ->
  ExpressionActionsStep_prependProjectInput (Some l) σ
  = Returns (<[l := projectInput d]> σ)
  /\ ExpressionActionsStep_finalize removeUnusedActions (Some l) required_output_
       (<[l := projectInput d]> σ)
     = (if projected_output (getSettings d)
        then Returns (<[l := projectInput d]> σ, [])
        else d' ← removeUnusedActions required_output_ (projectInput d);
             Returns (<[l := d']> σ, [Call_removeUnusedActions l required_output_])).
Proof.
  intros Hd. unfold ExpressionActionsStep_prependProjectInput,
    ExpressionActionsStep_finalize.
  rewrite Hd. split; [done|].
  rewrite list_lookup_insert_eq by apply (lookup_lt_Some _ _ _ Hd).
  unfold getSettings. cbn. destruct (projected_output (settings d)); cbn; [done|].
  destruct (removeUnusedActions _ _); cbn; [|done..].
  by rewrite list_insert_insert_eq.
Qed.

Lemma finalize_after_prependProjectInput_witness :
  ExpressionActionsStep_prependProjectInput (Some 0) [dag_x]
  = Returns (<[0 := projectInput dag_x]> [dag_x])
  /\ ExpressionActionsStep_finalize keep_names (Some 0) ["y"%string]
       (<[0 := projectInput dag_x]> [dag_x])
     = (if projected_output (getSettings dag_x)
        then Returns (<[0 := projectInput dag_x]> [dag_x], [])
        else d' ← keep_names ["y"%string] (projectInput dag_x);
             Returns (<[0 := d']> [dag_x], [Call_removeUnusedActions 0 ["y"%string]])).
Proof.
  apply (finalize_after_prependProjectInput keep_names 0 dag_x ["y"%string] [dag_x]).
  reflexivity.
Defined.

(** X10.  [finalize] of an ExpressionActionsStep touches the DAG of the step
    and no other: through the null pointer it is undefined; it throws exactly
    when [projected_output] is not set and [removeUnusedActions] throws, with
    the same exception; and when it returns, the store has the length it had
    and every cell but that of the DAG is as it was. *)
Theorem finalize_touches_only_its_dag
    (removeUnusedActions : Names -> ActionsDAG -> outcome ActionsDAG)
    (actions_dag : ActionsDAGPtr) (required_output_ : Names) (σ : Store) :
  (get actions_dag σ = None ->
     ExpressionActionsStep_finalize removeUnusedActions actions_dag required_output_ σ
     = Undefined)
  /\ (forall e,
        ExpressionActionsStep_finalize removeUnusedActions actions_dag required_output_ σ
        = Throws e
        <-> exists d, get actions_dag σ = Some d
              /\ projected_output (getSettings d) = false
              /\ removeUnusedActions required_output_ d = Throws e)
  /\ (forall σ' calls,
        ExpressionActionsStep_finalize removeUnusedActions actions_dag required_output_ σ
        = Returns (σ', calls) ->
        length σ' = length σ
        /\ forall l, Some l <> actions_dag -> σ' !! l = σ !! l).
Proof.
  unfold ExpressionActionsStep_finalize.
  destruct actions_dag as [l|]; cbn.
  2:{ split; [done|]. split; [|done]. intros e. split; [done|].
      by intros (d & ? & _). }
  destruct (σ !! l) as [d|] eqn:Hd.
  2:{ split; [done|]. split; [|done]. intros e. split; [done|].
      by intros (d & ? & _). }
  split; [done|].
  destruct (projected_output (getSettings d)) eqn:Hp; cbn.
  - split.
    + intros e. split; [done|]. intros (d' & [= <-] & Hp' & _). congruence.
    + by intros σ' calls [= <- <-].
  - destruct (removeUnusedActions required_output_ d) as [d'|e'|] eqn:HR; cbn.
    + split.
      * intros e. split; [done|]. intros (d0 & [= <-] & _ & HR'). congruence.
      * intros σ' calls [= <- <-]. split; [by rewrite length_insert|].
        intros l' Hne. apply list_lookup_insert_ne. congruence.
    + split; [|done]. intros e. split.
      * intros [= <-]. eauto.
      * intros (d0 & [= <-] & _ & HR'). congruence.
    + split; [|done]. intros e. split; [done|].
      intros (d0 & [= <-] & _ & HR'). congruence.
Qed.

(** ** The chain: clear, lastStep and the accessors together *)

(** X11.  After [clear()] the chain is empty again, whatever it held:
    [getLastStep()] and [getLastActions()] throw "Empty
    ExpressionActionsChain", [getLastActions(true)] returns the null pointer,
    and [lastStep(columns)] does what it does on a new chain of the same
    context.  [clear()] keeps the context, and a second [clear()] changes
    nothing. *)
Theorem clear_then_accessors (c : ExpressionActionsChain) :
  getLastStep (clear c) = Throws EmptyChain
  /\ getLastActions false (clear c) = Throws EmptyChain
  /\ getLastActions true (clear c) = Returns (clear c, None)
  /\ context (clear c) = context c
  /\ clear (clear c) = clear c
  /\ (forall columns σ,
        lastStep columns σ (clear c) = lastStep columns σ (mkChain (context c) [])).
Proof. done. Qed.

Lemma back_ref_nonempty c r :
  back_ref c = Returns r -> vector_empty (steps c) = false /\ r = length (steps c) - 1.
Proof. unfold back_ref. destruct (steps c); [done|]. by intros [= <-]. Qed.

(** X12.  [lastStep] creates a step at most once: when a call has returned,
    a further call on the resulting chain, with any columns, returns the same
    reference and leaves the store and the chain as they are; the columns of
    the further call are not looked at. *)
Theorem lastStep_idempotent
    (columns1 columns2 : NamesAndTypesList) (σ σ' : Store)
    (c c' : ExpressionActionsChain) (r : StepRef) :
  lastStep columns1 σ c = Returns (σ', c', r) ->
  lastStep columns2 σ' c' = Returns (σ', c', r).
Proof.
  intros H.
  assert (back_ref c' = Returns r) as Hback.
  { unfold lastStep in H. destruct (vector_empty (steps c)).
    - apply bind_Returns in H as (d & _ & H). cbn in H.
      apply bind_Returns in H as (r' & Hr & [= <- <- <-]). done.
    - apply bind_Returns in H as (r' & Hr & [= <- <- <-]). done. }
  destruct (back_ref_nonempty _ _ Hback) as [Hne _].
  unfold lastStep. by rewrite Hne, Hback.
Qed.

Lemma lastStep_idempotent_witness :
  exists σ' c' r,
    lastStep [mkNameAndTypePair "a" (Some DataTypeInt64)] [] (mkChain 0 [])
    = Returns (σ', c', r)
    /\ lastStep [mkNameAndTypePair "a" (Some DataTypeInt64);
                 mkNameAndTypePair "a" (Some DataTypeString)] σ' c'
       = Returns (σ', c', r).
Proof.
  do 3 eexists. split; [reflexivity|].
  apply (lastStep_idempotent [mkNameAndTypePair "a" (Some DataTypeInt64)]
           [mkNameAndTypePair "a" (Some DataTypeInt64);
            mkNameAndTypePair "a" (Some DataTypeString)] [] _ (mkChain 0 [])).
  reflexivity.
Defined.

(** X13.  [lastStep] on a chain without steps against the constructor of the
    DAG and the accessors: it throws exactly when the constructor throws,
    with the same exception; when it returns, the constructor returned a DAG,
    that DAG is the one new cell at the end of the store, [getLastActions()]
    returns a pointer to it, and [getLastStep()] returns the reference that
    [lastStep] returned, to an ExpressionActionsStep with no required
    output. *)
Theorem lastStep_then_accessors
    (columns : NamesAndTypesList) (σ : Store) (ctx : ContextRef) :
  (forall e, lastStep columns σ (mkChain ctx []) = Throws e
             <-> ActionsDAG_from_inputs columns = Throws e)
  /\ (forall σ' c' r,
        lastStep columns σ (mkChain ctx []) = Returns (σ', c', r) ->
        exists d,
          ActionsDAG_from_inputs columns = Returns d
          /\ σ' = σ ++ [d]
          /\ getLastActions false c' = Returns (c', Some (length σ))
          /\ get (Some (length σ)) σ' = Some d
          /\ getLastStep c' = Returns (c', r)
          /\ at_ r c' = Some (ExpressionActionsStep_new (Some (length σ)))).
Proof.
  unfold lastStep. cbn [steps vector_empty].
  destruct (ActionsDAG_from_inputs columns) as [d|e'|]; cbn.
  - split; [done|]. intros σ' c' r [= <- <- <-]. exists d.
    split; [done|]. split; [done|]. split; [done|].
    split; [by rewrite lookup_app_r, Nat.sub_diag|]. done.
  - split; [|done]. intros e. split; congruence.
  - split; [|done]. intros e. split; congruence.
Qed.

(** X14.  The two accessors agree and change nothing.  On a chain with steps
    [allow_empty] makes no difference.  When [getLastActions] returns, the
    chain is as it was, and either the chain is empty, [allow_empty] was set
    and the pointer is null, or [getLastStep()] returns the last step, which
    is an ExpressionActionsStep holding the pointer returned.  When
    [getLastStep] returns, the chain is as it was and the reference is to its
    last element. *)
Theorem chain_accessors_agree (allow_empty : bool) (c : ExpressionActionsChain) :
  (steps c <> [] -> getLastActions allow_empty c = getLastActions false c)
  /\ (forall c' p,
        getLastActions allow_empty c = Returns (c', p) ->
        c' = c
        /\ ((steps c = [] /\ allow_empty = true /\ p = None)
            \/ exists base,
                 getLastStep c = Returns (c, length (steps c) - 1)
                 /\ at_ (length (steps c) - 1) c = Some (ExpressionActionsStep base p)))
  /\ (forall c' r,
        getLastStep c = Returns (c', r) ->
        c' = c /\ r = length (steps c) - 1 /\ is_Some (at_ r c)
        /\ getLastActions true c = getLastActions false c).
Proof.
  unfold getLastActions, getLastStep.
  destruct c as [ctx ss]. cbn [steps].
  destruct (decide (ss = [])) as [->|Hne].
  - cbn. split; [done|]. split; [|done].
    intros c' p. destruct allow_empty; [|done]. intros [= <- <-]. eauto.
  - destruct (exists_last Hne) as (ss' & s & ->).
    rewrite vector_empty_snoc, last_snoc.
    destruct (back_ref_snoc ctx ss' s) as [Hback Hat]. rewrite Hback.
    assert (length (ss' ++ [s]) - 1 = length ss') as ->.
    { rewrite length_app. cbn. lia. }
    cbn [mbind outcome_bind].
    split; [done|]. split.
    + intros c' p. destruct s as [base dag| |]; cbn; [|done..].
      intros [= <- <-]. split; [done|]. right. by exists base.
    + intros c' r [= <- <-]. rewrite Hat. eauto.
Qed.
